(** * PaddleScience: initializer library, VIV driver and model factory

    Shallow embedding of
      - [ppsci/utils/initializer.py]  (module [Initializer]): the uniform,
        normal, truncated-normal and constant fills, the fan computation and
        the Xavier pair;
      - [examples/fsi/viv.py]         (module [Viv]): [train] and [eval];
      - [ppsci/arch/__init__.py]      (module [Arch]): [build_model];
      - the rest of [initializer.py]  (module [InitializerKaiming]): the fan
        selection, the gains, the Kaiming pair and the two layer
        initializers;
      - [tests/models/configtrans.py] (module [ConfigTrans]): [YamlLoader]
        and [compare];
    with further readings of the driver's trace (module [VivCalls]) and of
    copies (module [ArchCopies]), followed by the properties proved about
    them.

    Python values are carried as follows.
      - [int]            : [Z]; NumPy's [int64] scalars keep their wrap-around.
      - [float]          : IEEE-754 binary64, as [spec_float] with the
                           operations of [SpecFloat] at precision 53 and
                           maximal exponent 1024.
      - exceptions       : the error side of [result]; state changes made
                           before a [raise] stay in the state.
      - mutable objects  : locations in a store ([gmap]).
      - tensors          : shape, dtype and elements; an element of a
                           [float32] or [float16] tensor is a value of that
                           format.
      - framework calls  : fields of a record ([Runtime], [Collaborators],
                           [Registry], [NumPy]) that the embedding is
                           parameterised by; each may raise. *)

From Stdlib Require Import ZArith Bool Lia.
From Stdlib Require Import Floats.SpecFloat.
From stdpp Require Import gmap strings list pretty.

Local Open Scope Z_scope.

(* ===================================================================== *)
(** * Part I: the embedding                                               *)
(* ===================================================================== *)

(** ** Python-level values shared by the three modules *)
Module Py.

(** Exceptions that the modelled code raises or lets through. *)
Inductive exn :=
| ValueError (msg : string)
| ZeroDivisionError (msg : string)
| OverflowError (msg : string)
| IndexError (msg : string)
| KeyError (key : string)
| NameError (name : string)
| TypeError (msg : string)
| AttributeError (msg : string)
| RecursionError (msg : string)
| ReferenceError (msg : string)
| RuntimeError (msg : string)
| AssertionError (msg : string)
| SyntaxError (msg : string).

Inductive result (A : Type) :=
| Ok (a : A)
| Raise (e : exn).
Arguments Ok {A} a.
Arguments Raise {A} e.

Definition rbind {A B} (r : result A) (k : A -> result B) : result B :=
  match r with
  | Ok a => k a
  | Raise e => Raise e
  end.

(** A computation over a mutable state [W] that may raise. *)
Definition M (W A : Type) : Type := W -> result A * W.

Definition ret {W A} (a : A) : M W A := fun w => (Ok a, w).

Definition raise {W A} (e : exn) : M W A := fun w => (Raise e, w).

Definition bind {W A B} (c : M W A) (k : A -> M W B) : M W B :=
  fun w =>
    match c w with
    | (Ok a, w') => k a w'
    | (Raise e, w') => (Raise e, w')
    end.

Definition lift {W A} (r : result A) : M W A := fun w => (r, w).

Definition gets {W A} (f : W -> A) : M W A := fun w => (Ok (f w), w).

Definition modify {W} (f : W -> W) : M W unit := fun w => (Ok tt, f w).

(** [for x in xs: body(x)], stopping at the first exception. *)
Fixpoint for_each {W A} (xs : list A) (body : A -> M W unit) : M W unit :=
  match xs with
  | [] => ret tt
  | x :: xs' => bind (body x) (fun _ => for_each xs' body)
  end.

(** *** Integers *)

(** [a % b] on Python ints: floored, sign of the divisor, as [Z.modulo]. *)
Definition py_mod (a b : Z) : result Z :=
  if b =? 0 then Raise (ZeroDivisionError "integer division or modulo by zero")
  else Ok (a `mod` b).

(** [range(1, n + 1)]. *)
Definition range1 (n : Z) : list Z := seqZ 1 n.

(** Two's-complement wrap-around of NumPy's [int64]. *)
Definition wrap64 (z : Z) : Z := (z + 2 ^ 63) `mod` 2 ^ 64 - 2 ^ 63.

(** A Python [int] or a NumPy [int64] scalar; arithmetic that involves an
    [int64] operand is done in [int64]. *)
Inductive pyint :=
| PyInt (v : Z)
| NpInt64 (v : Z).

Definition int_val (n : pyint) : Z :=
  match n with
  | PyInt v => v
  | NpInt64 v => v
  end.

Definition int_mul (a b : pyint) : pyint :=
  match a, b with
  | PyInt x, PyInt y => PyInt (x * y)
  | _, _ => NpInt64 (wrap64 (int_val a * int_val b))
  end.

Definition int_add (a b : pyint) : pyint :=
  match a, b with
  | PyInt x, PyInt y => PyInt (x + y)
  | _, _ => NpInt64 (wrap64 (int_val a + int_val b))
  end.

(** [np.prod] of a list of ints: an [int64] product.  The entries of a
    tensor shape are themselves within [int64]. *)
Definition np_prod (l : list Z) : pyint :=
  NpInt64 (fold_left (fun acc d => wrap64 (acc * d)) l 1).

(** *** Floats *)

Definition prec : Z := 53.
Definition emax : Z := 1024.

Definition pyfloat : Type := spec_float.

Definition fadd : pyfloat -> pyfloat -> pyfloat := SFadd prec emax.
Definition fsub : pyfloat -> pyfloat -> pyfloat := SFsub prec emax.
Definition fmul : pyfloat -> pyfloat -> pyfloat := SFmul prec emax.
Definition fneg : pyfloat -> pyfloat := SFopp.
Definition flt : pyfloat -> pyfloat -> bool := SFltb.
Definition fle : pyfloat -> pyfloat -> bool := SFleb.
Definition feq : pyfloat -> pyfloat -> bool := SFeqb.

Definition is_nan (x : pyfloat) : bool :=
  match x with
  | S754_nan => true
  | _ => false
  end.

Definition is_inf (x : pyfloat) : bool :=
  match x with
  | S754_infinity _ => true
  | _ => false
  end.

(** [float("inf")]. *)
Definition inf : pyfloat := S754_infinity false.

(** Nearest binary64 to an integer (ties to even). *)
Definition float_of_Z (z : Z) : pyfloat := binary_normalize prec emax z 0 false.

(** [float(n)]: raises when the int is too large for a float. *)
Definition py_float (n : pyint) : result pyfloat :=
  let f := float_of_Z (int_val n) in
  if is_inf f then Raise (OverflowError "int too large to convert to float")
  else Ok f.

Definition fzero : pyfloat := S754_zero false.
Definition fone : pyfloat := Eval vm_compute in float_of_Z 1.
Definition ftwo : pyfloat := Eval vm_compute in float_of_Z 2.
Definition fthree : pyfloat := Eval vm_compute in float_of_Z 3.

(** [x / y] on floats: Python raises on a zero divisor (either sign). *)
Definition py_truediv (x y : pyfloat) : result pyfloat :=
  if feq y fzero then Raise (ZeroDivisionError "float division by zero")
  else Ok (SFdiv prec emax x y).

(** [math.sqrt]: raises on a negative argument. *)
Definition math_sqrt (x : pyfloat) : result pyfloat :=
  if flt x fzero then Raise (ValueError "math domain error")
  else Ok (SFsqrt prec emax x).

(** A Python number passed where a float is expected. *)
Inductive pynum :=
| NumInt (z : Z)
| NumFloat (f : pyfloat).

Definition num_to_float (v : pynum) : pyfloat :=
  match v with
  | NumInt z => float_of_Z z
  | NumFloat f => f
  end.

End Py.

Export Py.

Declare Scope py_scope.
Delimit Scope py_scope with py.
Notation "x <- c ;; k" := (bind c (fun x => k))
  (at level 100, c at next level, right associativity) : py_scope.
Notation "c ;; k" := (bind c (fun _ => k))
  (at level 100, right associativity) : py_scope.
Notation "x <-- r ;;; k" := (rbind r (fun x => k))
  (at level 100, r at next level, right associativity) : py_scope.
Local Open Scope py_scope.

(* ===================================================================== *)
(** ** ppsci/utils/initializer.py                                        *)
(* ===================================================================== *)
Module Initializer.

Inductive DType := float16 | float32 | float64.

Definition dtype_eqb (a b : DType) : bool :=
  match a, b with
  | float16, float16 | float32, float32 | float64, float64 => true
  | _, _ => false
  end.

(** A [paddle.Tensor] as the initializers see it: a parameter of the store or
    a temporary that a framework call has returned.  The elements are
    values of the format of [dtype], carried in the type of binary64. *)
Record Tensor := mkTensor {
  shape : list Z;
  dtype : DType;
  data : list pyfloat
}.

Definition ndim (T : Tensor) : Z := Z.of_nat (length (shape T)).

(** Total element count of a shape. *)
Definition numel (s : list Z) : Z := fold_right Z.mul 1 s.

(** What the framework and the math library supply.  Every framework call
    may raise.
      - [paddle_uniform shape dtype min max] and [paddle_normal mean std
        shape] read the process-wide random source and leave it advanced,
        whether they return or raise; [paddle.normal] is given no dtype, and
        the framework documents its result as of [default_dtype];
      - [paddle_erfinv_], [paddle_multiply], [paddle_add], [paddle_clip] are
        the kernels applied to temporaries, [paddle_to_tensor] turns a
        Python float into a tensor;
      - [paddle_full_like] is given the Python number as it is; an int that
        a double holds exactly is filled in as that double
        ([full_like_int]);
      - [tensor_set] is the copy into the buffer that [Tensor.set_value]
        makes once its two assertions have passed;
      - [math_erf] is the C library's. *)
Record Runtime := mkRuntime {
  Rng :> Type;
  default_dtype : DType;
  paddle_uniform : list Z -> DType -> pyfloat -> pyfloat -> Rng -> result Tensor * Rng;
  paddle_normal : pyfloat -> pyfloat -> list Z -> Rng -> result Tensor * Rng;
  paddle_erfinv_ : Tensor -> result Tensor;
  paddle_to_tensor : pyfloat -> result Tensor;
  paddle_multiply : Tensor -> Tensor -> result Tensor;
  paddle_add : Tensor -> Tensor -> result Tensor;
  paddle_clip : Tensor -> pyfloat -> pyfloat -> result Tensor;
  paddle_full_like : Tensor -> pynum -> DType -> result Tensor;
  tensor_set : Tensor -> Tensor -> result unit;
  math_erf : pyfloat -> pyfloat;
  full_like_int : forall T z d,
    - 2 ^ 53 <= z <= 2 ^ 53 ->
    paddle_full_like T (NumInt z) d = paddle_full_like T (NumFloat (float_of_Z z)) d
}.

(** Payload of a [logger.warning] call. *)
Inductive LogRecord :=
| WarnTruncNormalMean (mean std a b : pyfloat).

Definition loc : Type := nat.

(** The two assertions of [Tensor.set_value], by the opening words of their
    messages (which go on with the name of the variable). *)
Definition shape_mismatch : exn := AssertionError "Variable Shape not match".
Definition dtype_mismatch : exn := AssertionError "Variable dtype not match".

(** The state the initializers run in: the parameters, the random source
    of the runtime, the gradient mode and the log. *)
Record World {R : Type} := mkWorld {
  tensors : gmap loc Tensor;
  rng : R;
  grad_enabled : bool;
  log : list LogRecord
}.
Arguments World : clear implicits.
Arguments mkWorld {R} tensors rng grad_enabled log.

Section WithRuntime.
Context {R : Runtime}.

Definition set_tensors (f : gmap loc Tensor -> gmap loc Tensor) (w : World R) : World R :=
  mkWorld (f (tensors w)) (rng w) (grad_enabled w) (log w).

Definition set_rng (r : Rng R) (w : World R) : World R :=
  mkWorld (tensors w) r (grad_enabled w) (log w).

Definition set_grad (g : bool) (w : World R) : World R :=
  mkWorld (tensors w) (rng w) g (log w).

Definition add_log (r : LogRecord) (w : World R) : World R :=
  mkWorld (tensors w) (rng w) (grad_enabled w) (log w ++ [r]).

(** [with paddle.no_grad(): body]: the previous mode comes back on every
    exit, normal or not. *)
Definition no_grad {A} (body : M (World R) A) : M (World R) A :=
  fun w =>
    let saved := grad_enabled w in
    let '(r, w') := body (set_grad false w) in
    (r, set_grad saved w').

Definition get_tensor (t : loc) : M (World R) Tensor :=
  fun w =>
    match tensors w !! t with
    | Some T => (Ok T, w)
    | None => (Raise (ReferenceError "no such tensor"), w)
    end.

(** Whether [T.set_value(v)] goes through: the shapes are compared, then
    the dtypes, then the framework copies. *)
Definition accepts (T v : Tensor) : result unit :=
  if negb (bool_decide (shape T = shape v)) then Raise shape_mismatch
  else if negb (dtype_eqb (dtype T) (dtype v)) then Raise dtype_mismatch
  else tensor_set R T v.

(** [tensor.set_value(v)]: the buffer of the same object is overwritten. *)
Definition set_value (t : loc) (v : Tensor) : M (World R) unit :=
  T <- get_tensor t ;;
  lift (accepts T v) ;;
  modify (set_tensors (<[t := mkTensor (shape T) (dtype T) (data v)]>)).

Definition uniform (s : list Z) (d : DType) (lo hi : pyfloat) : M (World R) Tensor :=
  fun w =>
    let '(v, r) := paddle_uniform R s d lo hi (rng w) in
    (v, set_rng r w).

Definition normal (mean std : pyfloat) (s : list Z) : M (World R) Tensor :=
  fun w =>
    let '(v, r) := paddle_normal R mean std s (rng w) in
    (v, set_rng r w).

Definition logger_warning (r : LogRecord) : M (World R) unit := modify (add_log r).

(** [tensor.shape[i]]. *)
Definition shape_at (T : Tensor) (i : nat) : M (World R) Z :=
  match shape T !! i with
  | Some d => ret d
  | None => raise (IndexError "list index out of range")
  end.

Definition _no_grad_uniform_ (tensor : loc) (a b : pyfloat) : M (World R) loc :=
  no_grad (
    T <- get_tensor tensor ;;
    v <- uniform (shape T) (dtype T) a b ;;
    set_value tensor v ;;
    ret tensor).

Definition _no_grad_normal_ (tensor : loc) (mean std : pyfloat) : M (World R) loc :=
  no_grad (
    T <- get_tensor tensor ;;
    v <- normal mean std (shape T) ;;
    set_value tensor v ;;
    ret tensor).

(** The standard normal cumulative distribution function of
    [_no_grad_trunc_normal_]. *)
Definition norm_cdf (x : pyfloat) : result pyfloat :=
  s <-- math_sqrt ftwo ;;;
  q <-- py_truediv x s ;;;
  py_truediv (fadd fone (math_erf R q)) ftwo.

(** The kernels that [_no_grad_trunc_normal_] applies to its uniform draw,
    as one function: [erfinv_], [multiply] by the tensor of
    [std * math.sqrt(2.0)], [add] of the tensor of [mean], [clip] between
    [a] and [b]. *)
Definition trunc_kernels (draw : Tensor) (mean std a b : pyfloat) : result Tensor :=
  _tensor <-- paddle_erfinv_ R draw ;;;
  s <-- math_sqrt ftwo ;;;
  c <-- paddle_to_tensor R (fmul std s) ;;;
  _tensor <-- paddle_multiply R _tensor c ;;;
  m <-- paddle_to_tensor R mean ;;;
  _tensor <-- paddle_add R _tensor m ;;;
  paddle_clip R _tensor a b.

Definition _no_grad_trunc_normal_ (tensor : loc) (mean std a b : pyfloat) : M (World R) loc :=
  (if flt mean (fsub a (fmul ftwo std)) || flt (fadd b (fmul ftwo std)) mean
   then logger_warning (WarnTruncNormalMean mean std a b)
   else ret tt) ;;
  no_grad (
    l <- lift (q <-- py_truediv (fsub a mean) std ;;; norm_cdf q) ;;
    u <- lift (q <-- py_truediv (fsub b mean) std ;;; norm_cdf q) ;;
    T <- get_tensor tensor ;;
    _tensor <- uniform (shape T) (dtype T)
                 (fsub (fmul ftwo l) fone) (fsub (fmul ftwo u) fone) ;;
    _tensor <- lift (paddle_erfinv_ R _tensor) ;;
    s <- lift (math_sqrt ftwo) ;;
    c <- lift (paddle_to_tensor R (fmul std s)) ;;
    _tensor <- lift (paddle_multiply R _tensor c) ;;
    m <- lift (paddle_to_tensor R mean) ;;
    _tensor <- lift (paddle_add R _tensor m) ;;
    _tensor <- lift (paddle_clip R _tensor a b) ;;
    set_value tensor _tensor ;;
    ret tensor).

Definition _no_grad_fill_ (tensor : loc) (value : pynum) : M (World R) loc :=
  no_grad (
    T <- get_tensor tensor ;;
    v <- lift (paddle_full_like R T value (dtype T)) ;;
    set_value tensor v ;;
    ret tensor).

Definition uniform_ (tensor : loc) (a b : pyfloat) : M (World R) loc :=
  _no_grad_uniform_ tensor a b.

Definition normal_ (tensor : loc) (mean std : pyfloat) : M (World R) loc :=
  _no_grad_normal_ tensor mean std.

Definition trunc_normal_ (tensor : loc) (mean std a b : pyfloat) : M (World R) loc :=
  _no_grad_trunc_normal_ tensor mean std a b.

Definition constant_ (tensor : loc) (value : pynum) : M (World R) loc :=
  _no_grad_fill_ tensor value.

Definition ones_ (tensor : loc) : M (World R) loc :=
  _no_grad_fill_ tensor (NumInt 1).

Definition zeros_ (tensor : loc) : M (World R) loc :=
  _no_grad_fill_ tensor (NumInt 0).

Definition ndim_error (n : Z) : exn :=
  ValueError ("tensor.ndim should be no less than 2, but got " +:+ pretty n +:+ ".").

Definition _calculate_fan_in_and_fan_out (tensor : loc) (reverse : bool)
  : M (World R) (pyint * pyint) :=
  T <- get_tensor tensor ;;
  if ndim T <? 2 then raise (ndim_error (ndim T))
  else
    fmaps <-
      (if reverse
       then (d0 <- shape_at T 0 ;; d1 <- shape_at T 1 ;; ret (d0, d1))
       else (d1 <- shape_at T 1 ;; d0 <- shape_at T 0 ;; ret (d1, d0))) ;;
    let '(num_input_fmaps, num_output_fmaps) := fmaps in
    let receptive_field_size :=
      if 2 <? ndim T then np_prod (drop 2 (shape T)) else PyInt 1 in
    let fan_in := int_mul (PyInt num_input_fmaps) receptive_field_size in
    let fan_out := int_mul (PyInt num_output_fmaps) receptive_field_size in
    ret (fan_in, fan_out).

(** [gain * math.sqrt(2.0 / float(fan_in + fan_out))]. *)
Definition xavier_std (gain : pyfloat) (fan_in fan_out : pyint) : result pyfloat :=
  n <-- py_float (int_add fan_in fan_out) ;;;
  q <-- py_truediv ftwo n ;;;
  s <-- math_sqrt q ;;;
  Ok (fmul gain s).

Definition xavier_uniform_ (tensor : loc) (gain : pyfloat) (reverse : bool) : M (World R) loc :=
  fans <- _calculate_fan_in_and_fan_out tensor reverse ;;
  let '(fan_in, fan_out) := fans in
  std <- lift (xavier_std gain fan_in fan_out) ;;
  k <- lift (s <-- math_sqrt fthree ;;; Ok (fmul s std)) ;;
  _no_grad_uniform_ tensor (fneg k) k.

Definition xavier_normal_ (tensor : loc) (gain : pyfloat) (reverse : bool) : M (World R) loc :=
  fans <- _calculate_fan_in_and_fan_out tensor reverse ;;
  let '(fan_in, fan_out) := fans in
  std <- lift (xavier_std gain fan_in fan_out) ;;
  _no_grad_normal_ tensor (float_of_Z 0) std.

(** The world in which the buffer of [t] holds the data of [v], the random
    source being at [g]. *)
Definition filled (w : World R) (t : loc) (T v : Tensor) (g : Rng R) : World R :=
  mkWorld (<[t := mkTensor (shape T) (dtype T) (data v)]> (tensors w)) g
    (grad_enabled w) (log w).

(** The world whose buffers are those of [w], the random source at [g]. *)
Definition unfilled (w : World R) (g : Rng R) : World R :=
  mkWorld (tensors w) g (grad_enabled w) (log w).

(** The outcome of handing what a framework call gave ([made], with the
    random source it left) to [set_value] on the tensor [T] at [t] and
    returning [t]: an exception of the call or of [set_value] comes out with
    no buffer written, and otherwise the buffer of [t] holds the value. *)
Definition handed (w : World R) (t : loc) (T : Tensor) (made : result Tensor * Rng R)
  : result loc * World R :=
  match made with
  | (Ok v, g) =>
      match accepts T v with
      | Ok _ => (Ok t, filled w t T v g)
      | Raise e => (Raise e, unfilled w g)
      end
  | (Raise e, g) => (Raise e, unfilled w g)
  end.

End WithRuntime.
Arguments accepts : clear implicits.
Arguments trunc_kernels : clear implicits.

(** ** A reference runtime

    A deterministic stand-in for the framework, to run the initializers on
    concrete tensors.  Its kernels compute in the format of the tensor's
    dtype; each "draw" is the lower bound (resp. the mean), the generator
    state counts the calls, [erfinv_] is the identity and [erf] is constantly
    zero; the uniform sampler has no float16 kernel, as in a CPU build. *)

Definition dtype_prec (d : DType) : Z :=
  match d with float16 => 11 | float32 => 24 | float64 => 53 end.

Definition dtype_emax (d : DType) : Z :=
  match d with float16 => 16 | float32 => 128 | float64 => 1024 end.

(** The nearest value of the format of [d] (ties to even). *)
Definition cast (d : DType) (x : pyfloat) : pyfloat :=
  match x with
  | S754_finite s m e => binary_round (dtype_prec d) (dtype_emax d) s m e
  | _ => x
  end.

Definition clip1 (lo hi x : pyfloat) : pyfloat :=
  if flt x lo then lo else if flt hi x then hi else x.

(** [paddle.clip(x, min, max)] element by element in the dtype of [x], the
    two bounds taken to that dtype first. *)
Definition clip_kernel (x : Tensor) (lo hi : pyfloat) : Tensor :=
  mkTensor (shape x) (dtype x)
    (map (clip1 (cast (dtype x) lo) (cast (dtype x) hi)) (data x)).

Definition wider (a b : DType) : DType :=
  match a, b with
  | float64, _ | _, float64 => float64
  | float32, _ | _, float32 => float32
  | _, _ => float16
  end.

(** A binary kernel with a one-element second operand. *)
Definition scalar_kernel (op : Z -> Z -> pyfloat -> pyfloat -> pyfloat) (x y : Tensor)
  : result Tensor :=
  match data y with
  | [c] =>
      let d := wider (dtype x) (dtype y) in
      Ok (mkTensor (shape x) d (map (fun v => op (dtype_prec d) (dtype_emax d) v c) (data x)))
  | _ => Raise (ValueError "operands could not be broadcast together")
  end.

Definition full_like_kernel (T : Tensor) (value : pynum) (d : DType) : result Tensor :=
  let x := num_to_float value in
  if is_inf (cast d x) && negb (is_inf x)
  then Raise (ValueError "The filled value is out of range for target type")
  else Ok (mkTensor (shape T) d (replicate (length (data T)) (cast d x))).

Definition stub_runtime : Runtime :=
  {| Rng := Z;
     default_dtype := float32;
     paddle_uniform := fun s d lo _ r =>
       (match d with
        | float16 => Raise (RuntimeError "the kernel uniform is not registered for float16")
        | _ => Ok (mkTensor s d (replicate (Z.to_nat (numel s)) (cast d lo)))
        end, r + 1);
     paddle_normal := fun mean _ s r =>
       (Ok (mkTensor s float32 (replicate (Z.to_nat (numel s)) (cast float32 mean))), r + 1);
     paddle_erfinv_ := fun x => Ok x;
     paddle_to_tensor := fun x => Ok (mkTensor [] float32 [cast float32 x]);
     paddle_multiply := scalar_kernel SFmul;
     paddle_add := scalar_kernel SFadd;
     paddle_clip := fun x lo hi => Ok (clip_kernel x lo hi);
     paddle_full_like := full_like_kernel;
     tensor_set := fun _ _ => Ok tt;
     math_erf := fun _ => fzero;
     full_like_int := fun _ _ _ _ => eq_refl |}.

(** A store holding the single tensor [T] at location 0, gradient tracking
    on, nothing logged. *)
Definition single_world (T : Tensor) : World stub_runtime :=
  mkWorld (R := stub_runtime) {[ 0%nat := T ]} 0 true [].

Definition empty_buffer (s : list Z) : Tensor :=
  mkTensor s float32 (replicate (Z.to_nat (numel s)) fzero).

(** The literal [0.1]. *)
Definition one_tenth : pyfloat :=
  Eval vm_compute in SFdiv prec emax (float_of_Z 1) (float_of_Z 10).

(** The same with another dtype. *)
Definition empty_buffer_of (d : DType) (s : list Z) : Tensor :=
  mkTensor s d (replicate (Z.to_nat (numel s)) fzero).

End Initializer.

(* ===================================================================== *)
(** ** examples/fsi/viv.py                                               *)
(* ===================================================================== *)
Module Viv.

(** The dict [{"metric": ..., "epoch": ...}]. *)
Record MetricRecord := mkMetric {
  metric : pyfloat;
  epoch : Z
}.

(** The hyper-parameters that [train] fixes in its first lines. *)
Record Hyper := mkHyper {
  epochs : Z;
  save_freq : Z;
  eval_during_train : bool;
  eval_freq : Z;
  start_eval_epoch : Z
}.

(** The values written in the driver. *)
Definition viv_hyper : Hyper :=
  {| epochs := 100000;
     save_freq := 1000;
     eval_during_train := true;
     eval_freq := 1000;
     start_eval_epoch := 1 |}.

Inductive LogMsg :=
| TrainAvg (epoch_id total : Z)            (* "[Train][Epoch e/n][Avg] ..." *)
| EvalBest (epoch_id : Z) (best : pyfloat) (* "[Eval][Epoch e][best metric: m]" *)
| EvalAvg (epoch_id : Z).                  (* "[Eval][Epoch e] ..." *)

(** Calls that leave the driver, in the order they are made. *)
Inductive event :=
| BuildOptimizer
| BuildConstraints
| FleetInit
| TrainEpoch (epoch_id : Z)
| ModelEval
| ModelTrain
| BuildValidator
| EvalFunc (epoch_id : Z)
| SaveCheckpoint (m : MetricRecord) (tag : string)
| LrStep
| LoggerInfo (m : LogMsg)
| LoggerScalar (name : string) (v : pyfloat) (step : Z)
| VdlClose.

(** The collaborators of the driver (training and evaluation strategies,
    persistence, learning-rate schedule, constructors), acting on a state
    [Ext] of their own: model weights, optimizer, data, files. *)
Record Collaborators := mkCollaborators {
  Ext : Type;
  build_optimizer : Ext -> result unit * Ext;
  build_constraints : Ext -> result unit * Ext;
  fleet_init : Ext -> result unit * Ext;
  train_epoch_func : Z -> Ext -> result unit * Ext;
  build_validator : Ext -> result unit * Ext;
  eval_func : Z -> Ext -> result pyfloat * Ext;
  save_checkpoint : MetricRecord -> string -> Ext -> result unit * Ext;
  lr_by_epoch : Ext -> bool;
  lr_step : Ext -> result unit * Ext;
  vdl_close : Ext -> result unit * Ext
}.

Section WithCollaborators.
Context {C : Collaborators}.

(** The session object [solver], the local [best_metric] of [train], and the
    calls made so far. *)
Record World := mkWorld {
  ext : Ext C;
  training : bool;          (* mode of [solver.model] *)
  attrs : gset string;      (* attributes attached to [solver] *)
  world_size : Z;
  vdl_writer : bool;        (* [solver.vdl_writer is not None] *)
  best_metric : MetricRecord;
  trace : list event
}.

Definition set_ext (x : Ext C) (w : World) : World :=
  mkWorld x (training w) (attrs w) (world_size w) (vdl_writer w) (best_metric w) (trace w).

Definition set_training (b : bool) (w : World) : World :=
  mkWorld (ext w) b (attrs w) (world_size w) (vdl_writer w) (best_metric w) (trace w).

Definition add_attr (a : string) (w : World) : World :=
  mkWorld (ext w) (training w) ({[ a ]} ∪ attrs w) (world_size w) (vdl_writer w)
    (best_metric w) (trace w).

Definition set_best (m : MetricRecord) (w : World) : World :=
  mkWorld (ext w) (training w) (attrs w) (world_size w) (vdl_writer w) m (trace w).

Definition add_event (ev : event) (w : World) : World :=
  mkWorld (ext w) (training w) (attrs w) (world_size w) (vdl_writer w) (best_metric w)
    (trace w ++ [ev]).

Definition hasattr (a : string) : M World bool :=
  gets (fun w => bool_decide (a ∈ attrs w)).

(** A call to a collaborator: the request is recorded, then the collaborator
    runs on its own state. *)
Definition call {A} (ev : event) (f : Ext C -> result A * Ext C) : M World A :=
  fun w =>
    let '(r, x) := f (ext w) in
    (r, set_ext x (add_event ev w)).

Definition logger_info (m : LogMsg) : M World unit := modify (add_event (LoggerInfo m)).

Definition logger_scaler (name : string) (v : pyfloat) (step : Z) : M World unit :=
  modify (add_event (LoggerScalar name v step)).

(** [solver.model.eval()] and [solver.model.train()]. *)
Definition model_eval : M World unit :=
  modify (fun w => set_training false (add_event ModelEval w)).

Definition model_train : M World unit :=
  modify (fun w => set_training true (add_event ModelTrain w)).

(** [eval(solver, epoch_id)].  Not shown: [pretrained_model_path] is [None];
    the meters [eval_output_info] and [eval_time_info] only feed the text of
    the log line. *)
Definition eval (epoch_id : Z) : M World pyfloat :=
  has_cfg <- hasattr "cfg" ;;
  (if negb has_cfg then modify (add_attr "cfg") else ret tt) ;;
  has_step <- hasattr "global_step" ;;
  (if negb has_step then modify (add_attr "global_step") else ret tt) ;;
  model_eval ;;
  has_validator <- hasattr "validator" ;;
  (if negb has_validator
   then (call BuildValidator (build_validator C) ;; modify (add_attr "validator"))
   else ret tt) ;;
  result <- call (EvalFunc epoch_id) (eval_func C epoch_id) ;;
  logger_info (EvalAvg epoch_id) ;;
  model_train ;;
  ret result.

(** The test [eval_during_train and epoch_id % eval_freq == 0 and
    epoch_id >= start_eval_epoch], left to right. *)
Definition eval_due (hp : Hyper) (epoch_id : Z) : result bool :=
  if eval_during_train hp
  then (m <-- py_mod epoch_id (eval_freq hp) ;;;
        Ok ((m =? 0) && (start_eval_epoch hp <=? epoch_id)))
  else Ok false.

(** The test [save_freq > 0 and epoch_id % save_freq == 0]. *)
Definition save_due (hp : Hyper) (epoch_id : Z) : result bool :=
  if 0 <? save_freq hp
  then (m <-- py_mod epoch_id (save_freq hp) ;;; Ok (m =? 0))
  else Ok false.

(** The statement [if cur_metric < best_metric["metric"]: ...]: the two
    keys of the dict are assigned, then the dict is handed to
    [save_checkpoint]. *)
Definition track_best (epoch_id : Z) (cur_metric : pyfloat) : M World unit :=
  best <- gets best_metric ;;
  if flt cur_metric (metric best)
  then (modify (fun w => set_best (mkMetric cur_metric (epoch (best_metric w))) w) ;;
        modify (fun w => set_best (mkMetric (metric (best_metric w)) epoch_id) w) ;;
        best <- gets best_metric ;;
        call (SaveCheckpoint best "best_model") (save_checkpoint C best "best_model"))
  else ret tt.

(** One turn of [for epoch_id in range(1, epochs + 1)]. *)
Definition epoch_body (hp : Hyper) (epoch_id : Z) : M World unit :=
  call (TrainEpoch epoch_id) (train_epoch_func C epoch_id) ;;
  logger_info (TrainAvg epoch_id (epochs hp)) ;;
  let cur_metric := inf in
  do_eval <- lift (eval_due hp epoch_id) ;;
  cur_metric <-
    (if do_eval : bool
     then (cur_metric <- eval epoch_id ;;
           track_best epoch_id cur_metric ;;
           best <- gets best_metric ;;
           logger_info (EvalBest epoch_id (metric best)) ;;
           logger_scaler "eval_metric" cur_metric epoch_id ;;
           ret cur_metric)
     else ret cur_metric) ;;
  by_epoch <- gets (fun w => lr_by_epoch C (ext w)) ;;
  (if by_epoch : bool then call LrStep (lr_step C) else ret tt) ;;
  do_save <- lift (save_due hp epoch_id) ;;
  (if do_save : bool
   then (let m := mkMetric cur_metric epoch_id in
         let tag := "epoch_" +:+ pretty epoch_id in
         call (SaveCheckpoint m tag) (save_checkpoint C m tag))
   else ret tt) ;;
  let m := mkMetric cur_metric epoch_id in
  call (SaveCheckpoint m "latest") (save_checkpoint C m "latest").

(** [train(solver)], with the hyper-parameters as an argument.  Not shown:
    [pretrained_model_path] and [checkpoint_path] are [None], so nothing is
    loaded; [solver.train_mode] is [None], so the epoch function is always
    [train_epoch_func]; the meters only feed the text of the log line. *)
Definition train (hp : Hyper) : M World unit :=
  modify (add_attr "cfg") ;;
  modify (set_best (mkMetric inf 0)) ;;
  call BuildOptimizer (build_optimizer C) ;;
  call BuildConstraints (build_constraints C) ;;
  ws <- gets world_size ;;
  (if 1 <? ws then call FleetInit (fleet_init C) else ret tt) ;;
  modify (add_attr "global_step") ;;
  for_each (range1 (epochs hp)) (epoch_body hp) ;;
  vw <- gets vdl_writer ;;
  (if vw : bool then call VdlClose (vdl_close C) else ret tt).

End WithCollaborators.
Arguments World : clear implicits.

(** *** Reading a trace *)

(** Epochs at which the evaluation strategy was invoked. *)
Definition eval_epochs (tr : list event) : list Z :=
  omap (fun ev => match ev with EvalFunc e => Some e | _ => None end) tr.

(** Checkpoint writes requested, in order. *)
Definition saves (tr : list event) : list (string * MetricRecord) :=
  omap (fun ev => match ev with SaveCheckpoint m tag => Some (tag, m) | _ => None end) tr.

(** The records written under one tag. *)
Definition saved_as (tag : string) (tr : list event) : list MetricRecord :=
  omap (fun p => if String.eqb p.1 tag then Some p.2 else None) (saves tr).

(** [s.startswith(p)]. *)
Fixpoint starts_with (p s : string) : bool :=
  match p, s with
  | EmptyString, _ => true
  | String a p', String b s' => Ascii.eqb a b && starts_with p' s'
  | String _ _, EmptyString => false
  end.

(** The tags of the per-epoch checkpoints, ["epoch_N"]. *)
Definition epoch_tags (tr : list event) : list string :=
  List.filter (starts_with "epoch_") (map fst (saves tr)).

(** Each record of the list is strictly below the one before it, the first
    one strictly below [m0] (lower is better). *)
Fixpoint improving (m0 : MetricRecord) (bs : list MetricRecord) : Prop :=
  match bs with
  | [] => True
  | b :: bs' => flt (metric b) (metric m0) = true /\ improving b bs'
  end.

(** Number of [solver.model.train()] calls. *)
Definition mode_restores (tr : list event) : nat :=
  length (omap (fun ev => match ev with ModelTrain => Some tt | _ => None end) tr).

(** *** Collaborators that follow a script

    The state is the list of outcomes the evaluation strategy will produce,
    one per invocation; with none left it raises.  Every other collaborator
    succeeds and the schedule is stepped by epoch. *)
Definition scripted : Collaborators :=
  {| Ext := list (result pyfloat);
     build_optimizer := fun x => (Ok tt, x);
     build_constraints := fun x => (Ok tt, x);
     fleet_init := fun x => (Ok tt, x);
     train_epoch_func := fun _ x => (Ok tt, x);
     build_validator := fun x => (Ok tt, x);
     eval_func := fun _ x =>
       match x with
       | r :: x' => (r, x')
       | [] => (Raise (RuntimeError "evaluation failed"), [])
       end;
     save_checkpoint := fun _ _ x => (Ok tt, x);
     lr_by_epoch := fun _ => true;
     lr_step := fun x => (Ok tt, x);
     vdl_close := fun x => (Ok tt, x) |}.

(** A fresh session as [__main__] sets it up: model in training mode, no
    writer, one process. *)
Definition fresh (script : list (result pyfloat)) : World scripted :=
  mkWorld (C := scripted) script true ∅ 1 false (mkMetric inf 0) [].

End Viv.

(* ===================================================================== *)
(** ** ppsci/arch/__init__.py                                            *)
(* ===================================================================== *)
Module Arch.

Definition loc : Type := nat.

(** A configuration value: an atom, or a reference to a container in the
    store. *)
Inductive value :=
| VNone
| VBool (b : bool)
| VInt (z : Z)
| VFloat (f : pyfloat)
| VStr (s : string)
| VRef (l : loc).

(** The mutable containers of a configuration: dicts with string keys (in
    insertion order) and lists. *)
Inductive obj :=
| ODict (items : list (string * value))
| OList (elems : list value).

Abbreviation heap := (gmap loc obj).

Definition children (o : obj) : list value :=
  match o with
  | ODict items => items.*2
  | OList elems => elems
  end.

(** An empty container of the same kind, and the same container with its
    values replaced. *)
Definition blank (o : obj) : obj :=
  match o with
  | ODict _ => ODict []
  | OList _ => OList []
  end.

Definition rebuild (o : obj) (vs : list value) : obj :=
  match o with
  | ODict items => ODict (zip items.*1 vs)
  | OList _ => OList vs
  end.

(** Copies the values of a list in order, threading the store and the memo. *)
Fixpoint copy_all {S} (f : value -> M S value) (vs : list value) : M S (list value) :=
  match vs with
  | [] => ret []
  | v :: vs' =>
      v' <- f v ;;
      vs'' <- copy_all f vs' ;;
      ret (v' :: vs'')
  end.

(** [copy.deepcopy(x, memo)], on the store and the memo.  An atom is
    returned as it is.  A container met for the first time gets a new, empty
    container, which is entered in the memo before the values are copied
    into it; a container met again is answered from the memo.  [depth] is
    the room left on the interpreter's stack: the descent into a container
    takes one unit, and with none left Python raises [RecursionError]. *)
Fixpoint deepcopy (depth : nat) (x : value) : M (heap * gmap loc loc) value :=
  match x with
  | VRef l =>
      fun st =>
        match st.2 !! l with
        | Some y => (Ok (VRef y), st)
        | None =>
            match depth with
            | O => (Raise (RecursionError "maximum recursion depth exceeded"), st)
            | S depth' =>
                match st.1 !! l with
                | None => (Raise (ReferenceError "no such object"), st)
                | Some o =>
                    let y := fresh (dom st.1) in
                    let st1 := (<[y := blank o]> st.1, <[l := y]> st.2) in
                    match copy_all (deepcopy depth') (children o) st1 with
                    | (Ok vs, st2) => (Ok (VRef y), (<[y := rebuild o vs]> st2.1, st2.2))
                    | (Raise e, st2) => (Raise e, st2)
                    end
                end
            end
        end
  | _ => ret x
  end.

(** First binding of a key, and the items without that key. *)
Fixpoint assoc (key : string) (items : list (string * value)) : option value :=
  match items with
  | [] => None
  | (k, v) :: items' => if String.eqb k key then Some v else assoc key items'
  end.

Fixpoint remove_key (key : string) (items : list (string * value)) : list (string * value) :=
  match items with
  | [] => []
  | (k, v) :: items' =>
      if String.eqb k key then remove_key key items' else (k, v) :: remove_key key items'
  end.

(** What [eval(source)] gives in the scope of [build_model], for each
    string: the exception that evaluating the text raises ([SyntaxError]
    when it is no expression, [NameError] at an unknown name, ...), or the
    object that the expression denotes, given by what calling it with
    keyword arguments does.  That object need not be a class, and calling
    one that is not callable raises [TypeError]; a call may read and write
    the store, and what it returns is carried as a [Layer]. *)
Record Registry := mkRegistry {
  Layer : Type;
  evaluate :
    string -> result (list (string * value) -> heap -> result Layer * heap)
}.

Section WithRegistry.
Context {G : Registry}.

Record World := mkWorld {
  store : heap;
  debug_log : list (Layer G)
}.

Definition set_store (h : heap) (w : World) : World := mkWorld h (debug_log w).

(** [d.pop(key)]. *)
Definition pop (d : value) (key : string) : M World value :=
  match d with
  | VRef l =>
      fun w =>
        match store w !! l with
        | Some (ODict items) =>
            match assoc key items with
            | Some v => (Ok v, set_store (<[l := ODict (remove_key key items)]> (store w)) w)
            | None => (Raise (KeyError key), w)
            end
        | Some (OList _) =>
            (Raise (TypeError "'str' object cannot be interpreted as an integer"), w)
        | None => (Raise (ReferenceError "no such object"), w)
        end
  | _ => raise (AttributeError "object has no attribute 'pop'")
  end.

(** [eval(arch_cls)]: a string is evaluated as an expression; anything
    else in its place is refused. *)
Definition py_eval (source : value)
  : M World (list (string * value) -> heap -> result (Layer G) * heap) :=
  match source with
  | VStr text => lift (evaluate G text)
  | _ => raise (TypeError "eval() arg 1 must be a string, bytes or code object")
  end.

(** The call of the class with [cfg] unpacked: the items of the dict become
    the keyword arguments. *)
Definition call_with_kwargs
  (cls : list (string * value) -> heap -> result (Layer G) * heap) (cfg : value)
  : M World (Layer G) :=
  match cfg with
  | VRef l =>
      fun w =>
        match store w !! l with
        | Some (ODict items) =>
            let '(r, h) := cls items (store w) in
            (r, set_store h w)
        | _ => (Raise (TypeError "argument after ** must be a mapping"), w)
        end
  | _ => raise (TypeError "argument after ** must be a mapping")
  end.

Definition logger_debug (arch : Layer G) : M World unit :=
  modify (fun w => mkWorld (store w) (debug_log w ++ [arch])).

(** [build_model(cfg)], run with [depth] units of stack. *)
Definition build_model (depth : nat) (cfg : value) : M World (Layer G) :=
  fun w =>
    match deepcopy depth cfg (store w, ∅) with
    | (Raise e, (h, _)) => (Raise e, set_store h w)
    | (Ok cfg, (h, _)) =>
        (arch_cls <- pop cfg "name" ;;
         cls <- py_eval arch_cls ;;
         arch <- call_with_kwargs cls cfg ;;
         logger_debug arch ;;
         ret arch) (set_store h w)
    end.

End WithRegistry.
Arguments World : clear implicits.

(** *** Stores without dangling references, and constructors that keep to
    their arguments *)

Definition val_in (F : loc -> Prop) (v : value) : Prop :=
  match v with
  | VRef l => F l
  | _ => True
  end.

(** Every reference held by an object of [F] stays in [F]. *)
Definition closed (F : loc -> Prop) (h : heap) : Prop :=
  forall l o, F l -> h !! l = Some o -> Forall (val_in F) (children o).

(** No reference of the store leads nowhere. *)
Definition well_formed (h : heap) : Prop := closed (fun l => is_Some (h !! l)) h.

(** Locations that the memo of a copy has handed out. *)
Definition img (memo : gmap loc loc) (y : loc) : Prop :=
  exists k, memo !! k = Some y.

(** What holds of the store and the memo while [deepcopy] copies out of
    [h0]: the objects of [h0] are all there, as they were; the copies are
    outside [h0], exist, and refer to copies only. *)
Definition copying (h0 : heap) (st : heap * gmap loc loc) : Prop :=
  h0 ⊆ st.1 /\
  (forall y, img st.2 y -> h0 !! y = None /\ is_Some (st.1 !! y)) /\
  closed (img st.2) st.1.

(** A constructor changes, among the objects that exist when it is called,
    only those it can reach from its arguments. *)
Definition confined (G : Registry) : Prop :=
  forall name cls kwargs h r h' (F : loc -> Prop),
    evaluate G name = Ok cls ->
    cls kwargs h = (r, h') ->
    closed F h ->
    Forall (val_in F) kwargs.*2 ->
    forall l o, ~ F l -> h !! l = Some o -> h' !! l = Some o.

(** *** A registry to run [build_model]

    One class, "MLP": its constructor keeps its keyword arguments as the
    layer and, when given a list under "input_keys", appends a marker to
    that list.  Besides it the built-in [dict], which returns its keyword
    arguments, the module [copy], which is not callable, and a text that is
    no expression. *)
Definition mlp_init (kwargs : list (string * value)) (h : heap)
  : result (list (string * value)) * heap :=
  match assoc "input_keys" kwargs with
  | Some (VRef l) =>
      match h !! l with
      | Some (OList elems) => (Ok kwargs, <[l := OList (elems ++ [VStr "seen"])]> h)
      | _ => (Ok kwargs, h)
      end
  | _ => (Ok kwargs, h)
  end.

Definition demo_registry : Registry :=
  {| Layer := list (string * value);
     evaluate := fun text =>
       if String.eqb text "MLP" || String.eqb text " MLP" then Ok mlp_init
       else if String.eqb text "dict" then Ok (fun kwargs h => (Ok kwargs, h))
       else if String.eqb text "copy"
       then Ok (fun _ h => (Raise (TypeError "'module' object is not callable"), h))
       else if String.eqb text "1+" then Raise (SyntaxError "invalid syntax")
       else Raise (NameError text) |}.

(** [{"name": "MLP", "input_keys": ["t_f"], "num_layers": 5}] at location 0,
    its list at location 1. *)
Definition demo_store : heap :=
  {[ 0%nat := ODict [("name", VStr "MLP"); ("input_keys", VRef 1%nat); ("num_layers", VInt 5)];
     1%nat := OList [VStr "t_f"] ]}.

Definition demo_world : World demo_registry :=
  mkWorld (G := demo_registry) demo_store [].

End Arch.

(* ===================================================================== *)
(** ** ppsci/utils/initializer.py, continued: the Kaiming pair and the
       layer initializers                                                *)
(* ===================================================================== *)
Module InitializerKaiming.
Import Initializer.

(** [str.lower] on ASCII text: the letters A to Z move to a to z and every
    other character stays. *)
Definition lower_char (c : Ascii.ascii) : Ascii.ascii :=
  let n := Ascii.nat_of_ascii c in
  if (65 <=? n)%nat && (n <=? 90)%nat then Ascii.ascii_of_nat (n + 32) else c.

Fixpoint lower (s : string) : string :=
  match s with
  | EmptyString => EmptyString
  | String c s' => String (lower_char c) (lower s')
  end.

(** [x in xs] on a list of strings. *)
Definition str_in (x : string) (xs : list string) : bool :=
  existsb (String.eqb x) xs.

Definition valid_modes : list string := ["fan_in"; "fan_out"].

Definition mode_error (mode : string) : exn :=
  ValueError ("Mode " +:+ mode +:+
              " not supported, please use one of ['fan_in', 'fan_out']").

(** The argument [param] of [_calculate_gain] by its Python type; a value of
    any other type is kept as the text an f-string shows for it. *)
Inductive Param :=
| ParamNone
| ParamBool (b : bool)
| ParamInt (z : Z)
| ParamFloat (f : pyfloat)
| ParamOther (shown : string).

Definition linear_fns : list string :=
  ["linear"; "conv1d"; "conv2d"; "conv3d";
   "conv_transpose1d"; "conv_transpose2d"; "conv_transpose3d"].

Definition slope_error (shown : string) : exn :=
  ValueError ("negative_slope " +:+ shown +:+ " not a valid number").

Definition nonlinearity_error (nonlinearity : string) : exn :=
  ValueError ("Unsupported nonlinearity " +:+ nonlinearity).

(** The literals [0.01], [5.0 / 3] and [3.0 / 4]. *)
Definition f0_01 : pyfloat :=
  Eval vm_compute in SFdiv prec emax (float_of_Z 1) (float_of_Z 100).
Definition five_thirds : pyfloat :=
  Eval vm_compute in SFdiv prec emax (float_of_Z 5) (float_of_Z 3).
Definition three_quarters : pyfloat :=
  Eval vm_compute in SFdiv prec emax (float_of_Z 3) (float_of_Z 4).

(** A Python number used as a float operand: an int is converted, and the
    conversion raises when the int is too large. *)
Definition num_as_float (v : pynum) : result pyfloat :=
  match v with
  | NumInt z => py_float (PyInt z)
  | NumFloat f => Ok f
  end.

(** A layer with a [weight] and an optional [bias] ([None] when absent). *)
Record Layer := mkLayer {
  weight : loc;
  bias : option loc
}.

Section WithRuntime.
Context {R : Runtime}.

(** The C library's [pow], which Python's float power calls: the value it
    returns and whether it reports a range error. *)
Variable libm_pow : pyfloat -> pyfloat -> pyfloat * bool.

(** [x ** 2] on a float.  NaN, the infinities, the zeros and a base of
    magnitude one are answered without calling [pow]; otherwise [pow] gets
    the magnitude of the base, and a range error is raised when its result
    is infinite, or when [pow] reports one with a non-zero result. *)
Definition float_square (x : pyfloat) : result pyfloat :=
  match x with
  | S754_nan => Ok S754_nan
  | S754_infinity _ => Ok inf
  | S754_zero _ => Ok fzero
  | S754_finite _ m e =>
      let iv := S754_finite false m e in
      if feq iv fone then Ok fone
      else
        let '(ix, erange) := libm_pow iv ftwo in
        let erange := if erange then negb (feq ix fzero) else is_inf ix in
        if erange then Raise (OverflowError "(34, 'Numerical result out of range')")
        else Ok ix
  end.

Definition _calculate_correct_fan (tensor : loc) (mode : string) (reverse : bool)
  : M (World R) pyint :=
  let mode := lower mode in
  if negb (str_in mode valid_modes) then raise (mode_error mode)
  else
    fans <- _calculate_fan_in_and_fan_out tensor reverse ;;
    let '(fan_in, fan_out) := fans in
    ret (if String.eqb mode "fan_in" then fan_in else fan_out).

(** [math.sqrt(2.0 / (1 + negative_slope**2))]. *)
Definition leaky_relu_gain (negative_slope : pynum) : result pyfloat :=
  d <-- match negative_slope with
        | NumInt n => py_float (PyInt (1 + n * n))
        | NumFloat x => s <-- float_square x ;;; Ok (fadd fone s)
        end ;;;
  q <-- py_truediv ftwo d ;;;
  math_sqrt q.

Definition _calculate_gain (nonlinearity : string) (param : Param) : result pynum :=
  if str_in nonlinearity linear_fns || String.eqb nonlinearity "sigmoid"
  then Ok (NumInt 1)
  else if String.eqb nonlinearity "tanh" then Ok (NumFloat five_thirds)
  else if String.eqb nonlinearity "relu"
  then g <-- math_sqrt ftwo ;;; Ok (NumFloat g)
  else if String.eqb nonlinearity "leaky_relu" then
    negative_slope <--
      match param with
      | ParamNone => Ok (NumFloat f0_01)
      | ParamInt z => Ok (NumInt z)
      | ParamFloat f => Ok (NumFloat f)
      | ParamBool b => Raise (slope_error (if b then "True" else "False"))
      | ParamOther shown => Raise (slope_error shown)
      end ;;;
    g <-- leaky_relu_gain negative_slope ;;;
    Ok (NumFloat g)
  else if String.eqb nonlinearity "selu" then Ok (NumFloat three_quarters)
  else Raise (nonlinearity_error nonlinearity).

(** [gain / math.sqrt(fan)]. *)
Definition kaiming_std (gain : pynum) (fan : pyint) : result pyfloat :=
  n <-- py_float fan ;;;
  s <-- math_sqrt n ;;;
  g <-- num_as_float gain ;;;
  py_truediv g s.

Definition kaiming_uniform_ (tensor : loc) (a : Param) (mode nonlinearity : string)
    (reverse : bool) : M (World R) loc :=
  fan <- _calculate_correct_fan tensor mode reverse ;;
  gain <- lift (_calculate_gain nonlinearity a) ;;
  std <- lift (kaiming_std gain fan) ;;
  k <- lift (s <-- math_sqrt fthree ;;; Ok (fmul s std)) ;;
  _no_grad_uniform_ tensor (fneg k) k.

Definition kaiming_normal_ (tensor : loc) (a : Param) (mode nonlinearity : string)
    (reverse : bool) : M (World R) loc :=
  fan <- _calculate_correct_fan tensor mode reverse ;;
  gain <- lift (_calculate_gain nonlinearity a) ;;
  std <- lift (kaiming_std gain fan) ;;
  _no_grad_normal_ tensor (float_of_Z 0) std.

(** [if module.bias is not None: uniform_(module.bias, -bound, bound)]. *)
Definition init_bias (module : Layer) (bound : pyfloat) : M (World R) unit :=
  match bias module with
  | Some b => uniform_ b (fneg bound) bound ;; ret tt
  | None => ret tt
  end.

Definition linear_init_ (module : Layer) : M (World R) unit :=
  W <- get_tensor (weight module) ;;
  d0 <- shape_at W 0 ;;
  bound <- lift (n <-- py_float (PyInt d0) ;;;
                 s <-- math_sqrt n ;;;
                 py_truediv fone s) ;;
  uniform_ (weight module) (fneg bound) bound ;;
  init_bias module bound.

(** [np.sqrt] of a NumPy integer scalar: a float64, NaN below zero, never an
    exception.  ([np.prod] of an empty slice is the float 1.0, whose root is
    that of the integer 1.) *)
Definition np_sqrt (n : pyint) : pyfloat := SFsqrt prec emax (float_of_Z (int_val n)).

(** [1 / x] for a NumPy float64 [x]: IEEE division, infinite on a zero
    divisor, never an exception. *)
Definition np_reciprocal (x : pyfloat) : pyfloat := SFdiv prec emax fone x.

Definition conv_init_ (module : Layer) : M (World R) unit :=
  W <- get_tensor (weight module) ;;
  let bound := np_reciprocal (np_sqrt (np_prod (drop 1 (shape W)))) in
  uniform_ (weight module) (fneg bound) bound ;;
  init_bias module bound.

(** What every initializer guarantees about the store, whether it returns
    or raises: the gradient mode is as before, no other tensor is touched,
    the tensor keeps its shape and dtype, the very tensor is returned, and
    a raise leaves every buffer as it was.  (The random source may have
    been read by then: a draw that [set_value] refuses is lost.) *)
Definition kept (w : World R) (t : loc) (r : result loc) (w' : World R) : Prop :=
  grad_enabled w' = grad_enabled w /\
  (forall t', t' <> t -> tensors w' !! t' = tensors w !! t') /\
  shape <$> tensors w' !! t = shape <$> tensors w !! t /\
  dtype <$> tensors w' !! t = dtype <$> tensors w !! t /\
  (forall x, r = Ok x -> x = t) /\
  (forall e, r = Raise e -> tensors w' = tensors w).

Definition contract (t : loc) (c : M (World R) loc) : Prop :=
  forall w r w', c w = (r, w') -> kept w t r w'.

(** A computation that only reads the store. *)
Definition reads_only {A} (c : M (World R) A) : Prop :=
  forall w, snd (c w) = w.

(** The outcome [(r, w')] of a layer initializer run from [w]: [weight] is
    handed a draw from U(-bound, bound) of its shape and dtype, and then,
    when that went through and there is a [bias], the bias is handed the
    next draw of its own shape and dtype; the first exception of a sampler
    or of [set_value] ends the call. *)
Definition layer_filled (w : World R) (module : Layer) (W : Tensor) (bound : pyfloat)
    (r : result unit) (w' : World R) : Prop :=
  let first :=
    handed w (weight module) W
      (paddle_uniform R (shape W) (dtype W) (fneg bound) bound (rng w)) in
  match first.1, bias module with
  | Raise e, _ => r = Raise e /\ w' = first.2
  | Ok _, None => r = Ok tt /\ w' = first.2
  | Ok _, Some b =>
      forall B, tensors first.2 !! b = Some B ->
        let second :=
          handed first.2 b B
            (paddle_uniform R (shape B) (dtype B) (fneg bound) bound (rng first.2)) in
        r = (_ <-- second.1 ;;; Ok tt) /\ w' = second.2
  end.

End WithRuntime.

(** A stand-in for [pow] that squares its first argument; the initializers
    only ever raise to the power 2. *)
Definition stub_pow (x _ : pyfloat) : pyfloat * bool := (fmul x x, false).

(** A linear layer of 4 inputs and 3 outputs: its weight of shape [4; 3] at
    location 0 and its bias of shape [3] at location 1. *)
Definition linear_layer : Layer := mkLayer 0%nat (Some 1%nat).

Definition layer_world : World stub_runtime :=
  mkWorld (R := stub_runtime)
    {[ 0%nat := empty_buffer [4; 3]; 1%nat := empty_buffer [3] ]} 0 true [].

End InitializerKaiming.

(* ===================================================================== *)
(** ** examples/fsi/viv.py, continued: more readings of a trace          *)
(* ===================================================================== *)
Module VivCalls.
Import Viv.

(** Epochs for which the training strategy was invoked. *)
Definition trained_epochs (tr : list event) : list Z :=
  omap (fun ev => match ev with TrainEpoch e => Some e | _ => None end) tr.

(** Number of times the validators were built. *)
Definition validator_builds (tr : list event) : nat :=
  length (omap (fun ev => match ev with BuildValidator => Some tt | _ => None end) tr).

(** The checkpoints written at the end of an epoch: every write under a tag
    other than ["best_model"]. *)
Definition epoch_saves (tr : list event) : list (string * MetricRecord) :=
  List.filter (fun p => negb (String.eqb p.1 "best_model")) (saves tr).

(** What the two end-of-epoch writes of epoch [e] hold: the metric that
    [eval] returned in that epoch, or [inf] when no evaluation was due. *)
Definition epoch_record (C : Collaborators) (hp : Hyper) (m : MetricRecord) : Prop :=
  (eval_due hp (epoch m) = Ok false /\ metric m = inf) \/
  (eval_due hp (epoch m) = Ok true /\
   exists x x', eval_func C (epoch m) x = (Ok (metric m), x')).

(** The writes at the end of the epochs of [recs], in order: the
    ["epoch_N"] checkpoint when one is due, then ["latest"], both with the
    record of that epoch. *)
Definition end_of_epoch_writes (hp : Hyper) (recs : list MetricRecord)
  : list (string * MetricRecord) :=
  concat (map (fun m =>
                 (match save_due hp (epoch m) with
                  | Ok true => [("epoch_" +:+ pretty (epoch m), m)]
                  | _ => []
                  end) ++ [("latest", m)]) recs).

(** Hyper-parameters under which checkpoints and evaluations fall on the
    same epochs: evaluation is on, from the first epoch, at the frequency of
    the checkpoints. *)
Definition aligned (hp : Hyper) : Prop :=
  eval_during_train hp = true /\
  (0 < eval_freq hp) /\
  save_freq hp = eval_freq hp /\
  (start_eval_epoch hp <= 1).

End VivCalls.

(* ===================================================================== *)
(** ** ppsci/arch/__init__.py, continued: what a copy looks like         *)
(* ===================================================================== *)
Module ArchCopies.
Import Arch.

(** The copy of a value, seen from outside: an atom is itself, a container
    is again a reference to a container. *)
Definition copy_of_value (v v' : value) : Prop :=
  match v with
  | VRef _ => exists y, v' = VRef y
  | _ => v' = v
  end.



(** What the memo says of a copied value once the copy is over. *)
Definition in_memo (memo : gmap loc loc) (v v' : value) : Prop :=
  forall k, v = VRef k -> exists y, v' = VRef y /\ memo !! k = Some y.

(** A list at location 0 that holds the list at location 1 twice and then
    itself. *)
Definition shared_store : heap :=
  {[ 0%nat := OList [VRef 1%nat; VRef 1%nat; VRef 0%nat];
     1%nat := OList [VInt 1] ]}.

(** [{"name": text, "num_layers": 5}] at location 0. *)
Definition named_world (text : string) : World demo_registry :=
  mkWorld (G := demo_registry)
    {[ 0%nat := ODict [("name", VStr text); ("num_layers", VInt 5)] ]} [].

End ArchCopies.

(* ===================================================================== *)
(** ** tests/models/configtrans.py                                       *)
(* ===================================================================== *)
Module ConfigTrans.

(** *** [YamlLoader] *)

(** A YAML document as [yaml.load] returns it; the keys of a mapping are
    strings, in the order of the file. *)
#[warnings="-register-all"]
Inductive yaml :=
| YNone
| YBool (b : bool)
| YInt (z : Z)
| YFloat (f : pyfloat)
| YStr (s : string)
| YSeq (items : list yaml)
| YMap (items : list (string * yaml)).

Definition type_name (y : yaml) : string :=
  match y with
  | YNone => "NoneType"
  | YBool _ => "bool"
  | YInt _ => "int"
  | YFloat _ => "float"
  | YStr _ => "str"
  | YSeq _ => "list"
  | YMap _ => "dict"
  end.

(** [len(y)]. *)
Definition py_len (y : yaml) : result Z :=
  match y with
  | YSeq items => Ok (Z.of_nat (length items))
  | YMap items => Ok (Z.of_nat (length items))
  | YStr s => Ok (Z.of_nat (String.length s))
  | _ => Raise (TypeError ("object of type '" +:+ type_name y +:+ "' has no len()"))
  end.

(** [xs[n]] on a sequence of length [len]: a negative index counts from the
    end. *)
Definition seq_index (len n : Z) : option nat :=
  let i := if n <? 0 then n + len else n in
  if (i <? 0) || (len <=? i) then None else Some (Z.to_nat i).

(** [y[n]] for an int [n]. *)
Definition getitem (y : yaml) (n : Z) : result yaml :=
  match y with
  | YSeq items =>
      match seq_index (Z.of_nat (length items)) n with
      | Some i => match items !! i with
                  | Some c => Ok c
                  | None => Raise (IndexError "list index out of range")
                  end
      | None => Raise (IndexError "list index out of range")
      end
  | YMap _ => Raise (KeyError (pretty n))
  | YStr s =>
      match seq_index (Z.of_nat (String.length s)) n with
      | Some i => match String.get i s with
                  | Some c => Ok (YStr (String c EmptyString))
                  | None => Raise (IndexError "string index out of range")
                  end
      | None => Raise (IndexError "string index out of range")
      end
  | _ => Raise (TypeError ("'" +:+ type_name y +:+ "' object is not subscriptable"))
  end.

Fixpoint lookup_key (key : string) (items : list (string * yaml)) : option yaml :=
  match items with
  | [] => None
  | (k, v) :: items' => if String.eqb k key then Some v else lookup_key key items'
  end.

(** [y.get(key)]: [None] for a key that is not there. *)
Definition get (y : yaml) (key : string) : result yaml :=
  match y with
  | YMap items => Ok (default YNone (lookup_key key items))
  | _ => Raise (AttributeError ("'" +:+ type_name y +:+ "' object has no attribute 'get'"))
  end.

Definition dquote : string := String (Ascii.ascii_of_nat 34) EmptyString.

(** [y + suffix] for a string [suffix]. *)
Definition add_str (y : yaml) (suffix : string) : result yaml :=
  match y with
  | YStr s => Ok (YStr (s +:+ suffix))
  | YSeq _ =>
      Raise (TypeError ("can only concatenate list (not " +:+ dquote +:+ "str" +:+ dquote
                        +:+ ") to list"))
  | _ =>
      Raise (TypeError ("unsupported operand type(s) for +: '" +:+ type_name y
                        +:+ "' and 'str'"))
  end.

Record YamlLoader := mkYamlLoader {
  yml : yaml;
  case_num : Z
}.

(** [YamlLoader(path)], given what opening and parsing the file gives.  An
    exception of the load is printed and dropped; the attribute [yml] is
    then missing when its length is asked for. *)
Definition init (loaded : result yaml) : list exn * result YamlLoader :=
  match loaded with
  | Ok y => ([], n <-- py_len y ;;; Ok (mkYamlLoader y n))
  | Raise e =>
      ([e], Raise (AttributeError "'YamlLoader' object has no attribute 'yml'"))
  end.

Definition _get_py_dir (self : YamlLoader) (n : Z) : result yaml :=
  c <-- getitem (yml self) n ;;;
  get c "Dir".

Definition get_case (self : YamlLoader) (i : Z) : result (Z * yaml) :=
  py_dir <-- _get_py_dir self i ;;;
  Ok (i, py_dir).

(** The generator [get_all_case], run to its end: what it yields, and the
    exception that ends it early, if any. *)
Fixpoint yield_cases (self : YamlLoader) (indices : list Z)
  : list (Z * yaml) * option exn :=
  match indices with
  | [] => ([], None)
  | i :: rest =>
      match _get_py_dir self i with
      | Raise e => ([], Some e)
      | Ok py_dir =>
          let '(ys, e) := yield_cases self rest in
          ((i, py_dir) :: ys, e)
      end
  end.

Definition get_all_case (self : YamlLoader) : list (Z * yaml) * option exn :=
  yield_cases self (seqZ 0 (case_num self)).

(** A case that is a mapping, what [.get("Dir")] gives on it, and the pairs
    of the cases [cs] numbered from [j]. *)
Definition is_map (c : yaml) : bool :=
  match c with
  | YMap _ => true
  | _ => false
  end.

Definition case_dir (c : yaml) : yaml :=
  match c with
  | YMap items => default YNone (lookup_key "Dir" items)
  | _ => YNone
  end.

Fixpoint numbered (j : Z) (cs : list yaml) : list (Z * yaml) :=
  match cs with
  | [] => []
  | c :: cs' => (j, case_dir c) :: numbered (j + 1) cs'
  end.

Definition no_get (c : yaml) : exn :=
  AttributeError ("'" +:+ type_name c +:+ "' object has no attribute 'get'").

Definition get_solution_dir (self : YamlLoader) (n : Z) : result (yaml * yaml) :=
  c <-- getitem (yml self) n ;;;
  pp <-- get c "Post-processing" ;;;
  f <-- get pp "solution_filename" ;;;
  name <-- add_str f "-t1-p0.npy" ;;;
  d <-- get pp "solution_save_dir" ;;;
  Ok (name, d).

Definition get_global_config (self : YamlLoader) (n : Z) : result (yaml * yaml) :=
  c <-- getitem (yml self) n ;;;
  gf <-- get c "Global" ;;;
  s <-- get gf "static_enable" ;;;
  p <-- get gf "prim_enable" ;;;
  Ok (s, p).

Definition get_docstring (self : YamlLoader) (n : Z) : result yaml :=
  c <-- getitem (yml self) n ;;;
  get c "docs".

(** A case file with two cases, the second without ["Dir"]. *)
Definition demo_cases : yaml :=
  YSeq [YMap [("Dir", YStr "examples/a.py");
              ("Post-processing",
               YMap [("solution_filename", YStr "out"); ("solution_save_dir", YStr "res")])];
        YMap [("docs", YStr "no script")]].

(** A case file whose second entry is the number 5. *)
Definition broken_cases : list yaml :=
  [YMap [("Dir", YStr "a")]; YInt 5; YMap [("Dir", YStr "b")]].

(** *** [compare] *)

(** What [compare] is given: a float64 array (shape and flat data), a
    float64 scalar of NumPy, a list, a tuple, a Python number, a bool,
    [None] or a string. *)
#[warnings="-register-all"]
Inductive pyval :=
| PArr (shape : list Z) (data : list pyfloat)
| PF64 (x : pyfloat)
| PList (items : list pyval)
| PTuple (items : list pyval)
| PNum (x : pynum)
| PBool (b : bool)
| PNone
| PStr (s : string).

Definition pyval_type (v : pyval) : string :=
  match v with
  | PArr _ _ => "numpy.ndarray"
  | PF64 _ => "numpy.float64"
  | PList _ => "list"
  | PTuple _ => "tuple"
  | PNum (NumInt _) => "int"
  | PNum (NumFloat _) => "float"
  | PBool _ => "bool"
  | PNone => "NoneType"
  | PStr _ => "str"
  end.

(** The outcome of a checking routine: it returns, an [assert] fails, or
    another exception comes out. *)
Inductive verdict :=
| Pass
| AssertionError
| Error (e : exn).

(** [v.shape]. *)
Definition shape_of (v : pyval) : result (list Z) :=
  match v with
  | PArr shape _ => Ok shape
  | PF64 _ => Ok []
  | _ => Raise (AttributeError ("'" +:+ pyval_type v +:+ "' object has no attribute 'shape'"))
  end.

(** [v[i]] for [i] counted from 0. *)
Definition item (v : pyval) (i : nat) : result pyval :=
  match v with
  | PList items =>
      match items !! i with
      | Some x => Ok x
      | None => Raise (IndexError "list index out of range")
      end
  | PTuple items =>
      match items !! i with
      | Some x => Ok x
      | None => Raise (IndexError "tuple index out of range")
      end
  | PArr [] _ =>
      Raise (IndexError
               "too many indices for array: array is 0-dimensional, but 1 were indexed")
  | PArr (d0 :: rest) data =>
      if d0 <=? Z.of_nat i
      then Raise (IndexError ("index " +:+ pretty (Z.of_nat i)
                              +:+ " is out of bounds for axis 0 with size " +:+ pretty d0))
      else
        let stride := Z.to_nat (fold_right Z.mul 1 rest) in
        match rest with
        | [] => match data !! i with
                | Some x => Ok (PF64 x)
                | None => Raise (IndexError "index out of bounds")
                end
        | _ => Ok (PArr rest (take stride (drop (i * stride) data)))
        end
  | PF64 _ => Raise (IndexError "invalid index to scalar variable.")
  | PStr s =>
      match String.get i s with
      | Some c => Ok (PStr (String c EmptyString))
      | None => Raise (IndexError "string index out of range")
      end
  | _ => Raise (TypeError ("'" +:+ pyval_type v +:+ "' object is not subscriptable"))
  end.

(** The two NumPy predicates that [compare] calls, with [equal_nan=True]. *)
Record NumPy := mkNumPy {
  np_allclose : pyval -> pyval -> pyfloat -> pyfloat -> result bool;
  np_array_equal : pyval -> pyval -> result bool
}.

(** [assert c]. *)
Definition py_assert (c : result bool) : verdict :=
  match c with
  | Ok true => Pass
  | Ok false => AssertionError
  | Raise e => Error e
  end.

Section WithNumPy.
Variable N : NumPy.

(** The two branches on [mode]; any other mode checks nothing.  (In the
    array branch [res.astype(expect.dtype)] leaves a float64 array as it
    is.) *)
Definition check_values (res expect : pyval) (delta rtol : pyfloat) (mode : string)
  : verdict :=
  if String.eqb mode "close" then py_assert (np_allclose N res expect delta rtol)
  else if String.eqb mode "equal" then py_assert (np_array_equal N res expect)
  else Pass.

Fixpoint compare (res expect : pyval) (delta rtol : pyfloat) (mode : string) : verdict :=
  let fix each (items : list pyval) (i : nat) : verdict :=
    match items with
    | [] => Pass
    | j :: rest =>
        match item expect i with
        | Raise e => Error e
        | Ok ei =>
            match compare j ei delta rtol mode with
            | Pass => each rest (S i)
            | v => v
            end
        end
    end in
  match res with
  | PArr shape _ =>
      match shape_of expect with
      | Raise e => Error e
      | Ok eshape =>
          if bool_decide (shape = eshape)
          then check_values res expect delta rtol mode
          else AssertionError
      end
  | PList items | PTuple items => each items 0%nat
  | PF64 _ | PNum _ | PBool _ => check_values res expect delta rtol mode
  | PNone | PStr _ => Pass
  end.

(** The loop of the sequence branch, from position [i] on. *)
Fixpoint compare_from (items : list pyval) (expect : pyval) (i : nat)
    (delta rtol : pyfloat) (mode : string) : verdict :=
  match items with
  | [] => Pass
  | j :: rest =>
      match item expect i with
      | Raise e => Error e
      | Ok ei =>
          match compare j ei delta rtol mode with
          | Pass => compare_from rest expect (S i) delta rtol mode
          | v => v
          end
      end
  end.

End WithNumPy.

(** [isinstance(v, (int, float, complex, bool))]. *)
Definition is_scalar (v : pyval) : bool :=
  match v with
  | PF64 _ | PNum _ | PBool _ => true
  | _ => false
  end.

(** A NumPy that compares scalars exactly and knows nothing else. *)
Definition exact_numpy : NumPy :=
  {| np_allclose := fun a b _ _ =>
       match a, b with
       | PNum (NumFloat x), PNum (NumFloat y) => Ok (feq x y)
       | _, _ => Raise (TypeError "unsupported")
       end;
     np_array_equal := fun a b =>
       match a, b with
       | PNum (NumFloat x), PNum (NumFloat y) => Ok (feq x y)
       | _, _ => Raise (TypeError "unsupported")
       end |}.

End ConfigTrans.

(* ===================================================================== *)
(** * Part II: properties                                                 *)
(* ===================================================================== *)

(** ** Facts about binary64 *)
Section FloatFacts.

Lemma digits2_pos_bounds p :
  2 ^ (Z.pos (digits2_pos p) - 1) <= Z.pos p < 2 ^ Z.pos (digits2_pos p).
Proof.
  induction p as [p IH|p IH|]; cbn [digits2_pos].
  - rewrite Pos2Z.inj_succ.
    replace (Z.succ (Z.pos (digits2_pos p)) - 1)
      with (Z.succ (Z.pos (digits2_pos p) - 1)) by lia.
    rewrite !Z.pow_succ_r by lia. lia.
  - rewrite Pos2Z.inj_succ.
    replace (Z.succ (Z.pos (digits2_pos p)) - 1)
      with (Z.succ (Z.pos (digits2_pos p) - 1)) by lia.
    rewrite !Z.pow_succ_r by lia. lia.
  - cbn. lia.
Qed.

Lemma digits2_pos_le p k :
  0 <= k -> Z.pos p < 2 ^ k -> Z.pos (digits2_pos p) <= k.
Proof.
  intros Hk Hp. destruct (digits2_pos_bounds p) as [Hlo _].
  destruct (Z_le_gt_dec (Z.pos (digits2_pos p)) k) as [|Hgt]; [done|].
  exfalso.
  assert (2 ^ k <= 2 ^ (Z.pos (digits2_pos p) - 1))
    by (apply Z.pow_le_mono_r; lia).
  lia.
Qed.

Lemma digits2_pos_iter_xO p k :
  digits2_pos (Pos.iter xO p k) = (digits2_pos p + k)%positive.
Proof.
  induction k as [|k IH] using Pos.peano_ind.
  - cbn. lia.
  - rewrite Pos.iter_succ. cbn [digits2_pos]. rewrite IH. lia.
Qed.

(** An integer below 2^53 converts exactly, to a positive finite float. *)
Lemma float_of_Z_pos n :
  0 < n < 2 ^ 53 -> exists m e, float_of_Z n = S754_finite false m e.
Proof.
  intros [Hlo Hhi]. destruct n as [|p|p]; try lia.
  pose proof (digits2_pos_le p 53 ltac:(lia) Hhi) as Hd.
  unfold float_of_Z, binary_normalize, binary_round.
  set (d := digits2_pos p) in *.
  assert (Hf : fexp prec emax (Z.pos d + 0) = Z.pos d - 53).
  { unfold fexp, SpecFloat.emin, prec, emax. lia. }
  rewrite Hf. unfold shl_align.
  destruct (Z.pos d - 53 - 0) as [|q|q] eqn:Hq; try lia.
  - unfold binary_round_aux, shr_fexp. cbn [Zdigits2 shr_record_of_loc].
    fold d.
    replace (fexp prec emax (Z.pos d + 0) - 0) with 0 by (rewrite Hf; lia).
    cbn [shr shr_m loc_of_shr_record round_nearest_even Zdigits2 shr_record_of_loc].
    fold d.
    replace (fexp prec emax (Z.pos d + 0) - 0) with 0 by (rewrite Hf; lia).
    cbn [shr shr_m]. eauto.
  - unfold binary_round_aux, shr_fexp. cbn [Zdigits2 shr_record_of_loc].
    rewrite digits2_pos_iter_xO. fold d.
    assert (Hf2 : fexp prec emax (Z.pos (d + q) + (Z.pos d - 53)) - (Z.pos d - 53) = 0).
    { unfold fexp, SpecFloat.emin, prec, emax. lia. }
    rewrite Hf2.
    cbn [shr shr_m loc_of_shr_record round_nearest_even Zdigits2 shr_record_of_loc].
    rewrite digits2_pos_iter_xO. fold d. rewrite Hf2.
    cbn [shr shr_m].
    replace (Z.pos d - 53 <=? emax - prec) with true
      by (symmetry; apply Z.leb_le; unfold emax, prec; lia).
    eauto.
Qed.

(** Rounding keeps the sign: a result built with a clear sign bit is never
    below zero. *)
Lemma binary_round_aux_not_neg m e l :
  flt (binary_round_aux prec emax false m e l) fzero = false.
Proof.
  unfold binary_round_aux.
  destruct (shr_fexp prec emax m e l) as [mrs' e'].
  destruct (shr_fexp prec emax _ e' loc_Exact) as [mrs'' e''].
  destruct (shr_m mrs'') as [|q|q]; [reflexivity| |reflexivity].
  destruct (e'' <=? emax - prec); reflexivity.
Qed.

Lemma compare_cont_flip p q :
  PosDef.Pos.compare_cont Eq q p = CompOpp (PosDef.Pos.compare_cont Eq p q).
Proof. exact (eq_sym (Pos.compare_cont_antisym p q Eq)). Qed.

Lemma compare_cont_same p : PosDef.Pos.compare_cont Eq p p = Eq.
Proof. exact (Pos.compare_cont_refl p Eq). Qed.

Lemma SFcompare_antisym x y :
  SFcompare y x = option_map CompOpp (SFcompare x y).
Proof.
  destruct x as [sx|sx| |sx mx ex], y as [sy|sy| |sy my ey];
    try destruct sx; try destruct sy; try reflexivity; cbn.
  - rewrite (Z.compare_antisym ex ey).
    destruct (ex ?= ey); cbn; try reflexivity.
    now rewrite (compare_cont_flip mx my).
  - rewrite (Z.compare_antisym ex ey).
    destruct (ex ?= ey); cbn; try reflexivity.
    now rewrite (compare_cont_flip mx my).
Qed.

Lemma SFcompare_refl x : is_nan x = false -> SFcompare x x = Some Eq.
Proof.
  destruct x as [s|s| |s m e]; try destruct s; cbn; try done; intros _.
  - now rewrite Z.compare_refl, compare_cont_same.
  - now rewrite Z.compare_refl, compare_cont_same.
Qed.

Lemma fle_not_nan x y : fle x y = true -> is_nan x = false /\ is_nan y = false.
Proof. destruct x, y; cbn; try done. Qed.

Lemma fle_refl x : is_nan x = false -> fle x x = true.
Proof. intros H. unfold fle, SFleb. now rewrite SFcompare_refl. Qed.

(** Away from NaN, [not (x < y)] is [y <= x]. *)
Lemma flt_false_fle x y :
  is_nan x = false -> is_nan y = false -> flt x y = false -> fle y x = true.
Proof.
  intros Hx Hy. unfold flt, fle, SFltb, SFleb.
  rewrite (SFcompare_antisym x y).
  destruct (SFcompare x y) as [[]|] eqn:E; cbn; try done.
  destruct x, y; cbn in *; done.
Qed.

Ltac order_cases :=
  repeat match goal with
  | H : context [PosDef.Pos.compare_cont Eq ?p ?q] |- _ =>
      change (PosDef.Pos.compare_cont Eq p q) with (Pos.compare p q) in H
  | |- context [PosDef.Pos.compare_cont Eq ?p ?q] =>
      change (PosDef.Pos.compare_cont Eq p q) with (Pos.compare p q)
  | H : context [Z.compare ?a ?b] |- _ =>
      let E := fresh "E" in
      destruct (Z.compare_spec a b) as [E|E|E]; cbn in H; try discriminate H
  | H : context [Pos.compare ?a ?b] |- _ =>
      let E := fresh "E" in
      destruct (Pos.compare_spec a b) as [E|E|E]; cbn in H; try discriminate H
  | |- context [Z.compare ?a ?b] =>
      let E := fresh "E" in
      destruct (Z.compare_spec a b) as [E|E|E]; cbn
  | |- context [Pos.compare ?a ?b] =>
      let E := fresh "E" in
      destruct (Pos.compare_spec a b) as [E|E|E]; cbn
  end;
  try reflexivity; try discriminate; try lia.

Lemma flt_trans x y z : flt x y = true -> flt y z = true -> flt x z = true.
Proof.
  unfold flt, SFltb.
  destruct x as [sx|sx| |sx mx ex], y as [sy|sy| |sy my ey], z as [sz|sz| |sz mz ez];
    try destruct sx; try destruct sy; try destruct sz; cbn; try done;
    intros H1 H2; order_cases.
Qed.

Lemma flt_irrefl x : flt x x = false.
Proof.
  unfold flt, SFltb. destruct (is_nan x) eqn:E.
  - destruct x; done.
  - now rewrite SFcompare_refl.
Qed.

End FloatFacts.

(** ** The initializer library *)
Section InitializerFacts.
Import Initializer.
Context {R : Runtime}.
Implicit Types (w : World R) (t : loc) (T : Tensor).

Lemma get_tensor_run w t T :
  tensors w !! t = Some T -> get_tensor t w = (Ok T, w).
Proof. intros H. unfold get_tensor. now rewrite H. Qed.

Lemma rank_ge_2_shape T :
  2 <= ndim T -> exists d0 d1 rest, shape T = d0 :: d1 :: rest.
Proof.
  unfold ndim. destruct (shape T) as [|d0 [|d1 rest]]; cbn [length]; try lia; eauto.
Qed.

(** What [_calculate_fan_in_and_fan_out] returns on a shape of rank two or
    more; the store is left as it was. *)
Lemma fan_run w t T d0 d1 rest reverse :
  tensors w !! t = Some T ->
  shape T = d0 :: d1 :: rest ->
  _calculate_fan_in_and_fan_out t reverse w =
    (Ok (let rf := match rest with [] => PyInt 1 | _ => np_prod rest end in
         if reverse
         then (int_mul (PyInt d0) rf, int_mul (PyInt d1) rf)
         else (int_mul (PyInt d1) rf, int_mul (PyInt d0) rf)), w).
Proof.
  intros Ht Hs. unfold _calculate_fan_in_and_fan_out, bind.
  rewrite (get_tensor_run _ _ _ Ht).
  unfold ndim, shape_at. rewrite Hs. cbn [length drop lookup list_lookup].
  replace (Z.of_nat (S (S (length rest))) <? 2) with false
    by (symmetry; apply Z.ltb_ge; lia).
  destruct rest as [|d2 rest'].
  - destruct reverse; reflexivity.
  - replace (2 <? Z.of_nat (S (S (length (d2 :: rest'))))) with true
      by (symmetry; apply Z.ltb_lt; cbn [length]; lia).
    destruct reverse; reflexivity.
Qed.

Lemma wrap64_id z : - 2 ^ 63 <= z < 2 ^ 63 -> wrap64 z = z.
Proof. intros H. unfold wrap64. rewrite Z.mod_small; lia. Qed.

Lemma numel_pos s : Forall (fun d => 0 < d) s -> 0 < numel s.
Proof.
  induction 1 as [|d s Hd _ IH]; cbn [numel fold_right]; [lia|].
  fold (numel s). nia.
Qed.

(** While the running product stays below 2^63, [np.prod] does not wrap. *)
Lemma np_prod_fold s acc :
  Forall (fun d => 0 < d) s -> 0 < acc -> acc * numel s < 2 ^ 63 ->
  fold_left (fun a d => wrap64 (a * d)) s acc = acc * numel s.
Proof.
  intros Hs. revert acc.
  induction Hs as [|d s Hd Hs IH]; intros acc Hacc Hb; cbn [fold_left numel fold_right].
  - lia.
  - fold (numel s) in *. pose proof (numel_pos s Hs) as Hn.
    cbn [numel fold_right] in Hb. fold (numel s) in Hb.
    rewrite wrap64_id by nia. rewrite IH by nia. lia.
Qed.

Lemma np_prod_exact s :
  Forall (fun d => 0 < d) s -> numel s < 2 ^ 63 ->
  int_val (np_prod s) = numel s.
Proof.
  intros Hs Hb. unfold np_prod. cbn [int_val].
  rewrite np_prod_fold by (try done; lia). lia.
Qed.

(** Value of [n * receptive_field_size] when nothing wraps. *)
Lemma fan_value d rest :
  Forall (fun x => 0 < x) rest -> 0 <= d -> d * numel rest < 2 ^ 63 ->
  int_val (int_mul (PyInt d) (match rest with [] => PyInt 1 | _ => np_prod rest end))
  = d * numel rest.
Proof.
  intros Hs Hd Hb. pose proof (numel_pos rest Hs) as Hn.
  destruct rest as [|d2 rest']; [reflexivity|].
  cbn [int_mul int_val]. change (int_val (PyInt d)) with d.
  destruct (Z.eq_dec d 0) as [->|Hne].
  - rewrite Z.mul_0_l. reflexivity.
  - rewrite np_prod_exact by (try done; nia).
    apply wrap64_id. nia.
Qed.



(** C8. [_calculate_fan_in_and_fan_out] raises the rank error ([ValueError])
    on a tensor of rank 0 or 1; on every tensor of rank at least 2 it returns
    a pair; in both cases the store, the tensor included, is exactly as
    before the call. *)
Theorem fan_in_fan_out_rank w t T reverse :
  tensors w !! t = Some T ->
  (ndim T < 2 ->
   _calculate_fan_in_and_fan_out t reverse w = (Raise (ndim_error (ndim T)), w)) /\
  (2 <= ndim T ->
   exists fan_in fan_out,
     _calculate_fan_in_and_fan_out t reverse w = (Ok (fan_in, fan_out), w)).
Proof.
  intros Ht. split.
  - intros Hr. unfold _calculate_fan_in_and_fan_out, bind.
    rewrite (get_tensor_run _ _ _ Ht).
    now replace (ndim T <? 2) with true by (symmetry; apply Z.ltb_lt; lia).
  - intros Hr. destruct (rank_ge_2_shape T Hr) as (d0 & d1 & rest & Hs).
    rewrite (fan_run w t T d0 d1 rest reverse Ht Hs).
    destruct reverse; eauto.
Qed.

(** C2 (as amended). On every tensor of rank at least 2 the call with
    [reverse=True] returns the pair of the [reverse=False] call swapped.
    When the dimensions are positive and the element count fits [int64],
    [fan_in * fan_out] is the square of (element count / product of the two
    leading dimensions) times that product; on a shape of rank exactly 2
    this is (element count / leading product) * (leading product). *)
Theorem fan_in_fan_out_product w t T d0 d1 rest :
  tensors w !! t = Some T ->
  shape T = d0 :: d1 :: rest ->
  exists fan_in fan_out,
    _calculate_fan_in_and_fan_out t false w = (Ok (fan_in, fan_out), w) /\
    _calculate_fan_in_and_fan_out t true w = (Ok (fan_out, fan_in), w) /\
    (Forall (fun d => 0 < d) (shape T) -> numel (shape T) < 2 ^ 63 ->
     let q := numel (shape T) / (d0 * d1) in
     int_val fan_in * int_val fan_out = q * q * (d0 * d1) /\
     (rest = [] -> int_val fan_in * int_val fan_out = q * (d0 * d1))).
Proof.
  intros Ht Hs.
  rewrite (fan_run w t T d0 d1 rest false Ht Hs), (fan_run w t T d0 d1 rest true Ht Hs).
  cbn zeta. do 2 eexists. split; [reflexivity|]. split; [reflexivity|].
  rewrite Hs. intros Hpos Hb.
  apply Forall_cons in Hpos as [H0 Hpos]. apply Forall_cons in Hpos as [H1 Hrest].
  cbn [numel fold_right] in *. fold (numel rest) in *.
  pose proof (numel_pos rest Hrest) as Hn.
  rewrite !fan_value by (try done; nia).
  replace (d0 * (d1 * numel rest)) with (numel rest * (d0 * d1)) by lia.
  rewrite Z.div_mul by nia.
  split; [lia|]. intros ->. cbn [numel fold_right]. lia.
Qed.

(** [tensor.set_value(v); return tensor] on the tensor [T]. *)
Lemma set_value_run w t T v :
  tensors w !! t = Some T ->
  (set_value t v ;; ret t) w =
    match accepts R T v with
    | Ok _ => (Ok t, set_tensors (<[t := mkTensor (shape T) (dtype T) (data v)]>) w)
    | Raise e => (Raise e, w)
    end.
Proof.
  intros Ht. unfold set_value, bind, get_tensor, lift. rewrite Ht.
  destruct (accepts R T v) as [[]|e]; reflexivity.
Qed.

Lemma no_grad_uniform_run w t T a b :
  tensors w !! t = Some T ->
  _no_grad_uniform_ t a b w =
    handed w t T (paddle_uniform R (shape T) (dtype T) a b (rng w)).
Proof.
  intros Ht. unfold _no_grad_uniform_, no_grad. unfold bind at 1.
  unfold get_tensor at 1. cbn [tensors set_grad]. rewrite Ht.
  unfold bind at 1. unfold uniform. cbn [rng set_grad].
  destruct (paddle_uniform R (shape T) (dtype T) a b (rng w)) as [[v|e] g];
    cbn [handed]; [|reflexivity].
  rewrite (set_value_run _ t T v) by exact Ht.
  destruct (accepts R T v); reflexivity.
Qed.

Lemma no_grad_normal_run w t T mean std :
  tensors w !! t = Some T ->
  _no_grad_normal_ t mean std w =
    handed w t T (paddle_normal R mean std (shape T) (rng w)).
Proof.
  intros Ht. unfold _no_grad_normal_, no_grad. unfold bind at 1.
  unfold get_tensor at 1. cbn [tensors set_grad]. rewrite Ht.
  unfold bind at 1. unfold normal. cbn [rng set_grad].
  destruct (paddle_normal R mean std (shape T) (rng w)) as [[v|e] g];
    cbn [handed]; [|reflexivity].
  rewrite (set_value_run _ t T v) by exact Ht.
  destruct (accepts R T v); reflexivity.
Qed.

Lemma no_grad_fill_run w t T value :
  tensors w !! t = Some T ->
  _no_grad_fill_ t value w =
    handed w t T (paddle_full_like R T value (dtype T), rng w).
Proof.
  intros Ht. unfold _no_grad_fill_, no_grad. unfold bind at 1.
  unfold get_tensor at 1. cbn [tensors set_grad]. rewrite Ht.
  unfold bind at 1. unfold lift at 1.
  destruct (paddle_full_like R T value (dtype T)) as [v|e];
    cbn [handed]; [|destruct w; reflexivity].
  rewrite (set_value_run _ t T v) by exact Ht.
  destruct (accepts R T v); [|destruct w]; reflexivity.
Qed.

(** [set_value] takes a value of the tensor's own shape and dtype whenever
    the framework's copy goes through, and refuses another dtype. *)
Lemma accepts_same T v :
  shape v = shape T -> dtype v = dtype T -> accepts R T v = tensor_set R T v.
Proof.
  intros Hs Hd. unfold accepts. rewrite Hs, Hd.
  rewrite bool_decide_eq_true_2 by reflexivity.
  now destruct (dtype T).
Qed.

Lemma accepts_other_dtype T v :
  shape v = shape T -> dtype v <> dtype T -> accepts R T v = Raise dtype_mismatch.
Proof.
  intros Hs Hd. unfold accepts. rewrite Hs.
  rewrite bool_decide_eq_true_2 by reflexivity.
  destruct (dtype T), (dtype v); try reflexivity; congruence.
Qed.

Lemma accepts_ok T v u :
  accepts R T v = Ok u -> shape v = shape T /\ dtype v = dtype T.
Proof.
  unfold accepts. case_bool_decide as Hs; [|discriminate]. cbn [negb].
  destruct (dtype T) eqn:E1, (dtype v) eqn:E2; cbn; try discriminate; auto.
Qed.

Lemma handed_ok w t T v g :
  shape v = shape T -> dtype v = dtype T -> tensor_set R T v = Ok tt ->
  handed w t T (Ok v, g) = (Ok t, filled w t T v g).
Proof.
  intros Hs Hd Hset. cbn [handed]. now rewrite (accepts_same _ _ Hs Hd), Hset.
Qed.

Lemma handed_other_dtype w t T v g :
  shape v = shape T -> dtype v <> dtype T ->
  handed w t T (Ok v, g) = (Raise dtype_mismatch, unfilled w g).
Proof.
  intros Hs Hd. cbn [handed]. now rewrite (accepts_other_dtype _ _ Hs Hd).
Qed.

(** C4 (as amended). [uniform_] has no element-count check and raises
    nothing of its own.  On every tensor, with or without elements, it asks
    the framework's uniform sampler for a draw of the tensor's shape and
    dtype between [a] and [b] and hands the draw to [set_value].  When the
    sampler returns a draw of that shape and dtype and the copy goes
    through, it returns the very tensor it was given, whose buffer now holds
    the draw, the other tensors, the gradient mode and the log being as
    before; when the sampler raises, or [set_value] refuses the draw, that
    exception comes out and no buffer is written. *)
Theorem uniform_fills_every_tensor w t T a b :
  tensors w !! t = Some T ->
  let draw := paddle_uniform R (shape T) (dtype T) a b (rng w) in
  uniform_ t a b w = handed w t T draw /\
  (forall v, draw.1 = Ok v ->
     shape v = shape T -> dtype v = dtype T -> tensor_set R T v = Ok tt ->
     uniform_ t a b w =
       (Ok t,
        mkWorld (<[t := mkTensor (shape T) (dtype T) (data v)]> (tensors w)) draw.2
          (grad_enabled w) (log w))) /\
  (forall e, draw.1 = Raise e ->
     uniform_ t a b w = (Raise e, mkWorld (tensors w) draw.2 (grad_enabled w) (log w))) /\
  (forall v e, draw.1 = Ok v -> accepts R T v = Raise e ->
     uniform_ t a b w = (Raise e, mkWorld (tensors w) draw.2 (grad_enabled w) (log w))).
Proof.
  intros Ht draw. unfold uniform_. rewrite (no_grad_uniform_run _ _ _ _ _ Ht).
  fold draw. split; [reflexivity|]. destruct draw as [r g]. cbn [fst snd].
  split; [|split].
  - intros v -> Hs Hd Hset. now rewrite handed_ok.
  - intros e ->. reflexivity.
  - intros v e -> He. cbn [handed]. now rewrite He.
Qed.

(** C9. [ones_] is [constant_] at 1 and [zeros_] is [constant_] at 0 (the
    int or the float): the three are one fill routine, which hands to
    [set_value] what [paddle.full_like] makes of the tensor, the value and
    the tensor's dtype, does not read the random source and leaves it as it
    was. *)
Theorem ones_zeros_are_constant w t :
  ones_ t w = constant_ t (NumInt 1) w /\
  ones_ t w = constant_ t (NumFloat fone) w /\
  zeros_ t w = constant_ t (NumInt 0) w /\
  zeros_ t w = constant_ t (NumFloat fzero) w /\
  (forall value r,
     constant_ t value (set_rng r w) =
     (fst (constant_ t value w), set_rng r (snd (constant_ t value w)))) /\
  (forall value T,
     tensors w !! t = Some T ->
     constant_ t value w =
       handed w t T (paddle_full_like R T value (dtype T), rng w) /\
     forall v,
       paddle_full_like R T value (dtype T) = Ok v ->
       shape v = shape T -> dtype v = dtype T -> tensor_set R T v = Ok tt ->
       constant_ t value w =
         (Ok t,
          mkWorld (<[t := mkTensor (shape T) (dtype T) (data v)]> (tensors w))
            (rng w) (grad_enabled w) (log w))).
Proof.
  assert (Hint : forall z,
    - 2 ^ 53 <= z <= 2 ^ 53 ->
    _no_grad_fill_ t (NumInt z) w = _no_grad_fill_ t (NumFloat (float_of_Z z)) w).
  { intros z Hz. destruct (tensors w !! t) as [T|] eqn:Ht.
    - now rewrite !(no_grad_fill_run _ _ _ _ Ht), (full_like_int R T z _ Hz).
    - unfold _no_grad_fill_, no_grad, bind, get_tensor.
      cbn [tensors set_grad]. now rewrite Ht. }
  split; [reflexivity|]. split; [exact (Hint 1 ltac:(lia))|].
  split; [reflexivity|]. split; [exact (Hint 0 ltac:(lia))|].
  split; [|split].
  - intros value r. unfold constant_.
    destruct (tensors w !! t) as [T|] eqn:Ht.
    + rewrite (no_grad_fill_run (set_rng r w) t T value Ht),
              (no_grad_fill_run w t T value Ht).
      cbn [rng set_rng].
      destruct (paddle_full_like R T value (dtype T)) as [v|e];
        cbn [handed]; [destruct (accepts R T v)|]; reflexivity.
    + unfold _no_grad_fill_, no_grad, bind, get_tensor.
      cbn [tensors set_grad set_rng]. now rewrite Ht.
  - now apply no_grad_fill_run.
  - intros v Hv Hs Hd Hset. unfold constant_.
    rewrite (no_grad_fill_run _ _ _ _ H), Hv. now rewrite handed_ok.
Qed.



Lemma sqrt_three_ok : math_sqrt fthree = Ok (SFsqrt prec emax fthree).
Proof. reflexivity. Qed.


Lemma sqrt_two_ok : math_sqrt ftwo = Ok (SFsqrt prec emax ftwo).
Proof. reflexivity. Qed.

Lemma sqrt_two_nonzero : feq (SFsqrt prec emax ftwo) fzero = false.
Proof. vm_compute. reflexivity. Qed.

Lemma norm_cdf_ok x :
  norm_cdf (R := R) x =
    Ok (SFdiv prec emax
          (fadd fone (math_erf R (SFdiv prec emax x (SFsqrt prec emax ftwo)))) ftwo).
Proof.
  unfold norm_cdf. rewrite sqrt_two_ok. cbn [rbind]. unfold py_truediv.
  rewrite sqrt_two_nonzero. cbn [rbind].
  now change (feq ftwo fzero) with false.
Qed.

(** The clamp of [paddle.clip]: the result is within the bounds, or it is a
    NaN that came in. *)
Lemma clip1_range lo hi x :
  fle lo hi = true ->
  is_nan (clip1 lo hi x) = true \/
  (fle lo (clip1 lo hi x) = true /\ fle (clip1 lo hi x) hi = true).
Proof.
  intros Hb. destruct (fle_not_nan _ _ Hb) as [Hlo Hhi]. unfold clip1.
  destruct (flt x lo) eqn:E1.
  - right. split; [now apply fle_refl | exact Hb].
  - destruct (flt hi x) eqn:E2.
    + right. split; [exact Hb | now apply fle_refl].
    + destruct (is_nan x) eqn:Ex; [now left | right].
      split; now apply flt_false_fle.
Qed.

(** The last kernel of [trunc_kernels] is the clamp. *)
Lemma trunc_kernels_clip x mean std a b v :
  trunc_kernels R x mean std a b = Ok v ->
  exists y, paddle_clip R y a b = Ok v.
Proof.
  unfold trunc_kernels.
  destruct (paddle_erfinv_ R x) as [x1|]; cbn [rbind]; [|discriminate].
  rewrite sqrt_two_ok. cbn [rbind].
  destruct (paddle_to_tensor R (fmul std _)) as [c|]; cbn [rbind]; [|discriminate].
  destruct (paddle_multiply R x1 c) as [x2|]; cbn [rbind]; [|discriminate].
  destruct (paddle_to_tensor R mean) as [m|]; cbn [rbind]; [|discriminate].
  destruct (paddle_add R x2 m) as [x3|]; cbn [rbind]; [|discriminate].
  eauto.
Qed.

(** The body of [_no_grad_trunc_normal_] from the draw on. *)
Lemma trunc_tail_run w t T x mean std a b :
  tensors w !! t = Some T ->
  (_tensor <- lift (paddle_erfinv_ R x) ;;
   s <- lift (math_sqrt ftwo) ;;
   c <- lift (paddle_to_tensor R (fmul std s)) ;;
   _tensor <- lift (paddle_multiply R _tensor c) ;;
   m <- lift (paddle_to_tensor R mean) ;;
   _tensor <- lift (paddle_add R _tensor m) ;;
   _tensor <- lift (paddle_clip R _tensor a b) ;;
   set_value t _tensor ;;
   ret t) w =
  match trunc_kernels R x mean std a b with
  | Ok v =>
      match accepts R T v with
      | Ok _ => (Ok t, set_tensors (<[t := mkTensor (shape T) (dtype T) (data v)]>) w)
      | Raise e => (Raise e, w)
      end
  | Raise e => (Raise e, w)
  end.
Proof.
  intros Ht. unfold trunc_kernels.
  unfold bind at 1. unfold lift at 1.
  destruct (paddle_erfinv_ R x) as [x1|]; cbn [rbind]; [|reflexivity].
  unfold bind at 1. unfold lift at 1. rewrite sqrt_two_ok. cbn [rbind].
  unfold bind at 1. unfold lift at 1.
  destruct (paddle_to_tensor R (fmul std _)) as [c|]; cbn [rbind]; [|reflexivity].
  unfold bind at 1. unfold lift at 1.
  destruct (paddle_multiply R x1 c) as [x2|]; cbn [rbind]; [|reflexivity].
  unfold bind at 1. unfold lift at 1.
  destruct (paddle_to_tensor R mean) as [m|]; cbn [rbind]; [|reflexivity].
  unfold bind at 1. unfold lift at 1.
  destruct (paddle_add R x2 m) as [x3|]; cbn [rbind]; [|reflexivity].
  unfold bind at 1. unfold lift at 1.
  destruct (paddle_clip R x3 a b) as [x4|]; cbn [rbind]; [|reflexivity].
  now apply set_value_run.
Qed.

(** [_no_grad_trunc_normal_] on the tensor [T]: the warning, the division
    by [std], the draw, the kernels and [set_value]. *)
Lemma no_grad_trunc_normal_run w t T mean std a b :
  tensors w !! t = Some T ->
  let warn := flt mean (fsub a (fmul ftwo std)) || flt (fadd b (fmul ftwo std)) mean in
  let lg := if warn then log w ++ [WarnTruncNormalMean mean std a b] else log w in
  let w0 := mkWorld (tensors w) (rng w) (grad_enabled w) lg in
  let cdf x :=
    SFdiv prec emax
      (fadd fone (math_erf R (SFdiv prec emax x (SFsqrt prec emax ftwo)))) ftwo in
  let l := cdf (SFdiv prec emax (fsub a mean) std) in
  let u := cdf (SFdiv prec emax (fsub b mean) std) in
  let draw :=
    paddle_uniform R (shape T) (dtype T)
      (fsub (fmul ftwo l) fone) (fsub (fmul ftwo u) fone) (rng w) in
  _no_grad_trunc_normal_ t mean std a b w =
    if feq std fzero
    then (Raise (ZeroDivisionError "float division by zero"), w0)
    else handed w0 t T
           (match draw.1 with
            | Ok x => trunc_kernels R x mean std a b
            | Raise e => Raise e
            end, draw.2).
Proof.
  intros Ht warn lg w0 cdf l u draw.
  assert (Hpre :
    (if warn then logger_warning (WarnTruncNormalMean mean std a b) else ret tt) w
      = (Ok tt, w0)).
  { subst w0 lg. destruct warn; [reflexivity|destruct w; reflexivity]. }
  unfold _no_grad_trunc_normal_. fold warn. unfold bind at 1. rewrite Hpre.
  destruct (feq std fzero) eqn:Hstd.
  - unfold no_grad, bind, lift, py_truediv. rewrite Hstd. reflexivity.
  - unfold no_grad. unfold bind at 1. unfold lift at 1, py_truediv at 1.
    rewrite Hstd. cbn [rbind]. rewrite norm_cdf_ok.
    unfold bind at 1. unfold lift at 1, py_truediv at 1.
    rewrite Hstd. cbn [rbind]. rewrite norm_cdf_ok.
    unfold bind at 1. unfold get_tensor at 1. cbn [tensors set_grad w0]. rewrite Ht.
    unfold bind at 1. unfold uniform. cbn [rng set_grad].
    change (rng w0) with (rng w). subst draw l u cdf. cbv beta.
    destruct (paddle_uniform R _ _ _ _ _) as [[x|e] g]; cbn [fst snd handed];
      [|reflexivity].
    rewrite (trunc_tail_run _ t T x) by exact Ht.
    destruct (trunc_kernels R x mean std a b) as [v|e]; [|reflexivity].
    destruct (accepts R T v); reflexivity.
Qed.

(** C6 (as amended). [trunc_normal_] logs one warning exactly when
    [mean < a - 2*std] or [mean > b + 2*std], and nothing otherwise, whether
    it then returns or raises.  With [std] zero the first division raises
    [ZeroDivisionError].  Otherwise it asks the uniform sampler for a draw of
    the tensor's shape and dtype between [2l-1] and [2u-1], takes it through
    [erfinv_], [multiply] by [std * sqrt(2.0)], [add] of [mean] and
    [clip(min=a, max=b)], and hands the result to [set_value]: an exception
    of any of these calls comes out with nothing written, and otherwise the
    tensor is returned with the clamped values in its buffer.  When [clip]
    clamps element by element in the dtype of its input, [a] and [b] being
    rounded to that dtype and in order there, every value written is NaN or
    lies between the rounded [a] and the rounded [b], which on a [float32]
    tensor need not be within [a, b]. *)
Theorem trunc_normal_fills w t T mean std a b :
  tensors w !! t = Some T ->
  let warn := flt mean (fsub a (fmul ftwo std)) || flt (fadd b (fmul ftwo std)) mean in
  let lg := if warn then log w ++ [WarnTruncNormalMean mean std a b] else log w in
  let w0 := mkWorld (tensors w) (rng w) (grad_enabled w) lg in
  let cdf x :=
    SFdiv prec emax
      (fadd fone (math_erf R (SFdiv prec emax x (SFsqrt prec emax ftwo)))) ftwo in
  let l := cdf (SFdiv prec emax (fsub a mean) std) in
  let u := cdf (SFdiv prec emax (fsub b mean) std) in
  let draw :=
    paddle_uniform R (shape T) (dtype T)
      (fsub (fmul ftwo l) fone) (fsub (fmul ftwo u) fone) (rng w) in
  log (trunc_normal_ t mean std a b w).2 = lg /\
  (feq std fzero = true ->
   trunc_normal_ t mean std a b w =
     (Raise (ZeroDivisionError "float division by zero"), w0)) /\
  (feq std fzero = false ->
   trunc_normal_ t mean std a b w =
     handed w0 t T
       (match draw.1 with
        | Ok x => trunc_kernels R x mean std a b
        | Raise e => Raise e
        end, draw.2) /\
   forall x v,
     draw.1 = Ok x ->
     trunc_kernels R x mean std a b = Ok v ->
     accepts R T v = Ok tt ->
     trunc_normal_ t mean std a b w = (Ok t, filled w0 t T v draw.2) /\
     ((forall y, paddle_clip R y a b = Ok (clip_kernel y a b)) ->
      fle (cast (dtype T) a) (cast (dtype T) b) = true ->
      Forall (fun z => is_nan z = true \/
                       (fle (cast (dtype T) a) z = true /\
                        fle z (cast (dtype T) b) = true)) (data v))).
Proof.
  intros Ht warn lg w0 cdf l u draw.
  pose proof (no_grad_trunc_normal_run w t T mean std a b Ht) as Hrun.
  cbv zeta in Hrun. fold warn in Hrun. fold lg in Hrun. fold w0 in Hrun.
  fold cdf in Hrun. fold l u in Hrun. fold draw in Hrun.
  unfold trunc_normal_.
  split; [|split].
  - rewrite Hrun. destruct (feq std fzero); [reflexivity|].
    destruct draw as [[x|e] g]; cbn [fst snd handed]; [|reflexivity].
    destruct (trunc_kernels R x mean std a b) as [v|e]; [|reflexivity].
    destruct (accepts R T v); reflexivity.
  - intros Hstd. now rewrite Hrun, Hstd.
  - intros Hstd. rewrite Hstd in Hrun. split; [exact Hrun|].
    intros x v Hx Hk Hacc. rewrite Hrun, Hx, Hk. cbn [handed]. rewrite Hacc.
    split; [reflexivity|].
    intros Hclip Hb.
    destruct (trunc_kernels_clip _ _ _ _ _ _ Hk) as (y & Hy).
    rewrite Hclip in Hy. injection Hy as <-.
    destruct (accepts_ok _ _ _ Hacc) as [_ Hd]. cbn [clip_kernel dtype] in Hd.
    cbn [clip_kernel data]. rewrite Hd.
    apply Forall_forall. intros z Hz.
    apply list_elem_of_In, in_map_iff in Hz as (z0 & <- & _).
    now apply clip1_range.
Qed.

End InitializerFacts.

(** ** The initializers on concrete tensors *)
Section InitializerExamples.
Import Initializer.

(** One more receptive-field factor than the claim allows: at shape
    [2; 3; 4] the fans are 12 and 8, and 96 is not (24 / 6) * 6. *)
Lemma fan_in_fan_out_product_counterexample :
  let T := empty_buffer [2; 3; 4] in
  _calculate_fan_in_and_fan_out 0%nat false (single_world T)
    = (Ok (NpInt64 12, NpInt64 8), single_world T) /\
  12 * 8 <> numel (shape T) / (2 * 3) * (2 * 3).
Proof. split; [vm_compute; reflexivity | vm_compute; discriminate]. Qed.

(** A tensor of shape [0] has no element, and [uniform_] returns it. *)
Lemma uniform_zero_elements_counterexample :
  let T := empty_buffer [0] in
  numel (shape T) = 0 /\
  uniform_ 0%nat (fneg fone) fone (single_world T)
    = (Ok 0%nat, mkWorld (R := stub_runtime) {[ 0%nat := T ]} 1 true []).
Proof. split; vm_compute; reflexivity. Qed.

(** A tensor with elements on which the sampler raises: the exception is
    that of the sampler, and the buffer is as it was. *)
Lemma uniform_sampler_raises :
  let T := empty_buffer_of float16 [2; 3] in
  0 < numel (shape T) /\
  uniform_ 0%nat (fneg fone) fone (single_world T)
    = (Raise (RuntimeError "the kernel uniform is not registered for float16"),
       mkWorld (R := stub_runtime) {[ 0%nat := T ]} 1 true []).
Proof. split; vm_compute; reflexivity. Qed.

Lemma uniform_fills_every_tensor_witness :
  let T := empty_buffer [2; 3] in
  tensors (single_world T) !! 0%nat = Some T /\
  uniform_ 0%nat (fneg fone) fone (single_world T)
    = (Ok 0%nat,
       mkWorld (R := stub_runtime)
         {[ 0%nat := mkTensor [2; 3] float32 (replicate 6 (cast float32 (fneg fone))) ]}
         1 true []).
Proof.
  split; [reflexivity|].
  destruct (uniform_fills_every_tensor (single_world (empty_buffer [2; 3])) 0%nat
              (empty_buffer [2; 3]) (fneg fone) fone eq_refl) as (_ & Hok & _).
  rewrite (Hok (mkTensor [2; 3] float32 (replicate 6 (cast float32 (fneg fone)))))
    by (vm_compute; reflexivity).
  vm_compute. reflexivity.
Defined.

Lemma fan_in_fan_out_rank_witness :
  let T := empty_buffer [7] in
  tensors (single_world T) !! 0%nat = Some T /\
  _calculate_fan_in_and_fan_out 0%nat false (single_world T)
    = (Raise (ValueError "tensor.ndim should be no less than 2, but got 1."),
       single_world T).
Proof.
  split; [reflexivity|].
  destruct (fan_in_fan_out_rank (single_world (empty_buffer [7])) 0%nat
              (empty_buffer [7]) false eq_refl) as [Hlow _].
  rewrite Hlow by (vm_compute; reflexivity).
  vm_compute. reflexivity.
Defined.

Lemma fan_in_fan_out_product_witness :
  let T := empty_buffer [2; 3; 4] in
  tensors (single_world T) !! 0%nat = Some T /\
  shape T = [2; 3; 4] /\
  exists fan_in fan_out,
    _calculate_fan_in_and_fan_out 0%nat false (single_world T)
      = (Ok (fan_in, fan_out), single_world T) /\
    _calculate_fan_in_and_fan_out 0%nat true (single_world T)
      = (Ok (fan_out, fan_in), single_world T) /\
    int_val fan_in * int_val fan_out = 4 * 4 * (2 * 3).
Proof.
  split; [reflexivity|]. split; [reflexivity|].
  destruct (fan_in_fan_out_product (single_world (empty_buffer [2; 3; 4])) 0%nat
              (empty_buffer [2; 3; 4]) 2 3 [4] eq_refl eq_refl)
    as (fi & fo & H1 & H2 & H3).
  exists fi, fo. split; [exact H1|]. split; [exact H2|].
  apply H3; [repeat constructor | vm_compute; reflexivity].
Defined.

Lemma ones_zeros_are_constant_witness :
  let T := empty_buffer [2; 2] in
  tensors (single_world T) !! 0%nat = Some T /\
  ones_ 0%nat (single_world T)
    = (Ok 0%nat,
       mkWorld (R := stub_runtime)
         {[ 0%nat := mkTensor [2; 2] float32 (replicate 4 (cast float32 fone)) ]}
         0 true []).
Proof.
  split; [reflexivity|].
  destruct (ones_zeros_are_constant (single_world (empty_buffer [2; 2])) 0%nat)
    as (H1 & _ & _ & _ & _ & H6).
  destruct (H6 (NumInt 1) (empty_buffer [2; 2]) eq_refl) as [_ Hv].
  rewrite H1, (Hv (mkTensor [2; 2] float32 (replicate 4 (cast float32 fone))))
    by (vm_compute; reflexivity).
  vm_compute. reflexivity.
Defined.

(** A fill value beyond the range of the dtype: [full_like] raises, and so
    does [constant_], with nothing written. *)
Lemma constant_out_of_range :
  let T := empty_buffer_of float16 [2] in
  constant_ 0%nat (NumInt 100000) (single_world T)
    = (Raise (ValueError "The filled value is out of range for target type"),
       single_world T).
Proof. vm_compute. reflexivity. Qed.

(** With a zero [std] the first division raises. *)
Lemma trunc_normal_zero_std_counterexample :
  let T := empty_buffer [2] in
  fle (fneg ftwo) ftwo = true /\
  trunc_normal_ 0%nat fzero fzero (fneg ftwo) ftwo (single_world T)
    = (Raise (ZeroDivisionError "float division by zero"), single_world T).
Proof. split; vm_compute; reflexivity. Qed.

(** With an infinite [std] nothing is raised, and the clamp lets the NaN of
    [0 * inf] through. *)
Lemma trunc_normal_inf_std_writes_nan :
  let T := empty_buffer [2] in
  trunc_normal_ 0%nat fzero inf (fneg ftwo) ftwo (single_world T)
    = (Ok 0%nat,
       mkWorld (R := stub_runtime)
         {[ 0%nat := mkTensor [2] float32 [S754_nan; S754_nan] ]} 1 true []).
Proof. vm_compute. reflexivity. Qed.

(** Both bounds at the double 0.1 on a [float32] tensor: the clamp is to the
    nearest [float32], 0.100000001490116..., which is above the bound. *)
Lemma trunc_normal_float32_bound :
  let T := empty_buffer [2] in
  let c := cast float32 one_tenth in
  fle one_tenth one_tenth = true /\
  trunc_normal_ 0%nat fzero fone one_tenth one_tenth (single_world T)
    = (Ok 0%nat,
       mkWorld (R := stub_runtime) {[ 0%nat := mkTensor [2] float32 [c; c] ]} 1 true []) /\
  c = S754_finite false 13421773 (-27) /\
  flt one_tenth c = true.
Proof. repeat split; vm_compute; reflexivity. Qed.

(** [mean = 10], [std = 1] on [-2, 2]: a warning and no exception. *)
Lemma trunc_normal_fills_witness :
  let T := empty_buffer [2] in
  let mean := float_of_Z 10 in
  tensors (single_world T) !! 0%nat = Some T /\
  feq fone fzero = false /\
  exists v r,
    trunc_normal_ 0%nat mean fone (fneg ftwo) ftwo (single_world T)
      = (Ok 0%nat,
         mkWorld (R := stub_runtime) {[ 0%nat := mkTensor [2] float32 v ]} r true
           [WarnTruncNormalMean mean fone (fneg ftwo) ftwo]) /\
    Forall (fun x => is_nan x = true \/
                     (fle (cast float32 (fneg ftwo)) x = true /\
                      fle x (cast float32 ftwo) = true)) v.
Proof.
  split; [reflexivity|]. split; [reflexivity|].
  destruct (trunc_normal_fills (single_world (empty_buffer [2])) 0%nat
              (empty_buffer [2]) (float_of_Z 10) fone (fneg ftwo) ftwo eq_refl)
    as (_ & _ & Hrun).
  destruct (Hrun eq_refl) as (_ & Hfill).
  destruct (Hfill (mkTensor [2] float32 [fzero; fzero])
              (mkTensor [2] float32 [cast float32 ftwo; cast float32 ftwo])
              ltac:(vm_compute; reflexivity) ltac:(vm_compute; reflexivity)
              ltac:(vm_compute; reflexivity)) as (Hok & Hrange).
  exists [cast float32 ftwo; cast float32 ftwo], 1. split.
  - rewrite Hok. vm_compute. reflexivity.
  - exact (Hrange (fun y => eq_refl) eq_refl).
Defined.


(** A [float64] tensor of shape [2; 3]: the normal draw is taken, in the
    default dtype, and [set_value] refuses it. *)
Lemma xavier_normal_other_dtype :
  let T := empty_buffer_of float64 [2; 3] in
  xavier_normal_ 0%nat fone false (single_world T)
    = (Raise (AssertionError "Variable dtype not match"),
       mkWorld (R := stub_runtime) {[ 0%nat := T ]} 1 true []) /\
  fst (xavier_uniform_ 0%nat fone false (single_world T)) = Ok 0%nat.
Proof. split; vm_compute; reflexivity. Qed.


End InitializerExamples.

(** ** The VIV driver *)
Section VivFacts.
Import Viv.
Context {C : Collaborators}.
Implicit Types (w : World C) (hp : Hyper).

Ltac run :=
  cbv beta iota zeta delta
    [bind ret raise lift gets modify hasattr call logger_info logger_scaler
     model_eval model_train negb].

Ltac trace_norm :=
  cbn [trace set_ext set_training add_attr set_best add_event best_metric training ext attrs
       world_size vdl_writer metric epoch];
  rewrite <- ?app_assoc; cbn [app].

(** [eval]: the calls it makes, and the mode it leaves the model in. *)
Lemma eval_spec e w r w' :
  eval e w = (r, w') ->
  best_metric w' = best_metric w /\
  exists pre,
    trace w' = trace w ++ ModelEval :: pre /\
    saves pre = [] /\
    match r with
    | Ok v =>
        training w' = true /\
        (exists x x', eval_func C e x = (Ok v, x')) /\
        (pre = [EvalFunc e; LoggerInfo (EvalAvg e); ModelTrain] \/
         pre = [BuildValidator; EvalFunc e; LoggerInfo (EvalAvg e); ModelTrain])
    | Raise _ =>
        training w' = false /\
        (pre = [BuildValidator] \/ pre = [EvalFunc e] \/ pre = [BuildValidator; EvalFunc e])
    end.
Proof.
  unfold eval. run.
  destruct (bool_decide ("cfg" ∈ attrs w)); run.
  all: match goal with |- context [bool_decide ("global_step" ∈ ?s)] =>
    destruct (bool_decide ("global_step" ∈ s)) end; run.
  all: match goal with |- context [bool_decide ("validator" ∈ ?s)] =>
    destruct (bool_decide ("validator" ∈ s)) end; run.
  all: trace_norm.
  all: try match goal with |- context [build_validator C ?x] =>
    destruct (build_validator C x) as [[[]|err] x1] eqn:Eb end; run.
  all: try match goal with |- context [eval_func C ?e0 ?x] =>
    destruct (eval_func C e0 x) as [[v|err'] x2] eqn:Ee end; run.
  all: intros [= <- <-]; trace_norm.
  all: split; [reflexivity|]; eexists; split; [reflexivity|]; split; [reflexivity|].
  all: repeat split; eauto.
Qed.

Lemma track_best_spec e cur w r w' :
  track_best e cur w = (r, w') ->
  training w' = training w /\
  if flt cur (metric (best_metric w))
  then best_metric w' = mkMetric cur e /\
       trace w' = trace w ++ [SaveCheckpoint (mkMetric cur e) "best_model"]
  else r = Ok tt /\ w' = w.
Proof.
  unfold track_best. run. destruct (flt cur (metric (best_metric w))); run.
  - trace_norm. destruct (save_checkpoint C _ _ _) as [[[]|err] x] eqn:Es.
    all: intros [= <- <-]; trace_norm; auto.
  - intros [= <- <-]. auto.
Qed.

Ltac suffix :=
  run; trace_norm;
  repeat match goal with
  | |- context [lr_by_epoch C ?x] =>
      destruct (lr_by_epoch C x) eqn:?; run; trace_norm
  | |- context [lr_step C ?x] =>
      destruct (lr_step C x) as [[[]|?] ?] eqn:?; run; trace_norm
  | |- context [match save_due ?hp ?e with _ => _ end] =>
      destruct (save_due hp e) as [[|]|?] eqn:?; run; trace_norm
  | |- context [save_checkpoint C ?m ?t ?x] =>
      destruct (save_checkpoint C m t x) as [[[]|?] ?] eqn:?; run; trace_norm
  end.

Lemma epoch_body_spec hp e w r w' :
  epoch_body hp e w = (r, w') ->
  exists evs,
    trace w' = trace w ++ evs /\
    (eval_epochs evs = [] \/ (eval_due hp e = Ok true /\ eval_epochs evs = [e])) /\
    ((best_metric w' = best_metric w /\ saved_as "best_model" evs = []) \/
     (eval_due hp e = Ok true /\
      exists cur,
        (exists x x', eval_func C e x = (Ok cur, x')) /\
        flt cur (metric (best_metric w)) = true /\
        best_metric w' = mkMetric cur e /\
        saved_as "best_model" evs = [mkMetric cur e])) /\
    (r = Ok tt ->
     exists due sdue cur,
       eval_due hp e = Ok due /\
       save_due hp e = Ok sdue /\
       eval_epochs evs = (if due : bool then [e] else []) /\
       saved_as "latest" evs = [mkMetric cur e] /\
       epoch_tags evs = (if sdue : bool then ["epoch_" +:+ pretty e] else []) /\
       training w' = (if due then true else training w)).
Proof.
  unfold epoch_body. run.
  destruct (train_epoch_func C e (ext w)) as [[[]|err] x1] eqn:Et; run;
    [|intros [= <- <-]; trace_norm; eexists; split; [reflexivity|];
      split; [now left|]; split; [now left|]; discriminate].
  destruct (eval_due hp e) as [due|err] eqn:Ed; run;
    [|intros [= <- <-]; trace_norm; eexists; split; [reflexivity|];
      split; [now left|]; split; [now left|]; discriminate].
  destruct due.
  - (* evaluation is due *)
    match goal with |- context [eval e ?w1] =>
      destruct (eval e w1) as [[cur|err] w2] eqn:Ev;
      apply eval_spec in Ev as (Hb2 & pre & Ht2 & Hs2 & Hr2) end;
      revert Hb2 Ht2; trace_norm; intros Hb2 Ht2.
    2:{ destruct Hr2 as (Hm & Hpre).
        intros [= <- <-]. rewrite Ht2, Hb2. trace_norm.
        eexists; split; [reflexivity|].
        split; [destruct Hpre as [ -> | [ -> | -> ] ]; auto|].
        split; [left; split; [reflexivity|]|discriminate].
        destruct Hpre as [ -> | [ -> | -> ] ]; reflexivity. }
    destruct Hr2 as (Hm & Hret & Hpre).
    destruct (track_best e cur w2) as [r3 w3] eqn:Etb.
    apply track_best_spec in Etb as (Hm3 & Htb).
    destruct (flt cur (metric (best_metric w2))) eqn:Hlt.
    + (* a new best *)
      destruct Htb as (Hb3 & Ht3). rewrite Hb2 in Hlt.
      destruct r3 as [[]|err3];
        [|intros [= <- <-]; rewrite Ht3, Ht2; trace_norm;
          eexists; split; [reflexivity|];
          split; [destruct Hpre as [ -> | -> ]; right; auto|];
          split; [|discriminate];
          right; split; [reflexivity|]; exists cur; rewrite Hb3;
          repeat split; auto; destruct Hpre as [ -> | -> ]; reflexivity].
      suffix.
      all: intros [= <- <-]; trace_norm; rewrite ?Ht3, ?Ht2; trace_norm.
      all: eexists; split; [reflexivity|].
      all: split; [destruct Hpre as [ -> | -> ]; right; auto|].
      all: split;
        [right; split; [reflexivity|]; exists cur; rewrite Hb3;
         repeat split; auto; destruct Hpre as [ -> | -> ]; reflexivity|].
      all: try discriminate.
      all: intros _; do 3 eexists; split; [reflexivity|]; split; [reflexivity|].
      all: rewrite ?Hm3, ?Hm.
      all: destruct Hpre as [ -> | -> ]; repeat split; reflexivity.
    + (* no improvement *)
      destruct Htb as (-> & ->).
      suffix.
      all: intros [= <- <-]; trace_norm; rewrite ?Ht2, ?Hb2; trace_norm.
      all: eexists; split; [reflexivity|].
      all: split; [destruct Hpre as [ -> | -> ]; right; auto|].
      all: split;
        [left; split; [reflexivity|]; destruct Hpre as [ -> | -> ]; reflexivity|].
      all: try discriminate.
      all: intros _; do 3 eexists; split; [reflexivity|]; split; [reflexivity|].
      all: rewrite ?Hm.
      all: destruct Hpre as [ -> | -> ]; repeat split; reflexivity.
  - (* no evaluation this epoch *)
    suffix.
    all: intros [= <- <-]; trace_norm.
    all: eexists; split; [reflexivity|].
    all: split; [now left|].
    all: split; [left; split; reflexivity|].
    all: try discriminate.
    all: intros _; do 3 eexists; split; [reflexivity|]; split; [reflexivity|].
    all: repeat split; reflexivity.
Qed.
Lemma eval_epochs_app a b : eval_epochs (a ++ b) = eval_epochs a ++ eval_epochs b.
Proof. apply omap_app. Qed.

Lemma saves_app a b : saves (a ++ b) = saves a ++ saves b.
Proof. apply omap_app. Qed.

Lemma saved_as_app tag a b : saved_as tag (a ++ b) = saved_as tag a ++ saved_as tag b.
Proof. unfold saved_as. now rewrite saves_app, omap_app. Qed.

Lemma epoch_tags_app a b : epoch_tags (a ++ b) = epoch_tags a ++ epoch_tags b.
Proof. unfold epoch_tags. now rewrite saves_app, map_app, List.filter_app. Qed.

Lemma last_cons_default {A} (d x : A) l : default d (last (x :: l)) = default x (last l).
Proof.
  destruct l as [|y l]; [reflexivity|].
  change (last (x :: y :: l)) with (last (y :: l)).
  destruct (proj2 (last_is_Some (y :: l)) ltac:(done)) as [z ->]. reflexivity.
Qed.

Lemma improving_final m0 bs :
  improving m0 bs ->
  metric (default m0 (last bs)) = metric m0 \/
  flt (metric (default m0 (last bs))) (metric m0) = true.
Proof.
  revert m0. induction bs as [|b bs IH]; intros m0; cbn [improving].
  - now left.
  - intros [Hb Hbs]. right.
    rewrite last_cons_default.
    destruct (IH b Hbs) as [->|Hlt]; [exact Hb|].
    eapply flt_trans; eassumption.
Qed.

(** The loop over a list of epochs, whatever its outcome. *)
Lemma loop_spec hp l w r w' :
  for_each l (epoch_body hp) w = (r, w') ->
  exists evs,
    trace w' = trace w ++ evs /\
    improving (best_metric w) (saved_as "best_model" evs) /\
    best_metric w' = default (best_metric w) (last (saved_as "best_model" evs)) /\
    Forall (fun b =>
              epoch b ∈ l /\ eval_due hp (epoch b) = Ok true /\
              exists x x', eval_func C (epoch b) x = (Ok (metric b), x'))
           (saved_as "best_model" evs) /\
    Forall (fun e => e ∈ l /\ eval_due hp e = Ok true) (eval_epochs evs) /\
    (r = Ok tt ->
     Forall (fun e => exists b, eval_due hp e = Ok b) l /\
     eval_epochs evs =
       List.filter (fun e => match eval_due hp e with Ok b => b | Raise _ => false end) l /\
     map epoch (saved_as "latest" evs) = l /\
     epoch_tags evs =
       map (fun e => "epoch_" +:+ pretty e)
         (List.filter (fun e => match save_due hp e with Ok b => b | Raise _ => false end) l)).
Proof.
  revert w r w'. induction l as [|e l IH]; intros w r w'.
  - cbn. intros [= <- <-]. exists []. rewrite app_nil_r.
    repeat split; try constructor.
  - cbn [for_each]. unfold bind.
    destruct (epoch_body hp e w) as [[[]|err] w1] eqn:E1;
      apply epoch_body_spec in E1 as (evs1 & Ht1 & He1 & Hb1 & HB1).
    + intros Hrest. apply IH in Hrest as (evs2 & Ht2 & Hi2 & Hl2 & Hf2 & Hg2 & HB2).
      exists (evs1 ++ evs2). rewrite Ht2, Ht1, app_assoc.
      split; [reflexivity|].
      rewrite saved_as_app, eval_epochs_app.
      split; [|split; [|split; [|split]]].
      * destruct Hb1 as [(Hsame & ->)|(Hd & cur & Hret & Hlt & Hnew & ->)]; cbn [app improving].
        -- now rewrite <- Hsame.
        -- split; [exact Hlt|]. now rewrite <- Hnew.
      * rewrite Hl2.
        destruct Hb1 as [(Hsame & ->)|(Hd & cur & Hret & Hlt & Hnew & ->)]; cbn [app].
        -- now rewrite Hsame.
        -- now rewrite Hnew, last_cons_default.
      * apply Forall_app. split.
        -- destruct Hb1 as [(Hsame & ->)|(Hd & cur & Hret & Hlt & Hnew & ->)];
             constructor; [|constructor].
           cbn [epoch metric]. split; [apply list_elem_of_here|]. now split.
        -- eapply Forall_impl; [exact Hf2|]. cbn beta.
           intros b (Hin & Hrest). split; [now apply list_elem_of_further|exact Hrest].
      * apply Forall_app. split.
        -- destruct He1 as [->|(Hd & ->)]; constructor; [|constructor].
           split; [apply list_elem_of_here|exact Hd].
        -- eapply Forall_impl; [exact Hg2|]. cbn beta.
           intros b (Hin & Hrest). split; [now apply list_elem_of_further|exact Hrest].
      * intros Hr. destruct (HB1 eq_refl) as (due & sdue & cur & Hd & Hs & Hee & Hla & Het & _).
        destruct (HB2 Hr) as (Hall & Hee2 & Hla2 & Het2).
        split; [constructor; eauto|].
        cbn [List.filter]. rewrite Hd, Hs, Hee, Hee2, epoch_tags_app, Het, Het2.
        rewrite saved_as_app, map_app, Hla, Hla2.
        split; [now destruct due|]. split; [reflexivity|]. now destruct sdue.
    + intros [= <- <-]. exists evs1. split; [exact Ht1|].
      split; [|split; [|split; [|split]]].
      * destruct Hb1 as [(Hsame & ->)|(Hd & cur & Hret & Hlt & Hnew & ->)]; cbn [improving]; auto.
      * destruct Hb1 as [(Hsame & ->)|(Hd & cur & Hret & Hlt & Hnew & ->)]; cbn [last default]; auto.
      * destruct Hb1 as [(Hsame & ->)|(Hd & cur & Hret & Hlt & Hnew & ->)];
          constructor; [|constructor].
        cbn [epoch metric]. split; [apply list_elem_of_here|]. now split.
      * destruct He1 as [->|(Hd & ->)]; constructor; [|constructor].
        split; [apply list_elem_of_here|exact Hd].
      * discriminate.
Qed.
(** [train] is a prelude, the loop over [range(1, epochs + 1)] started with
    the record [{inf, 0}], and the closing of the writer; neither the prelude
    nor the closing evaluates or writes a checkpoint. *)
Lemma train_decompose hp w r w' :
  train hp w = (r, w') ->
  exists pre,
    saves pre = [] /\ eval_epochs pre = [] /\
    ((trace w' = trace w ++ pre /\ best_metric w' = mkMetric inf 0 /\ r <> Ok tt) \/
     (exists w0 r1 w1 post,
        trace w0 = trace w ++ pre /\
        best_metric w0 = mkMetric inf 0 /\
        for_each (range1 (epochs hp)) (epoch_body hp) w0 = (r1, w1) /\
        trace w' = trace w1 ++ post /\
        saves post = [] /\ eval_epochs post = [] /\
        best_metric w' = best_metric w1 /\
        (r = Ok tt -> r1 = Ok tt))).
Proof.
  unfold train. run. trace_norm.
  destruct (build_optimizer C _) as [[[]|err] x1] eqn:E1; run; trace_norm;
    [|intros [= <- <-]; trace_norm; eexists; split; [|split; [|left; split; [reflexivity|]]];
      [reflexivity|reflexivity|split; [reflexivity|discriminate]]].
  destruct (build_constraints C _) as [[[]|err] x2] eqn:E2; run; trace_norm;
    [|intros [= <- <-]; trace_norm; eexists; split; [|split; [|left; split; [reflexivity|]]];
      [reflexivity|reflexivity|split; [reflexivity|discriminate]]].
  destruct (1 <? world_size w); run; trace_norm.
  1: destruct (fleet_init C _) as [[[]|err] x3] eqn:E3; run; trace_norm;
    [|intros [= <- <-]; trace_norm; eexists; split; [|split; [|left; split; [reflexivity|]]];
      [reflexivity|reflexivity|split; [reflexivity|discriminate]]].
  all: match goal with |- context [for_each ?l ?b ?w0] =>
         destruct (for_each l b w0) as [[[]|err] w1] eqn:El end; run.
  all: try match goal with |- context [vdl_writer ?w1] =>
         destruct (vdl_writer w1); run end.
  all: try match goal with |- context [vdl_close C ?x] =>
         destruct (vdl_close C x) as [[[]|err'] x4] eqn:Ev; run end.
  all: intros [= <- <-]; trace_norm; eexists.
  all: split; [|split; [|right; do 4 eexists; split; [|split; [|split; [exact El|]]]]].
  all: trace_norm; try reflexivity.
  all: try (eexists; repeat split; try reflexivity; try discriminate; fail).
  all: split; [try (rewrite <- (app_nil_r (trace _)) at 1); reflexivity|].
  all: repeat split; try reflexivity; try discriminate.
Qed.

(** The schedule of a run of [train] that completes. *)
Lemma train_schedule hp w w' :
  train hp w = (Ok tt, w') ->
  exists evs,
    trace w' = trace w ++ evs /\
    Forall (fun e => exists b, eval_due hp e = Ok b) (range1 (epochs hp)) /\
    eval_epochs evs =
      List.filter (fun e => match eval_due hp e with Ok b => b | Raise _ => false end)
        (range1 (epochs hp)) /\
    map epoch (saved_as "latest" evs) = range1 (epochs hp) /\
    epoch_tags evs =
      map (fun e => "epoch_" +:+ pretty e)
        (List.filter (fun e => match save_due hp e with Ok b => b | Raise _ => false end)
           (range1 (epochs hp))).
Proof.
  intros Ht. apply train_decompose in Ht as (pre & Hsp & Hep & [(_ & _ & Hne)|Hloop]);
    [done|].
  destruct Hloop as (w0 & r1 & w1 & post & Ht0 & _ & Hl & Ht1 & Hspo & Hepo & _ & Hr).
  rewrite (Hr eq_refl) in Hl.
  apply loop_spec in Hl as (evs & Hte & _ & _ & _ & _ & HB).
  destruct (HB eq_refl) as (Hall & Hee & Hla & Het).
  exists (pre ++ evs ++ post). rewrite Ht1, Hte, Ht0, <- !app_assoc.
  split; [reflexivity|]. split; [exact Hall|].
  rewrite !eval_epochs_app, !saved_as_app, !epoch_tags_app, Hep, Hepo.
  unfold saved_as at 1 3, epoch_tags at 1 3. rewrite Hsp, Hspo. cbn [omap list_omap map List.filter app].
  rewrite !app_nil_r. auto.
Qed.

(** For any hyper-parameters with evaluation switched on, a run that
    completes evaluates at epoch [e] iff [e] is one of [1..epochs],
    [e % eval_freq == 0] and [e >= start_eval_epoch]. *)
Lemma train_evaluates_iff hp w w' :
  eval_during_train hp = true ->
  train hp w = (Ok tt, w') ->
  exists evs,
    trace w' = trace w ++ evs /\
    forall e,
      e ∈ eval_epochs evs <->
      1 <= e <= epochs hp /\ e `mod` eval_freq hp = 0 /\ start_eval_epoch hp <= e.
Proof.
  intros Hon Ht. apply train_schedule in Ht as (evs & Hte & Hall & Hee & _).
  exists evs. split; [exact Hte|]. intros e. rewrite Hee.
  rewrite list_elem_of_In, filter_In, <- list_elem_of_In.
  unfold range1. rewrite elem_of_seqZ.
  split.
  - intros [Hin Hdue]. split; [lia|].
    unfold eval_due, py_mod in Hdue. rewrite Hon in Hdue.
    destruct (eval_freq hp =? 0); [discriminate|]. cbn in Hdue.
    apply andb_true_iff in Hdue as [Hm Hs]. lia.
  - intros (Hr & Hm & Hs). split; [lia|].
    assert (Hin : e ∈ range1 (epochs hp)) by (apply elem_of_seqZ; lia).
    rewrite Forall_forall in Hall. destruct (Hall e Hin) as [b Hb].
    rewrite Hb. unfold eval_due, py_mod in Hb. rewrite Hon in Hb.
    destruct (eval_freq hp =? 0); [discriminate|]. cbn in Hb.
    injection Hb as <-. apply andb_true_iff. lia.
Qed.

(** C1. With 5 epochs, evaluation every 2 epochs from epoch 1 on and a
    checkpoint every 3 epochs, a run of [train] that completes invokes the
    evaluation exactly at epochs 2 and 4 (an epoch [e] of 1..5 is evaluated
    iff [e % 2 == 0] and [e >= 1]), writes "latest" five times, once at the
    end of each epoch, and writes an "epoch_N" checkpoint at epoch 3 only. *)
Theorem viv_schedule_5_2_3 w w' :
  train (mkHyper 5 3 true 2 1) w = (Ok tt, w') ->
  exists evs,
    trace w' = trace w ++ evs /\
    eval_epochs evs = [2; 4] /\
    (forall e, 1 <= e <= 5 -> (e ∈ eval_epochs evs <-> e `mod` 2 = 0 /\ 1 <= e)) /\
    map epoch (saved_as "latest" evs) = [1; 2; 3; 4; 5] /\
    length (saved_as "latest" evs) = 5%nat /\
    epoch_tags evs = ["epoch_3"].
Proof.
  intros Ht. apply train_schedule in Ht as (evs & Hte & _ & Hee & Hla & Het).
  exists evs. split; [exact Hte|].
  change (eval_epochs evs = [2; 4]) in Hee.
  change (map epoch (saved_as "latest" evs) = [1; 2; 3; 4; 5]) in Hla.
  change (epoch_tags evs = ["epoch_3"]) in Het.
  split; [exact Hee|]. split; [|split; [exact Hla|split; [|exact Het]]].
  - intros e He. rewrite Hee. split.
    + intros Hin. apply list_elem_of_In in Hin. cbn in Hin.
      destruct Hin as [<-|[<-|[]]]; split; (reflexivity || lia).
    + intros [Hm _]. apply list_elem_of_In. cbn.
      assert (e = 1 \/ e = 2 \/ e = 3 \/ e = 4 \/ e = 5) as [->|[->|[->|[->| ->]]]] by lia;
        cbn in Hm; try discriminate; auto.
  - rewrite <- (length_map epoch), Hla. reflexivity.
Qed.

(** C3 (as amended). [eval] switches the model to inference mode first.
    When the evaluation strategy returns, exactly one evaluation pass has
    been run, [solver.model.train()] is the last call, and the model is in
    training mode (whatever mode it was in before).  When a collaborator
    raises, the exception leaves [eval] at once: [solver.model.train()] is
    not called and the model stays in inference mode. *)
Theorem eval_mode_toggle e w r w' :
  eval e w = (r, w') ->
  exists pre,
    trace w' = trace w ++ ModelEval :: pre /\
    match r with
    | Ok _ =>
        training w' = true /\
        eval_epochs pre = [e] /\
        mode_restores pre = 1%nat /\
        last pre = Some ModelTrain
    | Raise _ =>
        training w' = false /\
        mode_restores pre = 0%nat /\
        (length (eval_epochs pre) <= 1)%nat
    end.
Proof.
  intros He. apply eval_spec in He as (_ & pre & Ht & _ & Hr).
  exists pre. split; [exact Ht|].
  destruct r as [v|err].
  - destruct Hr as (Hm & _ & [->| ->]); repeat split; auto.
  - destruct Hr as (Hm & [->|[->| ->]]); repeat split; auto; cbn; lia.
Qed.

(** C5. Over any stretch of epochs of the training loop, whatever its
    outcome: the "best_model" writes are, in order, the successive values of
    the best-metric record, each strictly below the one before; the record
    at the end is the last of them, or the initial record when there is
    none; each was produced by the evaluation, at an epoch where evaluation
    was due; hence the stored metric never increases, and it stays as it is
    over epochs without evaluation.  The same holds of a whole run of
    [train], which starts from the record [{inf, 0}]. *)
Theorem best_metric_record hp :
  (forall l w r w',
     for_each l (epoch_body hp) w = (r, w') ->
     exists evs,
       trace w' = trace w ++ evs /\
       improving (best_metric w) (saved_as "best_model" evs) /\
       best_metric w' = default (best_metric w) (last (saved_as "best_model" evs)) /\
       Forall (fun b =>
                 epoch b ∈ l /\ eval_due hp (epoch b) = Ok true /\
                 exists x x', eval_func C (epoch b) x = (Ok (metric b), x'))
              (saved_as "best_model" evs) /\
       (metric (best_metric w') = metric (best_metric w) \/
        flt (metric (best_metric w')) (metric (best_metric w)) = true) /\
       ((forall e, e ∈ l -> eval_due hp e <> Ok true) ->
        saved_as "best_model" evs = [] /\ best_metric w' = best_metric w)) /\
  (forall w r w',
     train hp w = (r, w') ->
     exists evs,
       trace w' = trace w ++ evs /\
       improving (mkMetric inf 0) (saved_as "best_model" evs) /\
       best_metric w' = default (mkMetric inf 0) (last (saved_as "best_model" evs)) /\
       Forall (fun b =>
                 1 <= epoch b <= epochs hp /\ eval_due hp (epoch b) = Ok true /\
                 exists x x', eval_func C (epoch b) x = (Ok (metric b), x'))
              (saved_as "best_model" evs)).
Proof.
  split.
  - intros l w r w' Hl.
    apply loop_spec in Hl as (evs & Hte & Hi & Hb & Hf & _ & _).
    exists evs. split; [exact Hte|]. split; [exact Hi|]. split; [exact Hb|].
    split; [exact Hf|]. split.
    + rewrite Hb. now apply improving_final.
    + intros Hnone.
      destruct (saved_as "best_model" evs) as [|b bs] eqn:Eb.
      * now rewrite Hb.
      * apply Forall_cons in Hf as [(Hin & Hd & _) _]. now destruct (Hnone _ Hin).
  - intros w r w' Ht.
    apply train_decompose in Ht as (pre & Hsp & Hep & [(Ht & Hb & _)|Hloop]).
    + exists pre. unfold saved_as. rewrite Hsp. cbn. auto.
    + destruct Hloop as (w0 & r1 & w1 & post & Ht0 & Hb0 & Hl & Ht1 & Hspo & Hepo & Hb1 & _).
      apply loop_spec in Hl as (evs & Hte & Hi & Hb & Hf & _ & _).
      exists (pre ++ evs ++ post). rewrite Ht1, Hte, Ht0, <- !app_assoc.
      split; [reflexivity|].
      rewrite !saved_as_app. unfold saved_as at 1 3 4 6 7 9. rewrite Hsp, Hspo.
      cbn [omap list_omap app]. rewrite !app_nil_r.
      rewrite Hb0 in Hi, Hb. split; [exact Hi|]. split; [now rewrite Hb1|].
      eapply Forall_impl; [exact Hf|]. cbn beta.
      intros b (Hin & Hrest). split; [|exact Hrest].
      unfold range1 in Hin. apply elem_of_seqZ in Hin. lia.
Qed.

End VivFacts.

(** ** The driver on scripted collaborators *)
Section VivExamples.
Import Viv.

(** Evaluation fails: the exception leaves [eval] with the model still in
    inference mode. *)
Lemma eval_mode_toggle_counterexample :
  training (fresh []) = true /\
  fst (eval 1 (fresh [])) = Raise (RuntimeError "evaluation failed") /\
  training (snd (eval 1 (fresh []))) = false /\
  mode_restores (trace (snd (eval 1 (fresh [])))) = 0%nat.
Proof. repeat split; vm_compute; reflexivity. Qed.

Lemma eval_mode_toggle_witness :
  let w := fresh [Ok (float_of_Z 7)] in
  eval 1 w = (fst (eval 1 w), snd (eval 1 w)) /\
  fst (eval 1 w) = Ok (float_of_Z 7) /\
  exists pre,
    trace (snd (eval 1 w)) = trace w ++ ModelEval :: pre /\
    training (snd (eval 1 w)) = true /\
    eval_epochs pre = [1] /\
    mode_restores pre = 1%nat /\
    last pre = Some ModelTrain.
Proof.
  cbv zeta. split; [apply surjective_pairing|]. split; [vm_compute; reflexivity|].
  destruct (eval_mode_toggle (C := scripted) 1 (fresh [Ok (float_of_Z 7)]) _ _
              (surjective_pairing _)) as (pre & Ht & Hr).
  exists pre. split; [exact Ht|].
  replace (fst (eval 1 (fresh [Ok (float_of_Z 7)]))) with (Ok (float_of_Z 7) : result pyfloat) in Hr
    by (vm_compute; reflexivity).
  exact Hr.
Defined.

(** Five epochs, evaluation every 2 from epoch 1, a checkpoint every 3; the
    evaluations return 7.0 and then 9.0. *)
Lemma viv_schedule_5_2_3_witness :
  let w := fresh [Ok (float_of_Z 7); Ok (float_of_Z 9)] in
  let hp := mkHyper 5 3 true 2 1 in
  train hp w = (Ok tt, snd (train hp w)) /\
  exists evs,
    trace (snd (train hp w)) = trace w ++ evs /\
    eval_epochs evs = [2; 4] /\
    (forall e, 1 <= e <= 5 -> (e ∈ eval_epochs evs <-> e `mod` 2 = 0 /\ 1 <= e)) /\
    map epoch (saved_as "latest" evs) = [1; 2; 3; 4; 5] /\
    length (saved_as "latest" evs) = 5%nat /\
    epoch_tags evs = ["epoch_3"].
Proof.
  cbv zeta.
  assert (H : train (mkHyper 5 3 true 2 1) (fresh [Ok (float_of_Z 7); Ok (float_of_Z 9)])
              = (Ok tt, snd (train (mkHyper 5 3 true 2 1)
                               (fresh [Ok (float_of_Z 7); Ok (float_of_Z 9)])))).
  { rewrite (surjective_pairing (train _ _)) at 1. f_equal; vm_compute; reflexivity. }
  split; [exact H|].
  exact (viv_schedule_5_2_3 (C := scripted) _ _ H).
Defined.

(** On the same run the record ends at [{7.0, 2}], written once. *)
Lemma best_metric_record_witness :
  let w := fresh [Ok (float_of_Z 7); Ok (float_of_Z 9)] in
  let hp := mkHyper 5 3 true 2 1 in
  train hp w = (fst (train hp w), snd (train hp w)) /\
  best_metric (snd (train hp w)) = mkMetric (float_of_Z 7) 2 /\
  saved_as "best_model" (trace (snd (train hp w))) = [mkMetric (float_of_Z 7) 2] /\
  exists evs,
    trace (snd (train hp w)) = trace w ++ evs /\
    improving (mkMetric inf 0) (saved_as "best_model" evs) /\
    best_metric (snd (train hp w))
      = default (mkMetric inf 0) (last (saved_as "best_model" evs)).
Proof.
  cbv zeta. split; [apply surjective_pairing|].
  split; [vm_compute; reflexivity|]. split; [vm_compute; reflexivity|].
  destruct (best_metric_record (C := scripted) (mkHyper 5 3 true 2 1)) as [_ Htrain].
  destruct (Htrain (fresh [Ok (float_of_Z 7); Ok (float_of_Z 9)]) _ _
              (surjective_pairing _)) as (evs & Ht & Hi & Hb & _).
  exists evs. auto.
Defined.

End VivExamples.

(** ** The model factory *)
Section ArchFacts.
Import Arch.

Lemma val_in_mono (F F' : loc -> Prop) v :
  (forall l, F l -> F' l) -> val_in F v -> val_in F' v.
Proof. destruct v; cbn; auto. Qed.

Lemma img_mono (m m' : gmap loc loc) y : m ⊆ m' -> img m y -> img m' y.
Proof. intros Hs [k Hk]. exists k. eapply lookup_weaken; eassumption. Qed.

Lemma children_rebuild o vs :
  length vs = length (children o) -> children (rebuild o vs) = vs.
Proof.
  destruct o as [items|elems]; cbn; [|done].
  intros Hlen. apply snd_zip. rewrite Hlen, !length_fmap. done.
Qed.

(** Copying a list keeps what copying one value keeps, whether it ends
    normally or not. *)
Lemma copy_all_inv h0 (f : value -> M (heap * gmap loc loc) value) :
  (forall v st r st',
     f v st = (r, st') -> copying h0 st ->
     copying h0 st' /\ st.2 ⊆ st'.2 /\
     match r with Ok v' => val_in (img st'.2) v' | Raise _ => True end) ->
  forall vs st r st',
    copy_all f vs st = (r, st') -> copying h0 st ->
    copying h0 st' /\ st.2 ⊆ st'.2 /\
    match r with
    | Ok vs' => Forall (val_in (img st'.2)) vs' /\ length vs' = length vs
    | Raise _ => True
    end.
Proof.
  intros Hf. induction vs as [|v vs IH]; intros st r st'; cbn [copy_all].
  - intros [= <- <-] Hinv. split; [exact Hinv|]. split; [reflexivity|].
    split; [constructor|reflexivity].
  - unfold bind at 1.
    destruct (f v st) as [[v1|e1] st1] eqn:E1.
    + unfold bind at 1.
      destruct (copy_all f vs st1) as [[vs2|e2] st2] eqn:E2;
        intros [= <- <-] Hinv;
        destruct (Hf _ _ _ _ E1 Hinv) as (Hinv1 & Hm1 & Hv1);
        destruct (IH _ _ _ E2 Hinv1) as (Hinv2 & Hm2 & Hr2).
      * destruct Hr2 as [Hvs Hlen].
        split; [exact Hinv2|]. split; [etrans; eassumption|]. split.
        -- constructor; [|exact Hvs].
           eapply val_in_mono; [|exact Hv1]. intros l. now apply img_mono.
        -- cbn. now rewrite Hlen.
      * split; [exact Hinv2|]. split; [etrans; eassumption|exact I].
    + intros [= <- <-] Hinv. destruct (Hf _ _ _ _ E1 Hinv) as (Hinv1 & Hm1 & _).
      auto.
Qed.

(** [deepcopy] never touches an object of the store it copies from, and the
    value it returns refers to copies only. *)
Lemma deepcopy_inv h0 depth :
  forall x st r st',
    deepcopy depth x st = (r, st') -> copying h0 st ->
    copying h0 st' /\ st.2 ⊆ st'.2 /\
    match r with Ok x' => val_in (img st'.2) x' | Raise _ => True end.
Proof.
  induction depth as [|depth IH]; intros x [h memo] r st'.
  all: destruct x as [| | | | |l]; cbn [deepcopy fst snd];
    try (intros [= <- <-] Hinv; split; [exact Hinv|]; split; [reflexivity|exact I]).
  all: destruct (memo !! l) as [y|] eqn:Em;
    [intros [= <- <-] Hinv; split; [exact Hinv|]; split; [reflexivity|];
     cbn; unfold img; eauto|].
  { intros [= <- <-] Hinv. split; [exact Hinv|]. split; [reflexivity|exact I]. }
  destruct (h !! l) as [o|] eqn:Eo;
    [|intros [= <- <-] Hinv; split; [exact Hinv|]; split; [reflexivity|exact I]].
  set (y := fresh (dom h)).
  destruct (copy_all (deepcopy depth) (children o) (<[y:=blank o]> h, <[l:=y]> memo))
    as [rc [h2 memo2]] eqn:Ec.
  intros Hrun (H1 & H2 & H3). cbn [fst snd] in *.
  assert (Hy : h !! y = None) by (apply not_elem_of_dom, is_fresh).
  assert (Hy0 : h0 !! y = None).
  { destruct (h0 !! y) eqn:E; [|done]. apply (lookup_weaken _ _ _ _ E) in H1. congruence. }
  assert (Hinv1 : copying h0 (<[y:=blank o]> h, <[l:=y]> memo)).
  { split; [|split]; cbn [fst snd].
    - now apply insert_subseteq_r.
    - intros y' [k Hk]. destruct (decide (k = l)) as [->|Hne].
      + rewrite lookup_insert_eq in Hk. injection Hk as <-.
        split; [done|]. rewrite lookup_insert_eq. eauto.
      + rewrite lookup_insert_ne in Hk by done.
        destruct (H2 y' (ex_intro _ k Hk)) as [Ha Hb]. split; [done|].
        destruct (decide (y = y')) as [->|Hne']; [rewrite lookup_insert_eq; eauto|].
        now rewrite lookup_insert_ne.
    - intros y' o' [k Hk] Ho'. destruct (decide (y = y')) as [<-|Hne'].
      + rewrite lookup_insert_eq in Ho'. injection Ho' as <-. destruct o; constructor.
      + rewrite lookup_insert_ne in Ho' by done.
        assert (Hold : img memo y').
        { destruct (decide (k = l)) as [->|Hne].
          - rewrite lookup_insert_eq in Hk. congruence.
          - rewrite lookup_insert_ne in Hk by done. now exists k. }
        eapply Forall_impl; [exact (H3 y' o' Hold Ho')|].
        intros v. apply val_in_mono. intros l'. apply img_mono.
        now apply insert_subseteq. }
  destruct (copy_all_inv h0 (deepcopy depth) (IH) _ _ _ _ Ec Hinv1)
    as ((G1 & G2 & G3) & Hm & Hrc). cbn [fst snd] in *.
  assert (Hmm : memo ⊆ memo2) by (etrans; [|exact Hm]; now apply insert_subseteq).
  destruct rc as [vs|e]; injection Hrun as <- <-;
    [|split; [split; [|split]; assumption|]; split; [exact Hmm|exact I]].
  destruct Hrc as [Hvs Hlen].
  assert (Hmy : memo2 !! l = Some y).
  { eapply lookup_weaken; [|exact Hm]. apply lookup_insert_eq. }
  split; [split; [|split]|split]; cbn [fst snd].
  - now apply insert_subseteq_r.
  - intros y' Hy'. destruct (G2 y' Hy') as [Ha Hb]. split; [done|].
    destruct (decide (y = y')) as [->|Hne']; [rewrite lookup_insert_eq; eauto|].
    now rewrite lookup_insert_ne.
  - intros y' o' Hy' Ho'. destruct (decide (y = y')) as [<-|Hne'].
    + rewrite lookup_insert_eq in Ho'. injection Ho' as <-.
      now rewrite children_rebuild.
    + rewrite lookup_insert_ne in Ho' by done. exact (G3 y' o' Hy' Ho').
  - exact Hmm.
  - cbn. unfold img. eauto.
Qed.

(** With no dangling reference in [h0] and one unit of depth for each object
    of [h0] that is not yet in the memo, the copy ends normally. *)
Lemma deepcopy_total h0 :
  well_formed h0 ->
  forall depth x h memo,
    h0 ⊆ h ->
    val_in (fun l => is_Some (h0 !! l)) x ->
    dom memo ⊆ dom h0 ->
    (size (dom h0 ∖ dom memo) <= depth)%nat ->
    exists x' h' memo',
      deepcopy depth x (h, memo) = (Ok x', (h', memo')) /\
      h0 ⊆ h' /\ memo ⊆ memo' /\ dom memo' ⊆ dom h0.
Proof.
  intros Hwf. induction depth as [|depth IH]; intros x h memo Hsub Hx Hdom Hsize.
  all: destruct x as [| | | | |l]; cbn [deepcopy fst snd];
    try (do 3 eexists; split; [reflexivity|]; auto; fail).
  all: destruct (memo !! l) as [y|] eqn:Em;
    [do 3 eexists; split; [reflexivity|]; auto|].
  all: cbn in Hx; destruct Hx as [o Ho].
  all: assert (Hl : l ∈ dom h0 ∖ dom memo)
    by (apply elem_of_difference; split;
        [apply elem_of_dom; eauto | now apply not_elem_of_dom]).
  - exfalso. assert (size (dom h0 ∖ dom memo) <> 0%nat); [|lia].
    intros Hz. apply size_empty_inv in Hz.
    apply (not_elem_of_empty (C := gset loc) l). now apply Hz.
  - rewrite (lookup_weaken _ _ _ _ Ho Hsub).
    set (y := fresh (dom h)).
    assert (Hy : h !! y = None) by (apply not_elem_of_dom, is_fresh).
    assert (Hy0 : h0 !! y = None).
    { destruct (h0 !! y) eqn:E; [|done]. apply (lookup_weaken _ _ _ _ E) in Hsub. congruence. }
    assert (Hdom1 : dom (<[l:=y]> memo) ⊆ dom h0).
    { rewrite dom_insert_L. apply union_subseteq. split; [|done].
      apply singleton_subseteq_l, elem_of_dom. eauto. }
    assert (Hsize1 : (size (dom h0 ∖ dom (<[l:=y]> memo)) <= depth)%nat).
    { assert (size (dom h0 ∖ dom (<[l:=y]> memo)) < size (dom h0 ∖ dom memo))%nat; [|lia].
      apply subset_size. rewrite dom_insert_L. split.
      - intros k. rewrite !elem_of_difference, elem_of_union. tauto.
      - intros Hk. specialize (Hk l Hl).
        rewrite elem_of_difference, elem_of_union, elem_of_singleton in Hk. tauto. }
    assert (Hall :
      forall vs h1 memo1,
        Forall (val_in (fun l => is_Some (h0 !! l))) vs ->
        h0 ⊆ h1 -> dom memo1 ⊆ dom h0 ->
        (size (dom h0 ∖ dom memo1) <= depth)%nat ->
        exists vs' h' memo',
          copy_all (deepcopy depth) vs (h1, memo1) = (Ok vs', (h', memo')) /\
          h0 ⊆ h' /\ memo1 ⊆ memo' /\ dom memo' ⊆ dom h0).
    { induction vs as [|v vs IHvs]; intros h1 memo1 Hvs Hs1 Hd1 Hz1; cbn [copy_all].
      - do 3 eexists. split; [reflexivity|]. auto.
      - apply Forall_cons in Hvs as [Hv Hvs]. unfold bind at 1.
        destruct (IH v h1 memo1 Hs1 Hv Hd1 Hz1) as (v' & h' & memo' & -> & Hs' & Hm' & Hd').
        assert (Hz' : (size (dom h0 ∖ dom memo') <= depth)%nat).
        { etrans; [|exact Hz1]. apply subseteq_size.
          apply subseteq_dom in Hm'. intros k. rewrite !elem_of_difference.
          intros [Hk Hn]. split; [exact Hk|]. intros Hk'. apply Hn, Hm', Hk'. }
        unfold bind at 1.
        destruct (IHvs h' memo' Hvs Hs' Hd' Hz') as (vs' & h'' & memo'' & -> & Hs'' & Hm'' & Hd'').
        do 3 eexists. split; [reflexivity|]. split; [done|]. split; [etrans; eassumption|done]. }
    destruct (Hall (children o) (<[y:=blank o]> h) (<[l:=y]> memo))
      as (vs' & h' & memo' & -> & Hs' & Hm' & Hd'); auto.
    { exact (Hwf l o (ex_intro _ o Ho) Ho). }
    { now apply insert_subseteq_r. }
    do 3 eexists. split; [reflexivity|]. cbn [fst snd].
    split; [now apply insert_subseteq_r|]. split; [|done].
    etrans; [|exact Hm']. now apply insert_subseteq.
Qed.

Lemma remove_key_values F key items :
  Forall (val_in F) items.*2 -> Forall (val_in F) (remove_key key items).*2.
Proof.
  induction items as [|[k v] items IH]; cbn; [done|].
  intros Hall. apply Forall_cons in Hall as [Hv Hall].
  destruct (String.eqb k key); [auto|]. cbn. constructor; auto.
Qed.

Context {G : Registry}.

(** C10. Whatever [build_model] returns or raises, every object that was in
    the store before the call, the caller's mapping and all it refers to
    included, is in the store after the call, unchanged: the copy is made of
    new objects, ["name"] is popped from the copy, and the constructor is
    handed the copy.  On a configuration without dangling references the
    copy ends normally as soon as the stack has room for each of its
    containers. *)
Theorem build_model_leaves_cfg (w : World G) cfg :
  confined G ->
  (forall depth r w', build_model depth cfg w = (r, w') -> store w ⊆ store w') /\
  (well_formed (store w) -> val_in (fun l => is_Some (store w !! l)) cfg ->
   forall depth, (size (dom (store w)) <= depth)%nat ->
   exists cfg' st', deepcopy depth cfg (store w, ∅) = (Ok cfg', st')).
Proof.
  intros Hconf. split.
  - intros depth r w'. unfold build_model.
    destruct (deepcopy depth cfg (store w, ∅)) as [rc [h1 memo1]] eqn:Ed.
    assert (Hinit : copying (store w) (store w, ∅)).
    { split; [reflexivity|]. split.
      - intros y [k Hk]. cbn in Hk. now rewrite lookup_empty in Hk.
      - intros y o [k Hk]. cbn in Hk. now rewrite lookup_empty in Hk. }
    destruct (deepcopy_inv (store w) depth _ _ _ _ Ed Hinit) as ((H1 & H2 & H3) & _ & Hv).
    cbn [fst snd] in *.
    destruct rc as [cfg'|e]; [|intros [= <- <-]; exact H1].
    unfold bind, pop.
    destruct cfg' as [| | | | |y]; try (intros [= <- <-]; exact H1).
    cbn [store set_store].
    destruct (h1 !! y) as [[items|elems]|] eqn:Ey; try (intros [= <- <-]; exact H1).
    destruct (assoc "name" items) as [arch_cls|] eqn:Ea; [|intros [= <- <-]; exact H1].
    cbn in Hv. destruct (H2 y Hv) as [Hy0 _].
    pose proof (H3 y _ Hv Ey) as Hitems. cbn [children] in Hitems.
    set (h2 := <[y:=ODict (remove_key "name" items)]> h1).
    assert (H1' : store w ⊆ h2) by now apply insert_subseteq_r.
    assert (H3' : closed (img memo1) h2).
    { intros y' o' Hy' Ho'. unfold h2 in Ho'.
      destruct (decide (y = y')) as [<-|Hne].
      - rewrite lookup_insert_eq in Ho'. injection Ho' as <-. cbn [children].
        now apply remove_key_values.
      - rewrite lookup_insert_ne in Ho' by done. exact (H3 y' o' Hy' Ho'). }
    unfold py_eval.
    destruct arch_cls as [| | | |name|]; try (intros [= <- <-]; exact H1').
    unfold lift.
    destruct (evaluate G name) as [cls|err] eqn:Ecls; [|intros [= <- <-]; exact H1'].
    unfold call_with_kwargs. cbn [store set_store].
    unfold h2 at 1. rewrite lookup_insert_eq. fold h2.
    destruct (cls (remove_key "name" items) h2) as [rr h3] eqn:Ecall.
    assert (H13 : store w ⊆ h3).
    { apply map_subseteq_spec. intros l o Hl.
      eapply (Hconf name cls _ h2 rr h3 (img memo1) Ecls Ecall H3').
      - now apply remove_key_values.
      - intros Himg. destruct (H2 l Himg) as [Hnone _]. congruence.
      - eapply lookup_weaken; eassumption. }
    destruct rr as [arch|err]; intros [= <- <-]; exact H13.
  - intros Hwf Hcfg depth Hdepth.
    destruct (deepcopy_total (store w) Hwf depth cfg (store w) ∅)
      as (cfg' & h' & memo' & -> & _); eauto.
    + rewrite dom_empty_L. apply empty_subseteq.
    + rewrite dom_empty_L, difference_empty_L. exact Hdepth.
Qed.

End ArchFacts.

(** ** The model factory on a concrete configuration *)
Section ArchExamples.
Import Arch.

Lemma assoc_value key items v : assoc key items = Some v -> v ∈ items.*2.
Proof.
  induction items as [|[k x] items IH]; cbn; [done|].
  destruct (String.eqb k key).
  - intros [= ->]. apply list_elem_of_here.
  - intros H. apply list_elem_of_further. auto.
Qed.

(** The demo constructor writes to the list it is given and nowhere else. *)
Lemma demo_registry_confined : confined demo_registry.
Proof.
  intros name cls kwargs h r h' F Hcls Hcall _ Hargs l o HF Hl.
  cbn [evaluate demo_registry] in Hcls.
  destruct (String.eqb name "MLP" || String.eqb name " MLP").
  - injection Hcls as <-. unfold mlp_init in Hcall.
    destruct (assoc "input_keys" kwargs) as [[| | | | |l0]|] eqn:Ea;
      try (injection Hcall as <- <-; exact Hl).
    destruct (h !! l0) as [[items|elems]|] eqn:E0;
      try (injection Hcall as <- <-; exact Hl).
    injection Hcall as <- <-.
    assert (F l0).
    { apply assoc_value in Ea. rewrite Forall_forall in Hargs. exact (Hargs _ Ea). }
    rewrite lookup_insert_ne; [exact Hl|]. intros ->. contradiction.
  - destruct (String.eqb name "dict").
    { injection Hcls as <-. injection Hcall as <- <-. exact Hl. }
    destruct (String.eqb name "copy").
    { injection Hcls as <-. injection Hcall as <- <-. exact Hl. }
    destruct (String.eqb name "1+"); discriminate.
Qed.

Lemma demo_store_well_formed : well_formed demo_store.
Proof.
  intros l o _ Hl. unfold demo_store in Hl.
  destruct (decide (l = 0%nat)) as [->|H0].
  - rewrite lookup_insert_eq in Hl. injection Hl as <-.
    repeat first [apply Forall_nil_2 | apply Forall_cons_2]; try exact I.
    exists (OList [VStr "t_f"]). reflexivity.
  - rewrite lookup_insert_ne in Hl by done.
    destruct (decide (l = 1%nat)) as [->|H1].
    + rewrite lookup_singleton_eq in Hl. injection Hl as <-.
      repeat first [apply Forall_nil_2 | apply Forall_cons_2]; exact I.
    + now rewrite lookup_singleton_ne in Hl.
Qed.

(** [build_model] on the demo configuration: the layer is built from the
    copy, whose list the constructor has extended; the caller's dict still
    has its ["name"] and its own list. *)
Lemma build_model_leaves_cfg_witness :
  confined demo_registry /\
  well_formed demo_store /\
  (exists cfg' st', deepcopy 2 (VRef 0%nat) (demo_store, ∅) = (Ok cfg', st')) /\
  fst (build_model 2 (VRef 0%nat) demo_world)
    = Ok [("input_keys", VRef 3%nat); ("num_layers", VInt 5)] /\
  store demo_world ⊆ store (snd (build_model 2 (VRef 0%nat) demo_world)) /\
  store (snd (build_model 2 (VRef 0%nat) demo_world)) !! 0%nat = store demo_world !! 0%nat /\
  store (snd (build_model 2 (VRef 0%nat) demo_world)) !! 1%nat = Some (OList [VStr "t_f"]) /\
  store (snd (build_model 2 (VRef 0%nat) demo_world)) !! 3%nat
    = Some (OList [VStr "t_f"; VStr "seen"]).
Proof.
  destruct (build_model_leaves_cfg demo_world (VRef 0%nat) demo_registry_confined)
    as [Hframe Htotal].
  split; [exact demo_registry_confined|].
  split; [exact demo_store_well_formed|].
  split.
  { apply (Htotal demo_store_well_formed).
    - exists (ODict [("name", VStr "MLP"); ("input_keys", VRef 1%nat); ("num_layers", VInt 5)]).
      reflexivity.
    - vm_compute. lia. }
  split; [vm_compute; reflexivity|].
  split; [exact (Hframe 2%nat _ _ (surjective_pairing _))|].
  repeat split; vm_compute; reflexivity.
Defined.

(** With room for one container only, the copy stops at the nested list,
    and the caller's objects are as they were. *)
Lemma build_model_shallow_stack :
  fst (build_model 1 (VRef 0%nat) demo_world)
    = Raise (RecursionError "maximum recursion depth exceeded") /\
  store (snd (build_model 1 (VRef 0%nat) demo_world)) !! 0%nat = store demo_world !! 0%nat /\
  store (snd (build_model 1 (VRef 0%nat) demo_world)) !! 1%nat = store demo_world !! 1%nat.
Proof. repeat split; vm_compute; reflexivity. Qed.

End ArchExamples.

(** ** More facts about binary64: rounding never reaches zero *)
Section RoundingFacts.

Lemma shr_1_m mrs : 0 <= shr_m mrs -> shr_m (shr_1 mrs) = shr_m mrs / 2.
Proof.
  destruct mrs as [m r s]. cbn [shr_m]. intros Hm.
  destruct m as [|[p|p|]|p]; cbn [shr_1 shr_m]; try lia.
  - reflexivity.
  - apply Z.div_unique with (r := 1); lia.
  - apply Z.div_unique with (r := 0); lia.
  - reflexivity.
Qed.

Lemma iter_pos_shr_m p mrs :
  0 <= shr_m mrs ->
  shr_m (SpecFloat.iter_pos shr_1 p mrs) = shr_m mrs / 2 ^ Z.pos p.
Proof.
  revert mrs. induction p as [p IH|p IH|]; intros mrs Hm; cbn [SpecFloat.iter_pos].
  - assert (H1 : 0 <= shr_m (shr_1 mrs))
      by (rewrite shr_1_m by done; apply Z.div_pos; lia).
    assert (H2 : 0 <= shr_m (SpecFloat.iter_pos shr_1 p (shr_1 mrs)))
      by (rewrite IH by done; apply Z.div_pos; lia).
    rewrite IH, IH, shr_1_m by done.
    rewrite !Z.div_div by lia.
    f_equal. transitivity (2 ^ (1 + Z.pos p + Z.pos p)); [|f_equal; lia].
    rewrite !Z.pow_add_r by lia. change (2 ^ 1) with 2. ring.
  - assert (H2 : 0 <= shr_m (SpecFloat.iter_pos shr_1 p mrs))
      by (rewrite IH by done; apply Z.div_pos; lia).
    rewrite IH, IH by done.
    rewrite !Z.div_div by lia.
    f_equal. rewrite <- Z.pow_add_r by lia. f_equal. lia.
  - rewrite shr_1_m by done. reflexivity.
Qed.

(** Shifting out fewer bits than the mantissa has leaves a positive
    mantissa, and never lowers the exponent. *)
Lemma shr_keeps_pos m r s e n :
  0 < m -> n < Zdigits2 m ->
  0 < shr_m (fst (shr (Build_shr_record m r s) e n)) /\
  e <= snd (shr (Build_shr_record m r s) e n).
Proof.
  intros Hm Hn. destruct m as [|p|p]; try lia. cbn [Zdigits2] in Hn.
  destruct n as [|k|k]; cbn [shr fst snd shr_m]; try lia.
  split; [|lia].
  rewrite iter_pos_shr_m by (cbn; lia). cbn [shr_m].
  destruct (digits2_pos_bounds p) as [Hlo _].
  assert (2 ^ Z.pos k <= 2 ^ (Z.pos (digits2_pos p) - 1))
    by (apply Z.pow_le_mono_r; lia).
  apply Z.div_str_pos. lia.
Qed.

Lemma Zdigits2_pos m : 0 < m -> 0 < Zdigits2 m.
Proof. destruct m; cbn; lia. Qed.

Lemma Zdigits2_mono a b : 0 < a -> a <= b -> Zdigits2 a <= Zdigits2 b.
Proof.
  intros Ha Hab. destruct a as [|p|p], b as [|q|q]; try lia. cbn [Zdigits2].
  destruct (digits2_pos_bounds p) as [Hlo _].
  destruct (digits2_pos_bounds q) as [_ Hhi].
  destruct (Z_le_gt_dec (Z.pos (digits2_pos p)) (Z.pos (digits2_pos q))) as [|Hgt];
    [done|exfalso].
  assert (2 ^ Z.pos (digits2_pos q) <= 2 ^ (Z.pos (digits2_pos p) - 1))
    by (apply Z.pow_le_mono_r; lia).
  lia.
Qed.

Lemma round_nearest_even_ge m l : m <= round_nearest_even m l.
Proof.
  destruct l as [|[]]; cbn [round_nearest_even]; try lia.
  destruct (Z.even m); lia.
Qed.

Lemma shr_record_of_loc_m m l : shr_m (shr_record_of_loc m l) = m.
Proof. destruct l as [|[]]; reflexivity. Qed.

(** Rounding a positive mantissa that is not below the smallest subnormal
    gives a positive float or overflows to [+inf]: never a zero. *)
Lemma binary_round_aux_pos m e l :
  0 < m -> SpecFloat.emin prec emax < Zdigits2 m + e ->
  (exists m' e', binary_round_aux prec emax false m e l = S754_finite false m' e' /\ e <= e')
  \/ binary_round_aux prec emax false m e l = S754_infinity false.
Proof.
  intros Hm He. unfold binary_round_aux, shr_fexp.
  set (n1 := fexp prec emax (Zdigits2 m + e) - e).
  assert (Hn1 : n1 < Zdigits2 m) by (unfold n1, fexp, prec in *; lia).
  pose proof (shr_record_of_loc_m m l) as Erec.
  destruct (shr_record_of_loc m l) as [m0 r0 s0]. cbn [shr_m] in Erec. subst m0.
  pose proof (shr_keeps_pos m r0 s0 e n1 Hm Hn1) as [Hp1 He1].
  destruct (shr (Build_shr_record m r0 s0) e n1) as [mrs1 e1] eqn:E1.
  cbn [fst snd] in Hp1, He1.
  set (m2 := round_nearest_even (shr_m mrs1) (loc_of_shr_record mrs1)).
  pose proof (round_nearest_even_ge (shr_m mrs1) (loc_of_shr_record mrs1)) as Hge.
  fold m2 in Hge. cbn [shr_record_of_loc].
  set (n2 := fexp prec emax (Zdigits2 m2 + e1) - e1).
  assert (Hn2 : n2 < Zdigits2 m2).
  { assert (SpecFloat.emin prec emax < Zdigits2 m2 + e1);
      [|unfold n2, fexp, prec in *; lia].
    pose proof (Zdigits2_pos m2 ltac:(lia)).
    destruct n1 as [|k|k] eqn:En1; cbn [shr] in E1; inversion E1; subst mrs1 e1.
    - pose proof (Zdigits2_mono m m2 Hm ltac:(cbn [shr_m] in *; lia)). lia.
    - unfold n1, fexp, prec in *. lia.
    - pose proof (Zdigits2_mono m m2 Hm ltac:(cbn [shr_m] in *; lia)). lia. }
  pose proof (shr_keeps_pos m2 false false e1 n2 ltac:(lia) Hn2) as [Hp2 He2].
  destruct (shr (Build_shr_record m2 false false) e1 n2) as [mrs2 e2].
  cbn [fst snd] in Hp2, He2.
  destruct (shr_m mrs2) as [|q|q]; try lia.
  destruct (e2 <=? emax - prec);
    [left; do 2 eexists; split; [reflexivity|lia]|now right].
Qed.

(** The root of a positive float is a positive float: never a zero, never
    negative. *)
Lemma SFsqrt_pos m e :
  SpecFloat.emin prec emax <= e ->
  (exists m' e', SFsqrt prec emax (S754_finite false m e) = S754_finite false m' e')
  \/ SFsqrt prec emax (S754_finite false m e) = S754_infinity false.
Proof.
  intros He. unfold SFsqrt, SFsqrt_core_binary.
  set (e' := Z.min _ _).
  assert (He' : SpecFloat.emin prec emax <= e' /\ 2 * e' <= e).
  { unfold e', fexp, SpecFloat.emin, prec, emax in *.
    rewrite Z.div2_div. pose proof (Z.mul_div_le e 2 ltac:(lia)).
    pose proof (Z.div_le_mono (-1074) e 2 ltac:(lia) ltac:(lia)) as Hd.
    change (-1074 / 2) with (-537) in Hd. lia. }
  set (m' := match e - 2 * e' with Z.pos _ => _ | 0 => _ | Z.neg _ => _ end).
  assert (Hm' : 0 < m').
  { unfold m'. destruct (e - 2 * e') as [|k|k] eqn:Es; try lia.
    rewrite Z.shiftl_mul_pow2 by lia.
    pose proof (Z.pow_pos_nonneg 2 (Z.pos k) ltac:(lia) ltac:(lia)). nia. }
  pose proof (Z.sqrtrem_spec m' ltac:(lia)) as Hq.
  destruct (Z.sqrtrem m') as [q r].
  assert (Hqpos : 0 < q) by nia.
  pose proof (Zdigits2_pos q Hqpos).
  destruct (binary_round_aux_pos q e'
              (if r =? 0 then loc_Exact
               else loc_Inexact (if r <=? q then Lt else Gt)) Hqpos ltac:(lia))
    as [(m1 & e1 & -> & _)| ->]; eauto.
Qed.

Lemma float_of_Z_exponent n :
  0 < n < 2 ^ 53 ->
  exists m e, float_of_Z n = S754_finite false m e /\ - 52 <= e <= 0.
Proof.
  intros [Hlo Hhi]. destruct n as [|p|p]; try lia.
  pose proof (digits2_pos_le p 53 ltac:(lia) Hhi) as Hd.
  unfold float_of_Z, binary_normalize, binary_round.
  set (d := digits2_pos p) in *.
  assert (Hf : fexp prec emax (Z.pos d + 0) = Z.pos d - 53).
  { unfold fexp, SpecFloat.emin, prec, emax. lia. }
  rewrite Hf. unfold shl_align.
  destruct (Z.pos d - 53 - 0) as [|q|q] eqn:Hq; try lia.
  - unfold binary_round_aux, shr_fexp. cbn [Zdigits2 shr_record_of_loc].
    fold d.
    replace (fexp prec emax (Z.pos d + 0) - 0) with 0 by (rewrite Hf; lia).
    cbn [shr shr_m loc_of_shr_record round_nearest_even Zdigits2 shr_record_of_loc].
    fold d.
    replace (fexp prec emax (Z.pos d + 0) - 0) with 0 by (rewrite Hf; lia).
    cbn [shr shr_m]. do 2 eexists. split; [reflexivity|lia].
  - unfold binary_round_aux, shr_fexp. cbn [Zdigits2 shr_record_of_loc].
    rewrite digits2_pos_iter_xO. fold d.
    assert (Hf2 : fexp prec emax (Z.pos (d + q) + (Z.pos d - 53)) - (Z.pos d - 53) = 0).
    { unfold fexp, SpecFloat.emin, prec, emax. lia. }
    rewrite Hf2.
    cbn [shr shr_m loc_of_shr_record round_nearest_even Zdigits2 shr_record_of_loc].
    rewrite digits2_pos_iter_xO. fold d. rewrite Hf2.
    cbn [shr shr_m].
    replace (Z.pos d - 53 <=? emax - prec) with true
      by (symmetry; apply Z.leb_le; unfold emax, prec; lia).
    do 2 eexists. split; [reflexivity|lia].
Qed.

(** [math.sqrt(float(n))] for [0 < n < 2^53] is a float that is neither
    zero nor negative. *)
Lemma sqrt_of_int_ok n :
  0 < n < 2 ^ 53 ->
  py_float (PyInt n) = Ok (float_of_Z n) /\
  math_sqrt (float_of_Z n) = Ok (SFsqrt prec emax (float_of_Z n)) /\
  feq (SFsqrt prec emax (float_of_Z n)) fzero = false.
Proof.
  intros Hn. unfold py_float. cbn [int_val].
  destruct (float_of_Z_exponent n Hn) as (m & e & -> & He).
  split; [reflexivity|]. split; [reflexivity|].
  destruct (SFsqrt_pos m e ltac:(unfold SpecFloat.emin, prec, emax; lia))
    as [(m' & e' & ->)| ->]; reflexivity.
Qed.

End RoundingFacts.

(** ** The rest of the initializer library *)
Section KaimingFacts.
Import Initializer InitializerKaiming.
Context {R : Runtime}.
Variable libm_pow : pyfloat -> pyfloat -> pyfloat * bool.
Implicit Types (w : World R) (t : loc) (T : Tensor).

Lemma kept_filled w t T v g :
  tensors w !! t = Some T -> kept w t (Ok t) (filled w t T v g).
Proof.
  intros Ht. unfold kept, filled. cbn [grad_enabled tensors].
  split; [reflexivity|]. split.
  { intros t' Hne. now rewrite lookup_insert_ne. }
  rewrite lookup_insert_eq, Ht. cbn.
  repeat split; try done. congruence.
Qed.

Lemma kept_unfilled w t e g : kept w t (Raise e) (unfilled w g).
Proof. unfold kept, unfilled. cbn. repeat split; done. Qed.

Lemma kept_same w t e : kept w t (Raise e) w.
Proof. unfold kept. repeat split; done. Qed.

Lemma kept_handed w t T made :
  tensors w !! t = Some T -> kept w t (handed w t T made).1 (handed w t T made).2.
Proof.
  intros Ht. destruct made as [[v|e] g]; cbn [handed].
  - destruct (accepts R T v); cbn [fst snd];
      [now apply kept_filled | apply kept_unfilled].
  - apply kept_unfilled.
Qed.

(** [kept] looks at the buffers and the gradient mode of the first world
    only. *)
Lemma kept_from w0 w t r w' :
  tensors w0 = tensors w -> grad_enabled w0 = grad_enabled w ->
  kept w0 t r w' -> kept w t r w'.
Proof. unfold kept. intros -> ->. done. Qed.

Lemma no_grad_uniform_contract t a b : contract (R := R) t (_no_grad_uniform_ t a b).
Proof.
  intros w r w' H. destruct (tensors w !! t) as [T|] eqn:Ht.
  - pose proof (kept_handed w t T
                  (paddle_uniform R (shape T) (dtype T) a b (rng w)) Ht) as K.
    rewrite <- (no_grad_uniform_run _ _ _ _ _ Ht), H in K. exact K.
  - unfold _no_grad_uniform_, no_grad, bind, get_tensor in H.
    cbn [tensors set_grad] in H. rewrite Ht in H. injection H as <- <-.
    apply (kept_unfilled w t).
Qed.

Lemma no_grad_normal_contract t mean std : contract (R := R) t (_no_grad_normal_ t mean std).
Proof.
  intros w r w' H. destruct (tensors w !! t) as [T|] eqn:Ht.
  - pose proof (kept_handed w t T (paddle_normal R mean std (shape T) (rng w)) Ht) as K.
    rewrite <- (no_grad_normal_run _ _ _ _ _ Ht), H in K. exact K.
  - unfold _no_grad_normal_, no_grad, bind, get_tensor in H.
    cbn [tensors set_grad] in H. rewrite Ht in H. injection H as <- <-.
    apply (kept_unfilled w t).
Qed.

Lemma no_grad_fill_contract t value : contract (R := R) t (_no_grad_fill_ t value).
Proof.
  intros w r w' H. destruct (tensors w !! t) as [T|] eqn:Ht.
  - pose proof (kept_handed w t T
                  (paddle_full_like R T value (dtype T), rng w) Ht) as K.
    rewrite <- (no_grad_fill_run _ _ _ _ Ht), H in K. exact K.
  - unfold _no_grad_fill_, no_grad, bind, get_tensor in H.
    cbn [tensors set_grad] in H. rewrite Ht in H. injection H as <- <-.
    apply (kept_unfilled w t).
Qed.

Lemma no_grad_trunc_normal_contract t mean std a b :
  contract (R := R) t (_no_grad_trunc_normal_ t mean std a b).
Proof.
  intros w r w' H. destruct (tensors w !! t) as [T|] eqn:Ht.
  - rewrite (no_grad_trunc_normal_run w t T mean std a b Ht) in H. cbv zeta in H.
    destruct (feq std fzero).
    + injection H as <- <-.
      apply (kept_from (mkWorld (tensors w) (rng w) (grad_enabled w)
                          (if flt mean (fsub a (fmul ftwo std)) ||
                              flt (fadd b (fmul ftwo std)) mean
                           then log w ++ [WarnTruncNormalMean mean std a b]
                           else log w))); [reflexivity..|].
      apply kept_same.
    + match type of H with
      | handed ?w0 _ _ ?made = _ =>
          pose proof (kept_handed w0 t T made Ht) as K; rewrite H in K;
          exact (kept_from w0 w t r w' eq_refl eq_refl K)
      end.
  - unfold _no_grad_trunc_normal_ in H.
    set (warn := flt mean (fsub a (fmul ftwo std)) || flt (fadd b (fmul ftwo std)) mean) in H.
    unfold bind at 1 in H.
    assert (Hpre : exists lg,
      (if warn then logger_warning (WarnTruncNormalMean mean std a b) else ret tt) w
        = (Ok tt, mkWorld (tensors w) (rng w) (grad_enabled w) lg)).
    { destruct warn;
        [exists (log w ++ [WarnTruncNormalMean mean std a b]); reflexivity
        |exists (log w); destruct w; reflexivity]. }
    destruct Hpre as (lg & Hpre). rewrite Hpre in H. clear Hpre.
    apply (kept_from (mkWorld (tensors w) (rng w) (grad_enabled w) lg));
      [reflexivity..|].
    unfold no_grad, bind, lift in H. cbn [grad_enabled set_grad tensors rng log] in H.
    pose proof (fun e => kept_unfilled
                  (mkWorld (tensors w) (rng w) (grad_enabled w) lg) t e (rng w)) as K.
    destruct (rbind (py_truediv (fsub a mean) std) _) as [l|e] in H;
      [|cbn in H; injection H as <- <-; exact (K e)].
    destruct (rbind (py_truediv (fsub b mean) std) _) as [u|e] in H;
      [|cbn in H; injection H as <- <-; exact (K e)].
    unfold get_tensor in H. cbn [tensors set_grad] in H. rewrite Ht in H.
    cbn in H. injection H as <- <-. exact (K _).
Qed.

Lemma contract_after_read {A} t (pre : M (World R) A) (c : A -> M (World R) loc) :
  reads_only pre -> (forall x, contract (R := R) t (c x)) -> contract (R := R) t (bind pre c).
Proof.
  intros Hpre Hc w r w' H. unfold bind in H.
  specialize (Hpre w). destruct (pre w) as [[x|e] w0]; cbn in Hpre; subst w0.
  - exact (Hc x w r w' H).
  - injection H as <- <-. apply kept_same.
Qed.

Lemma lift_reads_only {A} (r : result A) : reads_only (R := R) (lift (W := World R) r).
Proof. intros w. reflexivity. Qed.

Lemma fan_reads_only t reverse : reads_only (R := R) (_calculate_fan_in_and_fan_out t reverse).
Proof.
  intros w. unfold _calculate_fan_in_and_fan_out, bind, get_tensor, shape_at.
  destruct (tensors w !! t) as [T|]; [|reflexivity].
  destruct (ndim T <? 2); [reflexivity|].
  destruct reverse;
    destruct (shape T !! 0%nat), (shape T !! 1%nat); reflexivity.
Qed.

Lemma correct_fan_reads_only t mode reverse :
  reads_only (R := R) (_calculate_correct_fan t mode reverse).
Proof.
  intros w. unfold _calculate_correct_fan.
  destruct (negb _); [reflexivity|]. unfold bind.
  pose proof (fan_reads_only t reverse w) as Hf.
  destruct (_calculate_fan_in_and_fan_out t reverse w) as [[[fi fo]|e] w0];
    cbn in Hf; subst w0; reflexivity.
Qed.

Lemma xavier_uniform_contract t gain reverse : contract (R := R) t (xavier_uniform_ t gain reverse).
Proof.
  unfold xavier_uniform_. apply contract_after_read; [apply fan_reads_only|].
  intros [fi fo]. apply contract_after_read; [apply lift_reads_only|]. intros std.
  apply contract_after_read; [apply lift_reads_only|]. intros k.
  apply no_grad_uniform_contract.
Qed.

Lemma xavier_normal_contract t gain reverse : contract (R := R) t (xavier_normal_ t gain reverse).
Proof.
  unfold xavier_normal_. apply contract_after_read; [apply fan_reads_only|].
  intros [fi fo]. apply contract_after_read; [apply lift_reads_only|]. intros std.
  apply no_grad_normal_contract.
Qed.

Lemma kaiming_uniform_contract t a mode nonlinearity reverse :
  contract (R := R) t (kaiming_uniform_ libm_pow t a mode nonlinearity reverse).
Proof.
  unfold kaiming_uniform_.
  apply contract_after_read; [apply correct_fan_reads_only|]. intros fan.
  apply contract_after_read; [apply lift_reads_only|]. intros gain.
  apply contract_after_read; [apply lift_reads_only|]. intros std.
  apply contract_after_read; [apply lift_reads_only|]. intros k.
  apply no_grad_uniform_contract.
Qed.

Lemma kaiming_normal_contract t a mode nonlinearity reverse :
  contract (R := R) t (kaiming_normal_ libm_pow t a mode nonlinearity reverse).
Proof.
  unfold kaiming_normal_.
  apply contract_after_read; [apply correct_fan_reads_only|]. intros fan.
  apply contract_after_read; [apply lift_reads_only|]. intros gain.
  apply contract_after_read; [apply lift_reads_only|]. intros std.
  apply no_grad_normal_contract.
Qed.

Lemma lower_char_idemp c : lower_char (lower_char c) = lower_char c.
Proof.
  destruct c as [[] [] [] [] [] [] [] []]; vm_compute; reflexivity.
Qed.

Lemma lower_idemp s : lower (lower s) = lower s.
Proof.
  induction s as [|c s IH]; cbn [lower]; [reflexivity|].
  now rewrite lower_char_idemp, IH.
Qed.


Lemma correct_fan_good_mode w t mode reverse :
  str_in (lower mode) valid_modes = true ->
  _calculate_correct_fan t mode reverse w =
    match _calculate_fan_in_and_fan_out t reverse w with
    | (Ok (fan_in, fan_out), w') =>
        (Ok (if String.eqb (lower mode) "fan_in" then fan_in else fan_out), w')
    | (Raise e, w') => (Raise e, w')
    end.
Proof.
  intros H. unfold _calculate_correct_fan. rewrite H. cbn [negb]. unfold bind.
  destruct (_calculate_fan_in_and_fan_out t reverse w) as [[[fi fo]|e] w']; reflexivity.
Qed.



(** X3. The mode of [_calculate_correct_fan] is read without regard to
    letter case; [fan_in] selects the first and [fan_out] the second
    component of [_calculate_fan_in_and_fan_out]; and asking for [fan_in]
    under one layout is asking for [fan_out] under the other. *)
Theorem correct_fan_selects w t T mode reverse :
  tensors w !! t = Some T ->
  2 <= ndim T ->
  _calculate_correct_fan t mode reverse w =
    _calculate_correct_fan t (lower mode) reverse w /\
  _calculate_correct_fan t "fan_in" (negb reverse) w =
    _calculate_correct_fan t "fan_out" reverse w /\
  exists fan_in fan_out,
    _calculate_fan_in_and_fan_out t reverse w = (Ok (fan_in, fan_out), w) /\
    (lower mode = "fan_in" ->
     _calculate_correct_fan t mode reverse w = (Ok fan_in, w)) /\
    (lower mode = "fan_out" ->
     _calculate_correct_fan t mode reverse w = (Ok fan_out, w)).
Proof.
  intros Ht Hr. split; [|split].
  - unfold _calculate_correct_fan. now rewrite lower_idemp.
  - destruct (rank_ge_2_shape T Hr) as (d0 & d1 & rest & Hs).
    rewrite !correct_fan_good_mode by reflexivity.
    rewrite (fan_run w t T d0 d1 rest reverse Ht Hs),
            (fan_run w t T d0 d1 rest (negb reverse) Ht Hs).
    destruct reverse; reflexivity.
  - destruct (rank_ge_2_shape T Hr) as (d0 & d1 & rest & Hs).
    pose proof (fan_run w t T d0 d1 rest reverse Ht Hs) as Hfan. cbn zeta in Hfan.
    destruct (if reverse then _ else _) as [fi fo] eqn:E in Hfan.
    exists fi, fo. split; [exact Hfan|].
    split; intros Hm; rewrite correct_fan_good_mode, Hfan by (now rewrite Hm);
      now rewrite Hm.
Qed.

Lemma gain_as_float nonlinearity a gain :
  _calculate_gain libm_pow nonlinearity a = Ok gain ->
  num_as_float gain = Ok (num_to_float gain).
Proof.
  unfold _calculate_gain. rewrite sqrt_two_ok. cbn [rbind].
  destruct (_ || _); [intros [= <-]; reflexivity|].
  destruct (String.eqb nonlinearity "tanh"); [intros [= <-]; reflexivity|].
  destruct (String.eqb nonlinearity "relu"); [intros [= <-]; reflexivity|].
  destruct (String.eqb nonlinearity "leaky_relu").
  - destruct a as [|b|z|f|shown]; cbn [rbind]; try discriminate.
    all: destruct (leaky_relu_gain _ _); cbn [rbind]; [|discriminate].
    all: intros [= <-]; reflexivity.
  - destruct (String.eqb nonlinearity "selu"); [intros [= <-]; reflexivity|discriminate].
Qed.

Lemma sqrt_of_fan_ok (fan : pyint) :
  0 < int_val fan < 2 ^ 53 ->
  py_float fan = Ok (float_of_Z (int_val fan)) /\
  math_sqrt (float_of_Z (int_val fan)) = Ok (SFsqrt prec emax (float_of_Z (int_val fan))) /\
  feq (SFsqrt prec emax (float_of_Z (int_val fan))) fzero = false.
Proof.
  intros Hn. destruct (sqrt_of_int_ok _ Hn) as (H1 & H2 & H3).
  split; [exact H1|split]; assumption.
Qed.

Lemma kaiming_std_ok gain fan g :
  0 < int_val fan < 2 ^ 53 ->
  num_as_float gain = Ok g ->
  kaiming_std gain fan =
    Ok (SFdiv prec emax g (SFsqrt prec emax (float_of_Z (int_val fan)))).
Proof.
  intros Hn Hg. destruct (sqrt_of_fan_ok fan Hn) as (H1 & H2 & H3).
  unfold kaiming_std. rewrite H1. cbn [rbind]. rewrite H2. cbn [rbind].
  rewrite Hg. cbn [rbind]. unfold py_truediv. now rewrite H3.
Qed.

Lemma kaiming_std_zero gain fan g :
  int_val fan = 0 ->
  num_as_float gain = Ok g ->
  kaiming_std gain fan = Raise (ZeroDivisionError "float division by zero").
Proof.
  intros Hn Hg. unfold kaiming_std, py_float. rewrite Hn.
  cbn [float_of_Z binary_normalize is_inf rbind].
  change (math_sqrt (S754_zero false)) with (@Ok pyfloat (S754_zero false)).
  cbn [rbind]. rewrite Hg. reflexivity.
Qed.

Lemma fan_of_zero (rf : pyint) : int_val (int_mul (PyInt 0) rf) = 0.
Proof. destruct rf; reflexivity. Qed.

(** X5. On a tensor of rank at least 2 with positive dimensions and fewer
    than 2^53 elements, with a valid mode and a nonlinearity that has a
    gain, the Kaiming pair computes [std = gain / sqrt(fan)], [fan] being
    the leading dimension selected by mode and layout times the receptive
    field size.  [kaiming_uniform_] hands to [set_value] the sampler's draw
    of the tensor's shape and dtype from U(-k, k) with [k = sqrt(3.0) * std];
    [kaiming_normal_] hands it the draw of the tensor's shape from the
    normal law of mean 0 and deviation [std], for which it names no dtype.
    Each returns the tensor with the draw in its buffer when the sampler
    returns and the copy goes through; the normal draw has the framework's
    default dtype, so that on a tensor of another dtype [kaiming_normal_]
    stops at the dtype assertion of [set_value], after the draw and with
    nothing written. *)
Theorem kaiming_fills w t T d0 d1 rest a mode nonlinearity reverse gain :
  tensors w !! t = Some T ->
  shape T = d0 :: d1 :: rest ->
  Forall (fun d => 0 < d) (shape T) ->
  numel (shape T) < 2 ^ 53 ->
  str_in (lower mode) valid_modes = true ->
  _calculate_gain libm_pow nonlinearity a = Ok gain ->
  let lead := if Bool.eqb (String.eqb (lower mode) "fan_in") reverse then d0 else d1 in
  let fan := lead * numel rest in
  let std := SFdiv prec emax (num_to_float gain) (SFsqrt prec emax (float_of_Z fan)) in
  let k := fmul (SFsqrt prec emax fthree) std in
  let udraw := paddle_uniform R (shape T) (dtype T) (fneg k) k (rng w) in
  let ndraw := paddle_normal R fzero std (shape T) (rng w) in
  (exists f, _calculate_correct_fan t mode reverse w = (Ok f, w) /\ int_val f = fan) /\
  kaiming_uniform_ libm_pow t a mode nonlinearity reverse w = handed w t T udraw /\
  kaiming_normal_ libm_pow t a mode nonlinearity reverse w = handed w t T ndraw /\
  (forall v, udraw.1 = Ok v ->
     shape v = shape T -> dtype v = dtype T -> tensor_set R T v = Ok tt ->
     kaiming_uniform_ libm_pow t a mode nonlinearity reverse w =
       (Ok t, filled w t T v udraw.2)) /\
  (forall v, ndraw.1 = Ok v ->
     shape v = shape T -> dtype v = default_dtype R ->
     (dtype T = default_dtype R -> tensor_set R T v = Ok tt ->
      kaiming_normal_ libm_pow t a mode nonlinearity reverse w =
        (Ok t, filled w t T v ndraw.2)) /\
     (dtype T <> default_dtype R ->
      kaiming_normal_ libm_pow t a mode nonlinearity reverse w =
        (Raise dtype_mismatch, unfilled w ndraw.2))).
Proof.
  intros Ht Hs Hpos Hb Hm Hg lead fan std k udraw ndraw.
  rewrite Hs in Hpos, Hb.
  apply Forall_cons in Hpos as [H0 Hpos]. apply Forall_cons in Hpos as [H1 Hrest].
  cbn [numel fold_right] in Hb. fold (numel rest) in Hb.
  pose proof (numel_pos rest Hrest) as Hn.
  set (rf := match rest with [] => PyInt 1 | _ => np_prod rest end).
  assert (Hv0 : int_val (int_mul (PyInt d0) rf) = d0 * numel rest)
    by (apply fan_value; try done; nia).
  assert (Hv1 : int_val (int_mul (PyInt d1) rf) = d1 * numel rest)
    by (apply fan_value; try done; nia).
  assert (Hfan : exists f,
    _calculate_correct_fan t mode reverse w = (Ok f, w) /\ int_val f = fan).
  { rewrite (correct_fan_good_mode _ _ _ _ Hm), (fan_run w t T d0 d1 rest reverse Ht Hs).
    fold rf. subst fan lead.
    destruct reverse, (String.eqb (lower mode) "fan_in"); cbn [Bool.eqb];
      eexists; (split; [reflexivity|]); assumption. }
  split; [exact Hfan|]. destruct Hfan as (f & Hf & Hfv).
  assert (Hfb : 0 < int_val f < 2 ^ 53).
  { rewrite Hfv. subst fan lead. destruct (Bool.eqb _ _); nia. }
  pose proof (kaiming_std_ok gain f _ Hfb (gain_as_float _ _ _ Hg)) as Hstd.
  rewrite Hfv in Hstd. fold std in Hstd.
  assert (Hu : kaiming_uniform_ libm_pow t a mode nonlinearity reverse w
               = handed w t T udraw).
  { unfold kaiming_uniform_. unfold bind at 1. rewrite Hf. unfold bind, lift.
    rewrite Hg, Hstd, sqrt_three_ok. cbn [rbind].
    now rewrite (no_grad_uniform_run _ _ _ _ _ Ht). }
  assert (Hnm : kaiming_normal_ libm_pow t a mode nonlinearity reverse w
                = handed w t T ndraw).
  { unfold kaiming_normal_. unfold bind at 1. rewrite Hf. unfold bind, lift.
    rewrite Hg, Hstd. change (float_of_Z 0) with fzero.
    now rewrite (no_grad_normal_run _ _ _ _ _ Ht). }
  split; [exact Hu|]. split; [exact Hnm|]. split.
  - intros v Hv Hsh Hd Hset. rewrite Hu.
    destruct udraw as [r g]. cbn [fst snd] in *. subst r. now apply handed_ok.
  - intros v Hv Hsh Hd. rewrite Hnm.
    destruct ndraw as [r g]. cbn [fst snd] in *. subst r. split.
    + intros Hdef Hset. apply handed_ok; congruence.
    + intros Hdef. apply handed_other_dtype; congruence.
Qed.

(** X6. When the leading dimension that the mode selects is zero the fan is
    zero, whatever the other dimensions, and both Kaiming initializers stop
    with [ZeroDivisionError] before anything is drawn or written. *)
Theorem kaiming_zero_fan w t T d0 d1 rest a mode nonlinearity reverse gain :
  tensors w !! t = Some T ->
  shape T = d0 :: d1 :: rest ->
  str_in (lower mode) valid_modes = true ->
  _calculate_gain libm_pow nonlinearity a = Ok gain ->
  (if Bool.eqb (String.eqb (lower mode) "fan_in") reverse then d0 else d1) = 0 ->
  kaiming_uniform_ libm_pow t a mode nonlinearity reverse w =
    (Raise (ZeroDivisionError "float division by zero"), w) /\
  kaiming_normal_ libm_pow t a mode nonlinearity reverse w =
    (Raise (ZeroDivisionError "float division by zero"), w).
Proof.
  intros Ht Hs Hm Hg Hz.
  set (rf := match rest with [] => PyInt 1 | _ => np_prod rest end).
  assert (Hfan : exists f,
    _calculate_correct_fan t mode reverse w = (Ok f, w) /\ int_val f = 0).
  { rewrite (correct_fan_good_mode _ _ _ _ Hm), (fan_run w t T d0 d1 rest reverse Ht Hs).
    fold rf.
    destruct reverse, (String.eqb (lower mode) "fan_in"); cbn [Bool.eqb] in Hz;
      subst; eexists; (split; [reflexivity|]); apply fan_of_zero. }
  destruct Hfan as (f & Hf & Hfv).
  pose proof (kaiming_std_zero gain f _ Hfv (gain_as_float _ _ _ Hg)) as Hstd.
  split; [unfold kaiming_uniform_ | unfold kaiming_normal_].
  all: unfold bind at 1; rewrite Hf; unfold bind, lift; now rewrite Hg, Hstd.
Qed.

Lemma leaky_relu_gain_int n :
  n * n < 2 ^ 53 - 1 ->
  leaky_relu_gain libm_pow (NumInt n) =
    Ok (SFsqrt prec emax (SFdiv prec emax ftwo (float_of_Z (1 + n * n)))).
Proof.
  intros Hn. assert (Hb : 0 < 1 + n * n < 2 ^ 53) by nia.
  unfold leaky_relu_gain, py_float. cbn [int_val].
  destruct (float_of_Z_pos _ Hb) as (m & e & ->).
  cbn [is_inf rbind]. unfold py_truediv.
  change (feq (S754_finite false m e) fzero) with false. cbn [rbind].
  unfold math_sqrt.
  replace (flt (SFdiv prec emax ftwo (S754_finite false m e)) fzero) with false;
    [reflexivity|].
  symmetry. unfold ftwo, SFdiv.
  destruct (SFdiv_core_binary _ _ _ _ _ _) as [[mz ez] lz].
  apply binary_round_aux_not_neg.
Qed.

(** X4. [_calculate_gain]: a name outside its table is rejected with
    [ValueError]; the linear family and [sigmoid] have gain 1 (an int); the
    parameter is looked at for [leaky_relu] only; there a bool is rejected
    although it is an int; an int slope [n] with [n*n < 2^53 - 1] gives
    [sqrt(2.0 / (1 + n*n))] without raising, while the int slope [10^200],
    whose square is too large for a float, raises [OverflowError]; and the
    slope 0 that the Kaiming initializers pass by default gives the gain of
    [relu]. *)
Theorem calculate_gain_cases nonlinearity param :
  (str_in nonlinearity
     (linear_fns ++ ["sigmoid"; "tanh"; "relu"; "leaky_relu"; "selu"]) = false ->
   _calculate_gain libm_pow nonlinearity param = Raise (nonlinearity_error nonlinearity)) /\
  (str_in nonlinearity (linear_fns ++ ["sigmoid"]) = true ->
   _calculate_gain libm_pow nonlinearity param = Ok (NumInt 1)) /\
  (nonlinearity <> "leaky_relu" ->
   forall param',
     _calculate_gain libm_pow nonlinearity param =
     _calculate_gain libm_pow nonlinearity param') /\
  (forall b,
     _calculate_gain libm_pow "leaky_relu" (ParamBool b) =
     Raise (slope_error (if b then "True" else "False"))) /\
  (forall n, n * n < 2 ^ 53 - 1 ->
     _calculate_gain libm_pow "leaky_relu" (ParamInt n) =
     Ok (NumFloat (SFsqrt prec emax (SFdiv prec emax ftwo (float_of_Z (1 + n * n)))))) /\
  _calculate_gain libm_pow "leaky_relu" (ParamInt (10 ^ 200)) =
    Raise (OverflowError "int too large to convert to float") /\
  _calculate_gain libm_pow "leaky_relu" (ParamInt 0) =
    _calculate_gain libm_pow "relu" param.
Proof.
  split; [|split; [|split; [|split; [|split; [|split]]]]].
  - unfold str_in, linear_fns. cbn [app existsb]. rewrite !orb_false_iff.
    intros (H1 & H2 & H3 & H4 & H5 & H6 & H7 & H8 & H9 & H10 & H11 & H12 & _).
    unfold _calculate_gain, str_in, linear_fns. cbn [existsb].
    now rewrite H1, H2, H3, H4, H5, H6, H7, H8, H9, H10, H11, H12.
  - unfold str_in, linear_fns. cbn [app existsb]. intros H.
    unfold _calculate_gain, str_in, linear_fns. cbn [existsb].
    rewrite !orb_false_r in *. rewrite <- !orb_assoc in *. now rewrite H.
  - intros Hne param'. unfold _calculate_gain.
    destruct (_ || _); [reflexivity|].
    destruct (String.eqb nonlinearity "tanh"); [reflexivity|].
    destruct (String.eqb nonlinearity "relu"); [reflexivity|].
    destruct (String.eqb nonlinearity "leaky_relu") eqn:E; [|reflexivity].
    now apply String.eqb_eq in E.
  - intros b. reflexivity.
  - intros n Hn. unfold _calculate_gain. cbn [str_in existsb linear_fns String.eqb Ascii.eqb Bool.eqb orb].
    cbn [rbind]. now rewrite leaky_relu_gain_int.
  - vm_compute. reflexivity.
  - unfold _calculate_gain. cbn [str_in existsb linear_fns String.eqb Ascii.eqb Bool.eqb orb].
    cbn [rbind]. vm_compute. reflexivity.
Qed.

Lemma np_prod_acc_zero l :
  fold_left (fun acc d => wrap64 (acc * d)) l 0 = 0.
Proof. induction l as [|d l IH]; cbn [fold_left]; [reflexivity|exact IH]. Qed.

Lemma np_prod_has_zero l acc :
  In 0 l -> fold_left (fun a d => wrap64 (a * d)) l acc = 0.
Proof.
  revert acc. induction l as [|d l IH]; intros acc; cbn [In fold_left]; [done|].
  intros [->|Hin].
  - rewrite Z.mul_0_r. apply np_prod_acc_zero.
  - now apply IH.
Qed.

Lemma init_bias_none w module bound :
  bias module = None -> init_bias module bound w = (Ok tt, w).
Proof. intros H. unfold init_bias. now rewrite H. Qed.

Lemma init_bias_some w module bound b B :
  bias module = Some b -> tensors w !! b = Some B ->
  init_bias module bound w =
    let second :=
      handed w b B (paddle_uniform R (shape B) (dtype B) (fneg bound) bound (rng w)) in
    (_ <-- second.1 ;;; Ok tt, second.2).
Proof.
  intros H Hb. unfold init_bias. rewrite H. unfold bind, uniform_.
  rewrite (no_grad_uniform_run _ _ _ _ _ Hb). cbv zeta.
  destruct (handed w b B _) as [[x|e] w2]; reflexivity.
Qed.

Lemma layer_filled_run w module W bound :
  tensors w !! weight module = Some W ->
  layer_filled w module W bound
    (fst ((uniform_ (weight module) (fneg bound) bound ;; init_bias module bound) w))
    (snd ((uniform_ (weight module) (fneg bound) bound ;; init_bias module bound) w)).
Proof.
  intros Hw.
  assert (E : (uniform_ (weight module) (fneg bound) bound ;; init_bias module bound) w =
              match handed w (weight module) W
                      (paddle_uniform R (shape W) (dtype W) (fneg bound) bound (rng w))
              with
              | (Ok _, w1) => init_bias module bound w1
              | (Raise e, w1) => (Raise e, w1)
              end).
  { unfold bind, uniform_. now rewrite (no_grad_uniform_run _ _ _ _ _ Hw). }
  rewrite E. clear E. unfold layer_filled. cbv zeta.
  destruct (handed w (weight module) W _) as [[x|e] w1]; cbn [fst snd];
    [|destruct (bias module); done].
  destruct (bias module) as [b|] eqn:Eb.
  - intros B HB. rewrite (init_bias_some _ _ _ _ _ Eb HB). done.
  - rewrite (init_bias_none _ _ _ Eb). done.
Qed.

(** X7. [linear_init_] on a weight whose first dimension [d0] is positive:
    weight, then bias when the layer has one, are filled from the uniform
    sampler between [-bound] and [bound] for [bound = 1 / sqrt(d0)], each
    with a draw of its own shape and dtype; a layer without bias has only
    its weight changed; and when a sampler call or [set_value] raises, the
    call ends there with that exception. *)
Theorem linear_init_fills w module W d0 rest :
  tensors w !! weight module = Some W ->
  shape W = d0 :: rest ->
  0 < d0 < 2 ^ 53 ->
  layer_filled w module W (SFdiv prec emax fone (SFsqrt prec emax (float_of_Z d0)))
    (fst (linear_init_ module w)) (snd (linear_init_ module w)).
Proof.
  intros Hw Hs Hd. destruct (sqrt_of_int_ok d0 Hd) as (H1 & H2 & H3).
  set (bound := SFdiv prec emax fone (SFsqrt prec emax (float_of_Z d0))).
  assert (E : linear_init_ module w =
              (uniform_ (weight module) (fneg bound) bound ;; init_bias module bound) w).
  { unfold linear_init_. unfold bind at 1. rewrite (get_tensor_run _ _ _ Hw).
    unfold bind at 1, shape_at. rewrite Hs. cbn [lookup list_lookup ret].
    unfold bind at 1, lift. rewrite H1. cbn [rbind]. rewrite H2. cbn [rbind].
    unfold py_truediv. rewrite H3. reflexivity. }
  rewrite E. now apply layer_filled_run.
Qed.

(** X8. [linear_init_] stops before anything is drawn or written when the
    weight has no dimension ([IndexError]) or a first dimension of zero
    ([ZeroDivisionError]). *)
Theorem linear_init_errors w module W :
  tensors w !! weight module = Some W ->
  (shape W = [] ->
   linear_init_ module w = (Raise (IndexError "list index out of range"), w)) /\
  (forall rest, shape W = 0 :: rest ->
   linear_init_ module w = (Raise (ZeroDivisionError "float division by zero"), w)).
Proof.
  intros Hw. split.
  - intros Hs. unfold linear_init_. unfold bind at 1. rewrite (get_tensor_run _ _ _ Hw).
    unfold bind, shape_at. now rewrite Hs.
  - intros rest Hs. unfold linear_init_. unfold bind at 1.
    rewrite (get_tensor_run _ _ _ Hw).
    unfold bind, shape_at. now rewrite Hs.
Qed.

(** X9. [conv_init_] computes its bound with NumPy, and that computation
    raises on no weight: [bound = 1 / sqrt(prod(shape[1:]))] is 1 on a
    weight of rank at most 1 and infinite when a trailing dimension is
    zero.  On every weight the call then goes on as [linear_init_] does:
    weight and then bias are handed draws from U(-bound, bound), and the
    only exceptions are those of the sampler and of [set_value]. *)
Theorem conv_init_fills w module W :
  tensors w !! weight module = Some W ->
  let bound := np_reciprocal (np_sqrt (np_prod (drop 1 (shape W)))) in
  layer_filled w module W bound
    (fst (conv_init_ module w)) (snd (conv_init_ module w)) /\
  (drop 1 (shape W) = [] -> bound = fone) /\
  (In 0 (drop 1 (shape W)) -> bound = inf).
Proof.
  intros Hw bound. split; [|split].
  - assert (E : conv_init_ module w =
                (uniform_ (weight module) (fneg bound) bound ;; init_bias module bound) w).
    { unfold conv_init_. unfold bind at 1. now rewrite (get_tensor_run _ _ _ Hw). }
    rewrite E. now apply layer_filled_run.
  - intros E. subst bound. rewrite E. vm_compute. reflexivity.
  - intros Hin. subst bound. unfold np_prod. rewrite (np_prod_has_zero _ _ Hin).
    vm_compute. reflexivity.
Qed.

(** X1. Every initializer leaves the gradient mode as it found it, returns
    the tensor it was given, keeps the shape and dtype of that tensor, and
    touches no other tensor, whether it returns or raises; when it raises,
    no buffer has been written. *)
Theorem initializers_keep_frame w t r w' :
  (forall a b, uniform_ t a b w = (r, w') -> kept w t r w') /\
  (forall mean std, normal_ t mean std w = (r, w') -> kept w t r w') /\
  (forall mean std a b, trunc_normal_ t mean std a b w = (r, w') -> kept w t r w') /\
  (forall value, constant_ t value w = (r, w') -> kept w t r w') /\
  (ones_ t w = (r, w') -> kept w t r w') /\
  (zeros_ t w = (r, w') -> kept w t r w') /\
  (forall gain reverse, xavier_uniform_ t gain reverse w = (r, w') -> kept w t r w') /\
  (forall gain reverse, xavier_normal_ t gain reverse w = (r, w') -> kept w t r w') /\
  (forall a mode nonlinearity reverse,
     kaiming_uniform_ libm_pow t a mode nonlinearity reverse w = (r, w') ->
     kept w t r w') /\
  (forall a mode nonlinearity reverse,
     kaiming_normal_ libm_pow t a mode nonlinearity reverse w = (r, w') ->
     kept w t r w').
Proof.
  repeat split; intros.
  all: first
    [ eapply no_grad_uniform_contract; eassumption
    | eapply no_grad_normal_contract; eassumption
    | eapply no_grad_trunc_normal_contract; eassumption
    | eapply no_grad_fill_contract; eassumption
    | eapply xavier_uniform_contract; eassumption
    | eapply xavier_normal_contract; eassumption
    | eapply kaiming_uniform_contract; eassumption
    | eapply kaiming_normal_contract; eassumption ].
Qed.

End KaimingFacts.

(** ** The rest of the initializer library on concrete tensors *)
Section KaimingExamples.
Import Initializer InitializerKaiming.

(** A failed [xavier_uniform_] on a tensor of rank 1, a completed
    [uniform_], and a [normal_] on a [float64] tensor, which fails after its
    draw. *)
Lemma initializers_keep_frame_witness :
  let w := single_world (empty_buffer [7]) in
  let w64 := single_world (empty_buffer_of float64 [7]) in
  fst (xavier_uniform_ 0%nat fone false w)
    = Raise (ValueError "tensor.ndim should be no less than 2, but got 1.") /\
  kept w 0%nat (fst (xavier_uniform_ 0%nat fone false w))
    (snd (xavier_uniform_ 0%nat fone false w)) /\
  kept w 0%nat (fst (uniform_ 0%nat fzero fone w)) (snd (uniform_ 0%nat fzero fone w)) /\
  fst (normal_ 0%nat fzero fone w64) = Raise (AssertionError "Variable dtype not match") /\
  rng (snd (normal_ 0%nat fzero fone w64)) = 1 /\
  kept w64 0%nat (fst (normal_ 0%nat fzero fone w64)) (snd (normal_ 0%nat fzero fone w64)).
Proof.
  cbv zeta. split; [vm_compute; reflexivity|].
  split; [|split; [|split; [vm_compute; reflexivity|split; [vm_compute; reflexivity|]]]];
    [| |destruct (initializers_keep_frame stub_pow
                    (single_world (empty_buffer_of float64 [7])) 0%nat
                    (fst (normal_ 0%nat fzero fone
                            (single_world (empty_buffer_of float64 [7]))))
                    (snd (normal_ 0%nat fzero fone
                            (single_world (empty_buffer_of float64 [7])))))
          as (_ & H & _); apply (H fzero fone), surjective_pairing].
  - destruct (initializers_keep_frame stub_pow (single_world (empty_buffer [7])) 0%nat
                (fst (xavier_uniform_ 0%nat fone false (single_world (empty_buffer [7]))))
                (snd (xavier_uniform_ 0%nat fone false (single_world (empty_buffer [7])))))
      as (_ & _ & _ & _ & _ & _ & H & _).
    apply (H fone false), surjective_pairing.
  - destruct (initializers_keep_frame stub_pow (single_world (empty_buffer [7])) 0%nat
                (fst (uniform_ 0%nat fzero fone (single_world (empty_buffer [7]))))
                (snd (uniform_ 0%nat fzero fone (single_world (empty_buffer [7])))))
      as (H & _).
    apply (H fzero fone), surjective_pairing.
Defined.


Lemma correct_fan_selects_witness :
  let T := empty_buffer [2; 3] in
  tensors (single_world T) !! 0%nat = Some T /\
  2 <= ndim T /\
  _calculate_correct_fan 0%nat "Fan_Out" false (single_world T)
    = (Ok (PyInt 2), single_world T) /\
  _calculate_correct_fan 0%nat "fan_in" true (single_world T)
    = (Ok (PyInt 2), single_world T).
Proof.
  cbv zeta. split; [reflexivity|]. split; [vm_compute; discriminate|].
  destruct (correct_fan_selects (single_world (empty_buffer [2; 3])) 0%nat
              (empty_buffer [2; 3]) "Fan_Out" false eq_refl
              ltac:(vm_compute; discriminate))
    as (Hcase & Hswap & _).
  split.
  - rewrite Hcase. vm_compute. reflexivity.
  - exact (eq_trans Hswap ltac:(vm_compute; reflexivity)).
Defined.

(** The default slope 0 of the Kaiming initializers, a slope of 3, and an
    unknown name. *)
Lemma calculate_gain_cases_witness :
  str_in "gelu" (linear_fns ++ ["sigmoid"; "tanh"; "relu"; "leaky_relu"; "selu"]) = false /\
  _calculate_gain stub_pow "gelu" ParamNone
    = Raise (ValueError "Unsupported nonlinearity gelu") /\
  3 * 3 < 2 ^ 53 - 1 /\
  _calculate_gain stub_pow "leaky_relu" (ParamInt 3)
    = Ok (NumFloat (S754_finite false 8056283928194521 (-54))) /\
  _calculate_gain stub_pow "leaky_relu" (ParamBool true)
    = Raise (ValueError "negative_slope True not a valid number").
Proof.
  destruct (calculate_gain_cases stub_pow "gelu" ParamNone) as (Hunk & _ & _ & Hbool & Hint & _).
  split; [reflexivity|]. split; [now rewrite Hunk|].
  split; [vm_compute; reflexivity|].
  split; [rewrite Hint by (vm_compute; reflexivity); vm_compute; reflexivity|].
  now rewrite Hbool.
Defined.

(** Shape [2; 3], mode [fan_in], default slope: the fan is 3, the gain
    sqrt(2) and the bound sqrt(3) * sqrt(2) / sqrt(3). *)
Lemma kaiming_fills_witness :
  let T := empty_buffer [2; 3] in
  tensors (single_world T) !! 0%nat = Some T /\
  shape T = [2; 3] /\
  Forall (fun d => 0 < d) (shape T) /\
  numel (shape T) < 2 ^ 53 /\
  str_in (lower "fan_in") valid_modes = true /\
  _calculate_gain stub_pow "leaky_relu" (ParamInt 0) = Ok (NumFloat (SFsqrt prec emax ftwo)) /\
  (exists f, _calculate_correct_fan 0%nat "fan_in" false (single_world T)
               = (Ok f, single_world T) /\ int_val f = 3) /\
  fst (kaiming_uniform_ stub_pow 0%nat (ParamInt 0) "fan_in" "leaky_relu" false
         (single_world T)) = Ok 0%nat /\
  fst (kaiming_normal_ stub_pow 0%nat (ParamInt 0) "fan_in" "leaky_relu" false
         (single_world T)) = Ok 0%nat.
Proof.
  split; [reflexivity|]. split; [reflexivity|].
  split; [repeat constructor|]. split; [vm_compute; reflexivity|].
  split; [reflexivity|]. split; [vm_compute; reflexivity|].
  destruct (kaiming_fills stub_pow (single_world (empty_buffer [2; 3])) 0%nat
              (empty_buffer [2; 3]) 2 3 [] (ParamInt 0) "fan_in" "leaky_relu" false
              (NumFloat (SFsqrt prec emax ftwo)) eq_refl eq_refl)
    as (Hfan & Hu & Hn & _);
    [repeat constructor | vm_compute; reflexivity | reflexivity | vm_compute; reflexivity |].
  split; [exact Hfan|]. rewrite Hu, Hn. split; vm_compute; reflexivity.
Defined.

(** Shape [0; 3]: [fan_out] is zero while [fan_in] is 3. *)
Lemma kaiming_zero_fan_witness :
  let T := empty_buffer [0; 3] in
  tensors (single_world T) !! 0%nat = Some T /\
  shape T = [0; 3] /\
  str_in (lower "fan_out") valid_modes = true /\
  _calculate_gain stub_pow "relu" ParamNone = Ok (NumFloat (SFsqrt prec emax ftwo)) /\
  kaiming_uniform_ stub_pow 0%nat ParamNone "fan_out" "relu" false (single_world T)
    = (Raise (ZeroDivisionError "float division by zero"), single_world T) /\
  fst (kaiming_uniform_ stub_pow 0%nat ParamNone "fan_in" "relu" false (single_world T))
    = Ok 0%nat.
Proof.
  split; [reflexivity|]. split; [reflexivity|]. split; [reflexivity|].
  split; [vm_compute; reflexivity|].
  destruct (kaiming_zero_fan stub_pow (single_world (empty_buffer [0; 3])) 0%nat
              (empty_buffer [0; 3]) 0 3 [] ParamNone "fan_out" "relu" false
              (NumFloat (SFsqrt prec emax ftwo)) eq_refl eq_refl eq_refl
              ltac:(vm_compute; reflexivity) eq_refl)
    as (Hu & _).
  split; [exact Hu|]. vm_compute. reflexivity.
Defined.

(** The layer of four inputs: the bound is 1 / sqrt(4) = 0.5 for the weight
    and for the bias. *)
Lemma linear_init_fills_witness :
  tensors layer_world !! 0%nat = Some (empty_buffer [4; 3]) /\
  shape (empty_buffer [4; 3]) = [4; 3] /\
  0 < 4 < 2 ^ 53 /\
  SFdiv prec emax fone (SFsqrt prec emax (float_of_Z 4)) = S754_finite false 4503599627370496 (-53) /\
  layer_filled layer_world linear_layer (empty_buffer [4; 3])
    (SFdiv prec emax fone (SFsqrt prec emax (float_of_Z 4)))
    (fst (linear_init_ linear_layer layer_world))
    (snd (linear_init_ linear_layer layer_world)).
Proof.
  split; [reflexivity|]. split; [reflexivity|]. split; [lia|].
  split; [vm_compute; reflexivity|].
  apply (linear_init_fills layer_world linear_layer (empty_buffer [4; 3]) 4 [3]);
    [reflexivity | reflexivity | lia].
Defined.

(** A weight of shape [0; 3]. *)
Lemma linear_init_errors_witness :
  let T := empty_buffer [0; 3] in
  tensors (single_world T) !! 0%nat = Some T /\
  shape T = [0; 3] /\
  linear_init_ (mkLayer 0%nat None) (single_world T)
    = (Raise (ZeroDivisionError "float division by zero"), single_world T).
Proof.
  split; [reflexivity|]. split; [reflexivity|].
  destruct (linear_init_errors (single_world (empty_buffer [0; 3])) (mkLayer 0%nat None)
              (empty_buffer [0; 3]) eq_refl) as (_ & Hzero).
  exact (Hzero [3] eq_refl).
Defined.

(** The same weight of shape [0; 3] under [conv_init_], and one of shape
    [3; 0]. *)
Lemma conv_init_fills_witness :
  let T := empty_buffer [3; 0] in
  tensors (single_world T) !! 0%nat = Some T /\
  In 0 (drop 1 (shape T)) /\
  np_reciprocal (np_sqrt (np_prod (drop 1 (shape T)))) = inf /\
  fst (conv_init_ (mkLayer 0%nat None) (single_world T)) = Ok tt /\
  fst (conv_init_ (mkLayer 0%nat None) (single_world (empty_buffer [0; 3]))) = Ok tt.
Proof.
  split; [reflexivity|]. split; [now left|].
  destruct (conv_init_fills (single_world (empty_buffer [3; 0])) (mkLayer 0%nat None)
              (empty_buffer [3; 0]) eq_refl) as (Hfill & _ & Hinf).
  split; [apply Hinf; now left|].
  split; [exact (proj1 Hfill)|]. vm_compute. reflexivity.
Defined.

End KaimingExamples.

(** ** The VIV driver: calls, validators and end-of-epoch checkpoints *)
Section VivCallsFacts.
Import Viv VivCalls.
Context {C : Collaborators}.
Implicit Types (w : World C) (hp : Hyper).

Ltac run :=
  cbv beta iota zeta delta
    [bind ret raise lift gets modify hasattr call logger_info logger_scaler
     model_eval model_train negb].

Ltac trace_norm :=
  cbn [trace set_ext set_training add_attr set_best add_event best_metric training ext attrs
       world_size vdl_writer metric epoch];
  rewrite <- ?app_assoc; cbn [app].

Lemma trained_epochs_app a b :
  trained_epochs (a ++ b) = trained_epochs a ++ trained_epochs b.
Proof. apply omap_app. Qed.

Lemma validator_builds_app a b :
  validator_builds (a ++ b) = (validator_builds a + validator_builds b)%nat.
Proof. unfold validator_builds. now rewrite omap_app, length_app. Qed.

Lemma epoch_saves_app a b : epoch_saves (a ++ b) = epoch_saves a ++ epoch_saves b.
Proof. unfold epoch_saves. now rewrite saves_app, List.filter_app. Qed.

Lemma validator_in_add (a : string) (s : gset string) :
  a <> "validator" ->
  bool_decide ("validator" ∈ {[ a ]} ∪ s) = bool_decide ("validator" ∈ s).
Proof.
  intros Hne. apply bool_decide_ext. rewrite elem_of_union, elem_of_singleton.
  split; [intros [H|H]; [now subst|exact H]|now right].
Qed.

Ltac attrs_grow :=
  let x := fresh "x" in
  let Hx := fresh "Hx" in
  intros x Hx; repeat first [exact Hx | apply elem_of_union_r].

(** [eval]: what it attaches to the session and how often it builds the
    validators. *)
Lemma eval_calls e w r w' :
  eval e w = (r, w') ->
  attrs w ⊆ attrs w' /\
  exists pre,
    trace w' = trace w ++ pre /\
    trained_epochs pre = [] /\
    saves pre = [] /\
    validator_builds pre = (if bool_decide ("validator" ∈ attrs w) then 0 else 1)%nat /\
    forall v, r = Ok v ->
      "validator" ∈ attrs w' /\ exists x x', eval_func C e x = (Ok v, x').
Proof.
  unfold eval. run.
  destruct (bool_decide ("cfg" ∈ attrs w)); run.
  all: match goal with |- context [bool_decide ("global_step" ∈ ?s)] =>
    destruct (bool_decide ("global_step" ∈ s)) end; run.
  all: trace_norm.
  all: rewrite ?validator_in_add by discriminate.
  all: destruct (bool_decide ("validator" ∈ attrs w)) eqn:Hv; run; trace_norm.
  all: try match goal with |- context [build_validator C ?x] =>
    destruct (build_validator C x) as [[[]|err] x1] eqn:Eb end; run; trace_norm.
  all: try match goal with |- context [eval_func C ?e0 ?x] =>
    destruct (eval_func C e0 x) as [[v|err'] x2] eqn:Ee end; run; trace_norm.
  all: intros [= <- <-]; trace_norm.
  all: (split; [attrs_grow|]); eexists; (split; [reflexivity|]).
  all: split; [reflexivity|]; split; [reflexivity|]; split; [reflexivity|].
  all: intros v0 Hv0; try discriminate Hv0; injection Hv0 as <-.
  all: split; [|eauto].
  all: first [ apply elem_of_union_l, elem_of_singleton; reflexivity
             | apply bool_decide_eq_true in Hv;
               repeat first [exact Hv | apply elem_of_union_r] ].
Qed.

Lemma track_best_calls e cur w r w' :
  track_best e cur w = (r, w') ->
  attrs w' = attrs w /\
  exists evs,
    trace w' = trace w ++ evs /\
    trained_epochs evs = [] /\
    validator_builds evs = 0%nat /\
    epoch_saves evs = [].
Proof.
  unfold track_best. run. destruct (flt cur (metric (best_metric w))); run.
  - trace_norm. destruct (save_checkpoint C _ _ _) as [[[]|err] x] eqn:Es.
    all: intros [= <- <-]; trace_norm; split; [reflexivity|].
    all: eexists; split; [reflexivity|]; repeat split; reflexivity.
  - intros [= <- <-]. split; [reflexivity|]. exists []. now rewrite app_nil_r.
Qed.

Ltac suffix :=
  run; trace_norm;
  repeat match goal with
  | |- context [lr_by_epoch C ?x] =>
      destruct (lr_by_epoch C x) eqn:?; run; trace_norm
  | |- context [lr_step C ?x] =>
      destruct (lr_step C x) as [[[]|?] ?] eqn:?; run; trace_norm
  | |- context [match save_due ?hp ?e with _ => _ end] =>
      destruct (save_due hp e) as [[|]|?] eqn:?; run; trace_norm
  | |- context [save_checkpoint C ?m ?t ?x] =>
      destruct (save_checkpoint C m t x) as [[[]|?] ?] eqn:?; run; trace_norm
  end.

(** One epoch, whatever its outcome. *)
Lemma epoch_body_calls hp e w r w' :
  epoch_body hp e w = (r, w') ->
  attrs w ⊆ attrs w' /\
  exists evs,
    trace w' = trace w ++ evs /\
    trained_epochs evs = [e] /\
    (validator_builds evs <= 1)%nat /\
    ("validator" ∈ attrs w -> validator_builds evs = 0%nat) /\
    (validator_builds evs = 1%nat -> r = Ok tt -> "validator" ∈ attrs w') /\
    (r = Ok tt ->
     exists sdue cur,
       save_due hp e = Ok sdue /\
       epoch_record C hp (mkMetric cur e) /\
       epoch_saves evs =
         (if sdue : bool then [("epoch_" +:+ pretty e, mkMetric cur e)] else [])
         ++ [("latest", mkMetric cur e)]).
Proof.
  unfold epoch_body. run.
  destruct (train_epoch_func C e (ext w)) as [[[]|err] x1] eqn:Et; run;
    [|intros [= <- <-]; trace_norm; split; [done|]; eexists; split; [reflexivity|];
      repeat split; try done; cbn; lia].
  destruct (eval_due hp e) as [due|err] eqn:Ed; run;
    [|intros [= <- <-]; trace_norm; split; [done|]; eexists; split; [reflexivity|];
      repeat split; try done; cbn; lia].
  destruct due.
  - (* evaluation is due *)
    match goal with |- context [eval e ?w1] =>
      destruct (eval e w1) as [[cur|err] w2] eqn:Ev;
      apply eval_calls in Ev as (Ha2 & pre & Ht2 & Htr2 & Hs2 & Hvb2 & Hok2) end;
      revert Ha2 Ht2 Hvb2; trace_norm; intros Ha2 Ht2 Hvb2.
    2:{ intros [= <- <-]. split; [exact Ha2|]. rewrite Ht2. trace_norm.
        eexists; split; [reflexivity|].
        change (TrainEpoch e :: LoggerInfo (TrainAvg e (epochs hp)) :: pre)
          with ([TrainEpoch e; LoggerInfo (TrainAvg e (epochs hp))] ++ pre).
        rewrite trained_epochs_app, validator_builds_app, Htr2, Hvb2.
        split; [reflexivity|]. cbn [validator_builds omap list_omap length Nat.add].
        split; [case_bool_decide; lia|].
        split; [intros Hin; now rewrite bool_decide_eq_true_2|].
        split; discriminate. }
    destruct (Hok2 cur eq_refl) as (Hval & Hret).
    destruct (track_best e cur w2) as [r3 w3] eqn:Etb.
    apply track_best_calls in Etb as (Ha3 & evs3 & Ht3 & Htr3 & Hvb3 & Hes3).
    assert (Hcommon : forall post,
      trained_epochs post = [] -> validator_builds post = 0%nat ->
      let evs := [TrainEpoch e; LoggerInfo (TrainAvg e (epochs hp))] ++ pre ++ evs3 ++ post in
      trained_epochs evs = [e] /\
      (validator_builds evs <= 1)%nat /\
      ("validator" ∈ attrs w -> validator_builds evs = 0%nat)).
    { intros post Hp1 Hp2 evs. subst evs.
      rewrite !trained_epochs_app, !validator_builds_app, Htr2, Htr3, Hvb2, Hvb3, Hp1, Hp2.
      cbn [validator_builds trained_epochs omap list_omap length Nat.add app].
      split; [reflexivity|]. split; [case_bool_decide; lia|].
      intros Hin. now rewrite bool_decide_eq_true_2. }
    destruct r3 as [[]|err3].
    2:{ intros [= <- <-]. split; [now rewrite Ha3|]. rewrite Ht3, Ht2. trace_norm.
        exists ([TrainEpoch e; LoggerInfo (TrainAvg e (epochs hp))] ++ pre ++ evs3 ++ []).
        split; [now rewrite app_nil_r|].
        destruct (Hcommon [] eq_refl eq_refl) as (H1 & H2 & H3).
        split; [exact H1|]. split; [exact H2|]. split; [exact H3|].
        split; discriminate. }
    suffix.
    all: intros [= <- <-]; trace_norm; rewrite ?Ht3, ?Ht2; trace_norm.
    all: split; [now rewrite Ha3|].
    all: match goal with
         |- exists evs, _ ++ TrainEpoch ?e0 :: ?l :: ?p0 ++ ?q0 ++ ?post = _ /\ _ =>
           exists ([TrainEpoch e0; l] ++ p0 ++ q0 ++ post);
           split; [reflexivity|];
           destruct (Hcommon post eq_refl eq_refl) as (H1 & H2 & H3);
           split; [exact H1|]; split; [exact H2|]; split; [exact H3|]
         end.
    all: split; [intros _ _; now rewrite Ha3|].
    all: try discriminate.
    all: intros _; do 2 eexists; split; [reflexivity|].
    all: split; [right; cbn [epoch metric]; split; [exact Ed|exact Hret]|].
    all: rewrite !epoch_saves_app, Hes3.
    all: unfold epoch_saves at 2; rewrite Hs2; reflexivity.
  - (* no evaluation this epoch *)
    suffix.
    all: intros [= <- <-]; trace_norm.
    all: split; [done|].
    all: eexists; split; [reflexivity|].
    all: split; [reflexivity|]. all: split; [cbn; lia|].
    all: split; [reflexivity|]. all: split; [discriminate|].
    all: try discriminate.
    all: intros _; do 2 eexists; split; [reflexivity|].
    all: split; [left; cbn [epoch metric]; split; [exact Ed|reflexivity]|].
    all: reflexivity.
Qed.

(** The loop over a list of epochs, whatever its outcome. *)
Lemma loop_calls hp l w r w' :
  for_each l (epoch_body hp) w = (r, w') ->
  attrs w ⊆ attrs w' /\
  exists evs,
    trace w' = trace w ++ evs /\
    trained_epochs evs `prefix_of` l /\
    (validator_builds evs <= 1)%nat /\
    ("validator" ∈ attrs w -> validator_builds evs = 0%nat) /\
    (validator_builds evs = 1%nat -> r = Ok tt -> "validator" ∈ attrs w') /\
    (r = Ok tt ->
     trained_epochs evs = l /\
     exists recs,
       map epoch recs = l /\
       Forall (epoch_record C hp) recs /\
       epoch_saves evs = end_of_epoch_writes hp recs).
Proof.
  revert w r w'. induction l as [|e l IH]; intros w r w'.
  - cbn. intros [= <- <-]. split; [done|]. exists []. rewrite app_nil_r.
    repeat split; try done; try (cbn; lia).
    exists []. repeat split; constructor.
  - cbn [for_each]. unfold bind.
    destruct (epoch_body hp e w) as [[[]|err] w1] eqn:E1;
      apply epoch_body_calls in E1 as (Ha1 & evs1 & Ht1 & Htr1 & Hle1 & Hin1 & Hnew1 & Hok1).
    + intros Hrest.
      apply IH in Hrest as (Ha2 & evs2 & Ht2 & Htr2 & Hle2 & Hin2 & Hnew2 & Hok2).
      split; [etrans; eassumption|].
      exists (evs1 ++ evs2). rewrite Ht2, Ht1, app_assoc.
      split; [reflexivity|].
      rewrite trained_epochs_app, validator_builds_app, Htr1. cbn [app].
      split; [now apply prefix_cons|].
      assert (Hsum : (validator_builds evs1 = 1 -> validator_builds evs2 = 0)%nat).
      { intros H1. apply Hin2, Hnew1; [exact H1|reflexivity]. }
      split; [lia|]. split.
      { intros Hin. rewrite (Hin1 Hin). cbn. apply Hin2. exact (elem_of_weaken _ _ _ Hin Ha1). }
      split.
      { intros Hone Hr.
        destruct (Nat.eq_dec (validator_builds evs2) 1%nat) as [H2|H2].
        - now apply Hnew2.
        - refine (elem_of_weaken _ _ _ _ Ha2). apply Hnew1; [lia|reflexivity]. }
      intros Hr. destruct (Hok2 Hr) as (Htr & recs & Hep & Hrec & Hsv).
      split; [now rewrite Htr|].
      destruct (Hok1 eq_refl) as (sdue & cur & Hsd & Hrec1 & Hsv1).
      exists (mkMetric cur e :: recs). split; [cbn; now rewrite Hep|].
      split; [now constructor|].
      rewrite epoch_saves_app, Hsv1, Hsv. unfold end_of_epoch_writes.
      cbn [map concat epoch]. rewrite Hsd. now destruct sdue.
    + intros [= <- <-]. split; [exact Ha1|]. exists evs1.
      split; [exact Ht1|]. rewrite Htr1.
      split; [apply prefix_cons, prefix_nil|].
      split; [exact Hle1|]. split; [exact Hin1|].
      split; discriminate.
Qed.

(** [train] is a prelude, the loop over [range(1, epochs + 1)] and the
    closing of the writer; prelude and closing train nothing, build no
    validator, write no checkpoint and leave the mode of the model alone. *)
Lemma train_parts hp w r w' :
  train hp w = (r, w') ->
  (r <> Ok tt /\
   exists pre,
     trace w' = trace w ++ pre /\
     trained_epochs pre = [] /\ validator_builds pre = 0%nat /\
     saves pre = [] /\ eval_epochs pre = []) \/
  (exists pre w0 r1 w1 post,
     trace w0 = trace w ++ pre /\
     trained_epochs pre = [] /\ validator_builds pre = 0%nat /\
     saves pre = [] /\ eval_epochs pre = [] /\
     training w0 = training w /\ attrs w ⊆ attrs w0 /\
     for_each (range1 (epochs hp)) (epoch_body hp) w0 = (r1, w1) /\
     trace w' = trace w1 ++ post /\
     trained_epochs post = [] /\ validator_builds post = 0%nat /\
     saves post = [] /\ eval_epochs post = [] /\
     training w' = training w1 /\ attrs w' = attrs w1 /\
     (r = Ok tt -> r1 = Ok tt) /\ (r1 <> Ok tt -> r = r1)).
Proof.
  unfold train. run. trace_norm.
  destruct (build_optimizer C _) as [[[]|err] x1] eqn:E1; run; trace_norm;
    [|intros [= <- <-]; trace_norm; left; split; [discriminate|];
      eexists; split; [reflexivity|]; repeat split; reflexivity].
  destruct (build_constraints C _) as [[[]|err] x2] eqn:E2; run; trace_norm;
    [|intros [= <- <-]; trace_norm; left; split; [discriminate|];
      eexists; split; [reflexivity|]; repeat split; reflexivity].
  destruct (1 <? world_size w); run; trace_norm.
  1: destruct (fleet_init C _) as [[[]|err] x3] eqn:E3; run; trace_norm;
    [|intros [= <- <-]; trace_norm; left; split; [discriminate|];
      eexists; split; [reflexivity|]; repeat split; reflexivity].
  all: match goal with |- context [for_each ?l ?b ?w0] =>
         pose (wstart := w0);
         destruct (for_each l b w0) as [r1 w1] eqn:El end.
  all: destruct r1 as [[]|err]; run.
  all: try match goal with |- context [vdl_writer ?w1] =>
         destruct (vdl_writer w1); run end.
  all: try match goal with |- context [vdl_close C ?x] =>
         destruct (vdl_close C x) as [[[]|err'] x4] eqn:Ev; run end.
  all: intros [= <- <-]; trace_norm; right.
  all: eexists _, wstart, _, _, _; subst wstart; trace_norm.
  all: split; [reflexivity|].
  all: do 4 (split; [reflexivity|]).
  all: split; [reflexivity|]. all: split; [attrs_grow|].
  all: split; [exact El|].
  all: split; [first [reflexivity | symmetry; apply app_nil_r]|].
  all: do 4 (split; [reflexivity|]).
  all: split; [reflexivity|]. all: split; [reflexivity|].
  all: split; [try reflexivity; try discriminate|try reflexivity; try (intros H; now destruct H)].
Qed.

Lemma epoch_saves_of_no_saves tr : saves tr = [] -> epoch_saves tr = [].
Proof. unfold epoch_saves. now intros ->. Qed.

(** X10. The training strategy is invoked once per epoch, for the epochs
    1, 2, ... in this order; a run that stops early has trained a leading
    stretch of them and nothing after the failure; with [epochs <= 0]
    nothing is trained and no checkpoint is written. *)
Theorem train_epochs_in_order hp w r w' :
  train hp w = (r, w') ->
  exists evs,
    trace w' = trace w ++ evs /\
    trained_epochs evs `prefix_of` range1 (epochs hp) /\
    (r = Ok tt -> trained_epochs evs = range1 (epochs hp)) /\
    (epochs hp <= 0 -> trained_epochs evs = [] /\ saves evs = []).
Proof.
  intros Ht. apply train_parts in Ht as [(Hne & pre & Ht & Htr & _ & Hsv & _)|Hloop].
  - exists pre. split; [exact Ht|]. rewrite Htr.
    split; [apply prefix_nil|]. split; [done|]. auto.
  - destruct Hloop as (pre & w0 & r1 & w1 & post & Ht0 & Htr0 & _ & Hsv0 & _ & _ & _ &
                       Hl & Ht1 & Htr1 & _ & Hsv1 & _ & _ & _ & Hr & _).
    pose proof Hl as Hl'.
    apply loop_calls in Hl as (_ & evs & Hte & Hpre & _ & _ & _ & Hok).
    exists (pre ++ evs ++ post). rewrite Ht1, Hte, Ht0, <- !app_assoc.
    split; [reflexivity|].
    rewrite !trained_epochs_app, Htr0, Htr1, app_nil_r. cbn [app].
    split; [exact Hpre|]. split.
    + intros Hrr. now destruct (Hok (Hr Hrr)).
    + intros Hn. unfold range1 in *. rewrite seqZ_nil in Hpre, Hl' by lia.
      apply prefix_nil_inv in Hpre. split; [exact Hpre|].
      cbn in Hl'. injection Hl' as _ <-.
      rewrite <- (app_nil_r (trace w0)) in Hte at 1. apply app_inv_head in Hte. subst evs.
      rewrite !saves_app, Hsv0, Hsv1. reflexivity.
Qed.

(** X11. The validators are built at most once: [eval] builds them exactly
    when the session has none, a successful [eval] leaves them attached,
    and a whole run of [train] builds them at most once, and not at all
    when the session came with them. *)
Theorem validator_built_once :
  (forall e w r w',
     eval e w = (r, w') ->
     exists pre,
       trace w' = trace w ++ pre /\
       validator_builds pre =
         (if bool_decide ("validator" ∈ attrs w) then 0 else 1)%nat /\
       (forall v, r = Ok v -> "validator" ∈ attrs w')) /\
  (forall hp w r w',
     train hp w = (r, w') ->
     exists evs,
       trace w' = trace w ++ evs /\
       (validator_builds evs <= 1)%nat /\
       ("validator" ∈ attrs w -> validator_builds evs = 0%nat)).
Proof.
  split.
  - intros e w r w' He.
    apply eval_calls in He as (_ & pre & Ht & _ & _ & Hvb & Hok).
    exists pre. split; [exact Ht|]. split; [exact Hvb|].
    intros v Hv. now destruct (Hok v Hv).
  - intros hp w r w' Ht.
    apply train_parts in Ht as [(Hne & pre & Ht & _ & Hvb & _)|Hloop].
    + exists pre. split; [exact Ht|]. rewrite Hvb. split; [lia|done].
    + destruct Hloop as (pre & w0 & r1 & w1 & post & Ht0 & _ & Hvb0 & _ & _ & _ & Ha0 &
                         Hl & Ht1 & _ & Hvb1 & _).
      apply loop_calls in Hl as (_ & evs & Hte & _ & Hle & Hin & _).
      exists (pre ++ evs ++ post). rewrite Ht1, Hte, Ht0, <- !app_assoc.
      split; [reflexivity|].
      rewrite !validator_builds_app, Hvb0, Hvb1.
      split; [lia|]. intros Hv. rewrite Hin; [reflexivity|].
      exact (elem_of_weaken _ _ _ Hv Ha0).
Qed.

(** X12. In a run of [train] that completes, the checkpoints written at the
    end of the epochs are, epoch after epoch, the ["epoch_N"] checkpoint
    when one is due and then ["latest"], both holding the same record: the
    epoch number with the metric that [eval] returned in that epoch, or
    with [inf] when no evaluation was due. *)
Theorem end_of_epoch_checkpoints hp w w' :
  train hp w = (Ok tt, w') ->
  exists evs recs,
    trace w' = trace w ++ evs /\
    map epoch recs = range1 (epochs hp) /\
    Forall (epoch_record C hp) recs /\
    epoch_saves evs = end_of_epoch_writes hp recs.
Proof.
  intros Ht. apply train_parts in Ht as [(Hne & _)|Hloop]; [done|].
  destruct Hloop as (pre & w0 & r1 & w1 & post & Ht0 & _ & _ & Hsv0 & _ & _ & _ &
                     Hl & Ht1 & _ & _ & Hsv1 & _ & _ & _ & Hr & _).
  rewrite (Hr eq_refl) in Hl.
  apply loop_calls in Hl as (_ & evs & Hte & _ & _ & _ & _ & Hok).
  destruct (Hok eq_refl) as (_ & recs & Hep & Hrec & Hsv).
  exists (pre ++ evs ++ post), recs. rewrite Ht1, Hte, Ht0, <- !app_assoc.
  split; [reflexivity|]. split; [exact Hep|]. split; [exact Hrec|].
  rewrite !epoch_saves_app, (epoch_saves_of_no_saves _ Hsv0),
          (epoch_saves_of_no_saves _ Hsv1), app_nil_r.
  exact Hsv.
Qed.

Lemma aligned_dues hp e :
  aligned hp -> 1 <= e ->
  eval_due hp e = Ok (e `mod` eval_freq hp =? 0) /\
  save_due hp e = Ok (e `mod` eval_freq hp =? 0).
Proof.
  intros (Hon & Hf & Hs & Hst) He. unfold eval_due, save_due, py_mod.
  rewrite Hon, Hs.
  replace (0 <? eval_freq hp) with true by (symmetry; apply Z.ltb_lt; lia).
  replace (eval_freq hp =? 0) with false by (symmetry; apply Z.eqb_neq; lia).
  cbn [rbind].
  replace (start_eval_epoch hp <=? e) with true by (symmetry; apply Z.leb_le; lia).
  now rewrite andb_true_r.
Qed.

(** X13. The values written in the driver (evaluation on, every 1000 epochs
    from epoch 1, a checkpoint every 1000 epochs) are aligned; and under
    aligned values a run that completes evaluates exactly at the multiples
    of the frequency, writes its ["epoch_N"] checkpoints at exactly those
    epochs, and every such checkpoint holds a metric that [eval] returned
    in that very epoch. *)
Theorem aligned_schedule hp w w' :
  aligned viv_hyper /\
  (aligned hp ->
   train hp w = (Ok tt, w') ->
   exists evs,
     trace w' = trace w ++ evs /\
     (forall e, e ∈ eval_epochs evs <-> 1 <= e <= epochs hp /\ e `mod` eval_freq hp = 0) /\
     epoch_tags evs = map (fun e => "epoch_" +:+ pretty e) (eval_epochs evs) /\
     Forall (fun p =>
               starts_with "epoch_" p.1 = true ->
               exists x x', eval_func C (epoch p.2) x = (Ok (metric p.2), x'))
            (epoch_saves evs)).
Proof.
  split; [repeat split; (reflexivity || lia || discriminate)|].
  intros Hal Ht.
  pose proof (train_schedule hp w w' Ht) as (evs & Hte & Hall & Hee & _ & Het).
  assert (Hck : exists evs recs,
            trace w' = trace w ++ evs /\
            map epoch recs = range1 (epochs hp) /\
            Forall (epoch_record C hp) recs /\
            epoch_saves evs = end_of_epoch_writes hp recs).
  { pose proof Ht as Hp.
    apply train_parts in Hp as [(Hne & _)|Hloop]; [done|].
    destruct Hloop as (pre & w0 & r1 & w1 & post & Ht0 & _ & _ & Hsv0 & _ & _ & _ &
                       Hl & Ht1 & _ & _ & Hsv1 & _ & _ & _ & Hr & _).
    rewrite (Hr eq_refl) in Hl.
    apply loop_calls in Hl as (_ & evl & Htl & _ & _ & _ & _ & Hok).
    destruct (Hok eq_refl) as (_ & recs & Hep & Hrec & Hsv).
    exists (pre ++ evl ++ post), recs. rewrite Ht1, Htl, Ht0, <- !app_assoc.
    split; [reflexivity|]. split; [exact Hep|]. split; [exact Hrec|].
    rewrite !epoch_saves_app, (epoch_saves_of_no_saves _ Hsv0),
            (epoch_saves_of_no_saves _ Hsv1), app_nil_r.
    exact Hsv. }
  exists evs. split; [exact Hte|]. split; [|split].
  - intros e. rewrite Hee, list_elem_of_In, filter_In, <- list_elem_of_In.
    unfold range1. rewrite elem_of_seqZ. split.
    + intros [Hin Hd]. destruct (aligned_dues hp e Hal ltac:(lia)) as [He _].
      rewrite He in Hd. apply Z.eqb_eq in Hd. lia.
    + intros [Hin Hm]. split; [lia|].
      destruct (aligned_dues hp e Hal ltac:(lia)) as [-> _]. now apply Z.eqb_eq.
  - rewrite Het, Hee. f_equal. apply List.filter_ext_in. intros e Hin.
    apply list_elem_of_In in Hin. unfold range1 in Hin. apply elem_of_seqZ in Hin.
    destruct (aligned_dues hp e Hal ltac:(lia)) as [-> ->]. reflexivity.
  - destruct Hck as (evs' & recs & Hte' & Hep & Hrec & Hsv).
    rewrite Hte in Hte'. apply app_inv_head in Hte'. subst evs'.
    rewrite Hsv. unfold end_of_epoch_writes.
    apply Forall_concat, Forall_fmap, Forall_forall. intros m Hm.
    unfold compose. cbn beta.
    assert (Hge : 1 <= epoch m).
    { assert (Hin : epoch m ∈ map epoch recs) by (apply list_elem_of_fmap; eauto).
      rewrite Hep in Hin. unfold range1 in Hin. apply elem_of_seqZ in Hin. lia. }
    destruct (aligned_dues hp (epoch m) Hal Hge) as [Hed Hsd].
    rewrite Hsd. apply Forall_app. split.
    + destruct (epoch m `mod` eval_freq hp =? 0) eqn:Em; constructor; [|constructor].
      intros _. cbn [fst snd].
      rewrite Forall_forall in Hrec. destruct (Hrec m Hm) as [[Hno _]|[_ Hret]].
      * rewrite Hed in Hno. discriminate.
      * exact Hret.
    + constructor; [|constructor]. cbn. discriminate.
Qed.

Lemma epoch_body_undue hp e w r w' err :
  eval_due hp e = Raise err ->
  epoch_body hp e w = (r, w') ->
  r <> Ok tt /\
  (forall x, train_epoch_func C e (ext w) = (Ok tt, x) -> r = Raise err) /\
  exists evs,
    trace w' = trace w ++ evs /\ saves evs = [] /\ eval_epochs evs = [] /\
    trained_epochs evs = [e].
Proof.
  intros Hd. unfold epoch_body. run. rewrite Hd.
  destruct (train_epoch_func C e (ext w)) as [[[]|err0] x1] eqn:Et; run.
  all: intros [= <- <-]; trace_norm.
  all: split; [discriminate|].
  all: split; [intros x [= ]; reflexivity || intros x Hx; discriminate Hx|].
  all: eexists; split; [reflexivity|]; repeat split; reflexivity.
Qed.

(** X14. A zero [eval_freq] with evaluation switched on is not guarded: the
    first epoch stops at [epoch_id % eval_freq] with [ZeroDivisionError]
    right after its training step, so no run completes and no checkpoint
    is ever written.  A [save_freq] of zero or less is guarded: a run that
    completes then writes no ["epoch_N"] checkpoint and still writes
    ["latest"] after every epoch. *)
Theorem zero_frequencies hp w r w' :
  train hp w = (r, w') ->
  (eval_during_train hp = true -> eval_freq hp = 0 -> 1 <= epochs hp ->
   r <> Ok tt /\
   (forall w0 x, train_epoch_func C 1 (ext w0) = (Ok tt, x) ->
      fst (epoch_body hp 1 w0) =
      Raise (ZeroDivisionError "integer division or modulo by zero")) /\
   exists evs,
     trace w' = trace w ++ evs /\ saves evs = [] /\ eval_epochs evs = [] /\
     trained_epochs evs `prefix_of` [1]) /\
  (save_freq hp <= 0 -> r = Ok tt ->
   exists evs,
     trace w' = trace w ++ evs /\ epoch_tags evs = [] /\
     map epoch (saved_as "latest" evs) = range1 (epochs hp)).
Proof.
  intros Ht. split.
  - intros Hon Hz Hn.
    assert (Hd : forall e, eval_due hp e =
              Raise (ZeroDivisionError "integer division or modulo by zero")).
    { intros e. unfold eval_due, py_mod. now rewrite Hon, Hz. }
    assert (Hfirst : forall w0 x, train_epoch_func C 1 (ext w0) = (Ok tt, x) ->
              fst (epoch_body hp 1 w0) =
              Raise (ZeroDivisionError "integer division or modulo by zero")).
    { intros w0 x Hx.
      destruct (epoch_body_undue hp 1 w0 _ _ _ (Hd 1) (surjective_pairing _))
        as (_ & Hr & _). eauto. }
    apply train_parts in Ht as [(Hne & pre & Ht & Htr & _ & Hsv & Hev)|Hloop].
    + split; [exact Hne|]. split; [exact Hfirst|].
      exists pre. rewrite Htr. repeat split; try done. apply prefix_nil.
    + destruct Hloop as (pre & w0 & r1 & w1 & post & Ht0 & Htr0 & _ & Hsv0 & Hev0 & _ & _ &
                         Hl & Ht1 & Htr1 & _ & Hsv1 & Hev1 & _ & _ & Hr & Hr').
      unfold range1 in Hl. rewrite seqZ_cons in Hl by lia.
      cbn [for_each] in Hl. unfold bind in Hl.
      destruct (epoch_body hp 1 w0) as [r2 w2] eqn:E2.
      destruct (epoch_body_undue hp 1 w0 _ _ _ (Hd 1) E2)
        as (Hne2 & _ & evs & Hte & Hsv & Hev & Htr).
      destruct r2 as [[]|err]; [done|]. injection Hl as <- <-.
      split; [intros Hrr; now specialize (Hr Hrr)|]. split; [exact Hfirst|].
      exists (pre ++ evs ++ post). rewrite Ht1, Hte, Ht0, <- !app_assoc.
      split; [reflexivity|].
      rewrite !saves_app, !eval_epochs_app, !trained_epochs_app,
              Hsv0, Hsv, Hsv1, Hev0, Hev, Hev1, Htr0, Htr, Htr1.
      repeat split; reflexivity.
  - intros Hs ->.
    apply train_schedule in Ht as (evs & Hte & _ & _ & Hla & Het).
    exists evs. split; [exact Hte|]. split; [|exact Hla].
    rewrite Het.
    assert (Hnil : forall l,
      List.filter (fun e => match save_due hp e with Ok b => b | Raise _ => false end) l = []).
    { intros l. induction l as [|e l IH]; [reflexivity|]. cbn [List.filter].
      unfold save_due at 1.
      replace (0 <? save_freq hp) with false by (symmetry; apply Z.ltb_ge; lia).
      exact IH. }
    now rewrite Hnil.
Qed.

End VivCallsFacts.

(** ** More runs of the driver on scripted collaborators *)
Section VivCallsExamples.
Import Viv VivCalls.

(** Five epochs with evaluation every 2; the second evaluation fails, in
    epoch 4, and epoch 5 is never trained. *)
Lemma train_epochs_in_order_witness :
  let w := fresh [Ok (float_of_Z 7)] in
  let hp := mkHyper 5 3 true 2 1 in
  train hp w = (fst (train hp w), snd (train hp w)) /\
  fst (train hp w) = Raise (RuntimeError "evaluation failed") /\
  trained_epochs (trace (snd (train hp w))) = [1; 2; 3; 4] /\
  exists evs,
    trace (snd (train hp w)) = trace w ++ evs /\
    trained_epochs evs `prefix_of` [1; 2; 3; 4; 5].
Proof.
  cbv zeta. split; [apply surjective_pairing|].
  split; [vm_compute; reflexivity|]. split; [vm_compute; reflexivity|].
  destruct (train_epochs_in_order (C := scripted) (mkHyper 5 3 true 2 1)
              (fresh [Ok (float_of_Z 7)]) _ _ (surjective_pairing _))
    as (evs & Ht & Hp & _).
  exists evs. split; [exact Ht|exact Hp].
Defined.

(** Two evaluations in one run: the validators are built in the first. *)
Lemma validator_built_once_witness :
  let w := fresh [Ok (float_of_Z 7); Ok (float_of_Z 9)] in
  let hp := mkHyper 5 3 true 2 1 in
  train hp w = (fst (train hp w), snd (train hp w)) /\
  eval_epochs (trace (snd (train hp w))) = [2; 4] /\
  validator_builds (trace (snd (train hp w))) = 1%nat /\
  exists evs,
    trace (snd (train hp w)) = trace w ++ evs /\
    (validator_builds evs <= 1)%nat.
Proof.
  cbv zeta. split; [apply surjective_pairing|].
  split; [vm_compute; reflexivity|]. split; [vm_compute; reflexivity|].
  destruct (validator_built_once (C := scripted)) as [_ Htrain].
  destruct (Htrain (mkHyper 5 3 true 2 1)
              (fresh [Ok (float_of_Z 7); Ok (float_of_Z 9)]) _ _ (surjective_pairing _))
    as (evs & Ht & Hle & _).
  exists evs. split; [exact Ht|exact Hle].
Defined.

(** Three epochs, evaluation at epoch 2 only, a checkpoint every 3: the
    checkpoint of epoch 3 holds [inf]. *)
Lemma end_of_epoch_checkpoints_witness :
  let w := fresh [Ok (float_of_Z 7)] in
  let hp := mkHyper 3 3 true 2 1 in
  train hp w = (Ok tt, snd (train hp w)) /\
  epoch_saves (trace (snd (train hp w))) =
    [("latest", mkMetric inf 1); ("latest", mkMetric (float_of_Z 7) 2);
     ("epoch_3", mkMetric inf 3); ("latest", mkMetric inf 3)] /\
  exists evs recs,
    trace (snd (train hp w)) = trace w ++ evs /\
    map epoch recs = [1; 2; 3] /\
    Forall (epoch_record scripted hp) recs /\
    epoch_saves evs = end_of_epoch_writes hp recs.
Proof.
  cbv zeta.
  assert (H : train (mkHyper 3 3 true 2 1) (fresh [Ok (float_of_Z 7)])
              = (Ok tt, snd (train (mkHyper 3 3 true 2 1) (fresh [Ok (float_of_Z 7)])))).
  { rewrite (surjective_pairing (train _ _)) at 1. f_equal; vm_compute; reflexivity. }
  split; [exact H|]. split; [vm_compute; reflexivity|].
  exact (end_of_epoch_checkpoints (C := scripted) _ _ _ H).
Defined.

(** Four epochs, evaluation and checkpoint every 2. *)
Lemma aligned_schedule_witness :
  let w := fresh [Ok (float_of_Z 7); Ok (float_of_Z 9)] in
  let hp := mkHyper 4 2 true 2 1 in
  aligned hp /\
  train hp w = (Ok tt, snd (train hp w)) /\
  epoch_tags (trace (snd (train hp w))) = ["epoch_2"; "epoch_4"] /\
  exists evs,
    trace (snd (train hp w)) = trace w ++ evs /\
    epoch_tags evs = map (fun e => "epoch_" +:+ pretty e) (eval_epochs evs).
Proof.
  cbv zeta.
  assert (Ha : aligned (mkHyper 4 2 true 2 1)).
  { repeat split; cbn; (reflexivity || lia). }
  assert (H : train (mkHyper 4 2 true 2 1) (fresh [Ok (float_of_Z 7); Ok (float_of_Z 9)])
              = (Ok tt, snd (train (mkHyper 4 2 true 2 1)
                               (fresh [Ok (float_of_Z 7); Ok (float_of_Z 9)])))).
  { rewrite (surjective_pairing (train _ _)) at 1. f_equal; vm_compute; reflexivity. }
  split; [exact Ha|]. split; [exact H|]. split; [vm_compute; reflexivity|].
  destruct (aligned_schedule (C := scripted) (mkHyper 4 2 true 2 1)
              (fresh [Ok (float_of_Z 7); Ok (float_of_Z 9)])
              (snd (train (mkHyper 4 2 true 2 1)
                      (fresh [Ok (float_of_Z 7); Ok (float_of_Z 9)])))) as [_ Hrun].
  destruct (Hrun Ha H) as (evs & Ht & _ & Htags & _).
  exists evs. split; [exact Ht|exact Htags].
Defined.

(** [eval_freq = 0] stops the first epoch; [save_freq = 0] only switches the
    ["epoch_N"] checkpoints off. *)
Lemma zero_frequencies_witness :
  let w := fresh [] in
  let hp0 := mkHyper 3 2 true 0 1 in
  let hp1 := mkHyper 3 0 false 1 1 in
  train hp0 w = (fst (train hp0 w), snd (train hp0 w)) /\
  fst (train hp0 w) = Raise (ZeroDivisionError "integer division or modulo by zero") /\
  saves (trace (snd (train hp0 w))) = [] /\
  train hp1 w = (Ok tt, snd (train hp1 w)) /\
  exists evs,
    trace (snd (train hp1 w)) = trace w ++ evs /\ epoch_tags evs = [] /\
    map epoch (saved_as "latest" evs) = [1; 2; 3].
Proof.
  cbv zeta. split; [apply surjective_pairing|].
  split; [vm_compute; reflexivity|].
  destruct (zero_frequencies (C := scripted) (mkHyper 3 2 true 0 1) (fresh []) _ _
              (surjective_pairing _)) as [Hzero _].
  destruct (Hzero eq_refl eq_refl ltac:(cbn; lia)) as (_ & _ & evs & Ht & Hs & _).
  split; [rewrite Ht, saves_app, Hs; reflexivity|].
  assert (H : train (mkHyper 3 0 false 1 1) (fresh [])
              = (Ok tt, snd (train (mkHyper 3 0 false 1 1) (fresh [])))).
  { rewrite (surjective_pairing (train _ _)) at 1. f_equal; vm_compute; reflexivity. }
  split; [exact H|].
  destruct (zero_frequencies (C := scripted) (mkHyper 3 0 false 1 1) (fresh []) _ _ H)
    as [_ Hsave].
  exact (Hsave ltac:(cbn; lia) eq_refl).
Defined.

End VivCallsExamples.

(** ** The model factory: the shape of a copy and the dispatch on the name *)
Section ArchCopiesFacts.
Import Arch ArchCopies.

Lemma deepcopy_kind depth x st x' st' :
  deepcopy depth x st = (Ok x', st') -> copy_of_value x x'.
Proof.
  destruct x as [| | | | |l]; cbn [copy_of_value];
    try (destruct depth; cbn; now intros [= <- <-]).
  destruct depth as [|depth]; cbn [deepcopy].
  - destruct (st.2 !! l); intros [= <- <-]. eauto.
  - destruct (st.2 !! l); [intros [= <- <-]; eauto|].
    destruct (st.1 !! l) as [o|]; [|discriminate].
    destruct (copy_all _ _ _) as [[vs|e] st2]; [|discriminate].
    intros [= <- <-]. eauto.
Qed.

Lemma copy_all_kind depth vs st vs' st' :
  copy_all (deepcopy depth) vs st = (Ok vs', st') -> Forall2 copy_of_value vs vs'.
Proof.
  revert st vs' st'. induction vs as [|v vs IH]; intros st vs' st'; cbn [copy_all].
  - intros [= <- <-]. constructor.
  - unfold bind at 1. destruct (deepcopy depth v st) as [[v1|e1] st1] eqn:E1; [|discriminate].
    unfold bind at 1. destruct (copy_all (deepcopy depth) vs st1) as [[vs2|e2] st2] eqn:E2;
      [|discriminate].
    intros [= <- <-]. constructor; [eapply deepcopy_kind; eassumption|eauto].
Qed.




Lemma in_memo_mono memo memo' v v' : memo ⊆ memo' -> in_memo memo v v' -> in_memo memo' v v'.
Proof.
  intros Hs H k Hk. destruct (H k Hk) as (y & -> & Hy).
  exists y. split; [reflexivity|]. eapply lookup_weaken; eassumption.
Qed.

Lemma copy_all_memo (f : value -> M (heap * gmap loc loc) value) :
  (forall v st r st',
     f v st = (r, st') ->
     st.2 ⊆ st'.2 /\ forall v', r = Ok v' -> in_memo st'.2 v v') ->
  forall vs st r st',
    copy_all f vs st = (r, st') ->
    st.2 ⊆ st'.2 /\ forall vs', r = Ok vs' -> Forall2 (in_memo st'.2) vs vs'.
Proof.
  intros Hf. induction vs as [|v vs IH]; intros st r st'; cbn [copy_all].
  - intros [= <- <-]. split; [reflexivity|]. intros vs' [= <-]. constructor.
  - unfold bind at 1. destruct (f v st) as [[v1|e1] st1] eqn:E1.
    + destruct (Hf _ _ _ _ E1) as [Hm1 Hv1].
      unfold bind at 1. destruct (copy_all f vs st1) as [[vs2|e2] st2] eqn:E2;
        destruct (IH _ _ _ E2) as [Hm2 Hv2]; intros [= <- <-].
      * split; [etrans; eassumption|]. intros vs' [= <-].
        constructor; [|now apply Hv2].
        eapply in_memo_mono; [exact Hm2|]. now apply Hv1.
      * split; [etrans; eassumption|]. discriminate.
    + destruct (Hf _ _ _ _ E1) as [Hm1 _]. intros [= <- <-]. split; [exact Hm1|discriminate].
Qed.

(** The memo only grows, and a container that has been copied is in it. *)
Lemma deepcopy_memo depth :
  forall x st r st',
    deepcopy depth x st = (r, st') ->
    st.2 ⊆ st'.2 /\ forall x', r = Ok x' -> in_memo st'.2 x x'.
Proof.
  induction depth as [|depth IH]; intros x [h memo] r st'.
  all: destruct x as [| | | | |l]; cbn [deepcopy fst snd];
    try (intros [= <- <-]; split; [reflexivity|]; intros x' _ k Hk; discriminate Hk).
  all: destruct (memo !! l) as [y|] eqn:Em;
    [intros [= <- <-]; split; [reflexivity|]; intros x' [= <-] k [= <-]; eauto|].
  { intros [= <- <-]. split; [reflexivity|discriminate]. }
  destruct (h !! l) as [o|] eqn:Eo;
    [|intros [= <- <-]; split; [reflexivity|discriminate]].
  set (y := fresh (dom h)).
  destruct (copy_all (deepcopy depth) (children o) (<[y:=blank o]> h, <[l:=y]> memo))
    as [rc [h2 memo2]] eqn:Ec.
  destruct (copy_all_memo (deepcopy depth) IH _ _ _ _ Ec) as [Hm _]. cbn [fst snd] in Hm.
  assert (Hmm : memo ⊆ memo2) by (etrans; [|exact Hm]; now apply insert_subseteq).
  destruct rc as [vs|e]; intros [= <- <-]; cbn [fst snd].
  - split; [exact Hmm|]. intros x' [= <-] k [= <-]. exists y. split; [reflexivity|].
    eapply lookup_weaken; [|exact Hm]. apply lookup_insert_eq.
  - split; [exact Hmm|discriminate].
Qed.

(** X16. [copy.deepcopy] keeps the shape of what it copies: the copy of a
    container is a new container of the same kind, keys and length; where
    the container holds itself the copy holds the copy, and where two
    entries refer to one object the two entries of the copy refer to one
    object as well. *)
Theorem deepcopy_keeps_sharing depth l o h v st' :
  h !! l = Some o ->
  deepcopy depth (VRef l) (h, ∅) = (Ok v, st') ->
  exists y vs,
    v = VRef y /\ h !! y = None /\
    st'.1 !! y = Some (rebuild o vs) /\
    Forall2 copy_of_value (children o) vs /\
    (forall i, children o !! i = Some (VRef l) -> vs !! i = Some (VRef y)) /\
    (forall i j k,
       children o !! i = Some (VRef k) -> children o !! j = Some (VRef k) ->
       vs !! i = vs !! j).
Proof.
  intros Hl. destruct depth as [|depth]; cbn [deepcopy fst snd];
    rewrite lookup_empty; [discriminate|].
  rewrite Hl. set (y := fresh (dom h)).
  destruct (copy_all (deepcopy depth) (children o) (<[y:=blank o]> h, <[l:=y]> ∅))
    as [[vs|e] [h2 memo2]] eqn:Ec; [|discriminate].
  intros [= <- <-]. exists y, vs. split; [reflexivity|].
  split; [apply not_elem_of_dom, is_fresh|].
  cbn [fst]. rewrite lookup_insert_eq. split; [reflexivity|].
  split; [eapply copy_all_kind; eassumption|].
  destruct (copy_all_memo (deepcopy depth) (deepcopy_memo depth) _ _ _ _ Ec) as [Hm Hv].
  specialize (Hv vs eq_refl). cbn [fst snd] in *.
  assert (Hat : forall i k, children o !! i = Some (VRef k) ->
            exists y', vs !! i = Some (VRef y') /\ memo2 !! k = Some y').
  { intros i k Hi.
    destruct (Forall2_lookup_l _ _ _ _ _ Hv Hi) as (v' & Hv' & Hin).
    destruct (Hin k eq_refl) as (y' & -> & Hy'). eauto. }
  split.
  - intros i Hi. destruct (Hat i l Hi) as (y' & Hi' & Hy').
    assert (memo2 !! l = Some y)
      by (eapply lookup_weaken; [apply lookup_insert_eq|exact Hm]).
    congruence.
  - intros i j k Hi Hj.
    destruct (Hat i k Hi) as (y1 & -> & H1), (Hat j k Hj) as (y2 & -> & H2). congruence.
Qed.

Context {G : Registry}.



End ArchCopiesFacts.

(** ** Copies on concrete stores *)
Section ArchCopiesExamples.
Import Arch ArchCopies.


(** What the name may be: an expression with a leading blank, a built-in,
    a text that is no expression, an object that is not callable, and an
    unknown name. *)
Lemma build_model_eval_cases :
  fst (build_model 2 (VRef 0%nat) (named_world " MLP")) = Ok [("num_layers", VInt 5)] /\
  fst (build_model 2 (VRef 0%nat) (named_world "dict")) = Ok [("num_layers", VInt 5)] /\
  fst (build_model 2 (VRef 0%nat) (named_world "1+"))
    = Raise (SyntaxError "invalid syntax") /\
  fst (build_model 2 (VRef 0%nat) (named_world "copy"))
    = Raise (TypeError "'module' object is not callable") /\
  fst (build_model 2 (VRef 0%nat) (named_world "Unknown")) = Raise (NameError "Unknown").
Proof. repeat split; vm_compute; reflexivity. Qed.

(** The list that holds another list twice, and itself. *)
Lemma deepcopy_keeps_sharing_witness :
  shared_store !! 0%nat = Some (OList [VRef 1%nat; VRef 1%nat; VRef 0%nat]) /\
  deepcopy 2 (VRef 0%nat) (shared_store, ∅)
    = (Ok (VRef 2%nat), snd (deepcopy 2 (VRef 0%nat) (shared_store, ∅))) /\
  exists y vs,
    (snd (deepcopy 2 (VRef 0%nat) (shared_store, ∅))).1 !! y = Some (OList vs) /\
    vs !! 2%nat = Some (VRef y) /\
    vs !! 0%nat = vs !! 1%nat.
Proof.
  split; [reflexivity|].
  assert (H : deepcopy 2 (VRef 0%nat) (shared_store, ∅)
              = (Ok (VRef 2%nat), snd (deepcopy 2 (VRef 0%nat) (shared_store, ∅)))).
  { rewrite (surjective_pairing (deepcopy _ _ _)) at 1. f_equal; vm_compute; reflexivity. }
  split; [exact H|].
  destruct (deepcopy_keeps_sharing 2 0%nat _ shared_store _ _ eq_refl H)
    as (y & vs & _ & _ & Hy & _ & Hself & Hshare).
  exists y, vs. split; [exact Hy|]. split.
  - apply Hself. reflexivity.
  - apply (Hshare 0%nat 1%nat 1%nat); reflexivity.
Defined.

End ArchCopiesExamples.

(** ** The test harness: case files and the comparison of solutions *)
Section ConfigTransFacts.
Import ConfigTrans.

Lemma init_seq cases self :
  init (Ok (YSeq cases)) = ([], Ok self) ->
  self = mkYamlLoader (YSeq cases) (Z.of_nat (length cases)).
Proof. cbn. now intros [= <-]. Qed.

Ltac index_cases :=
  unfold seq_index; cbv zeta;
  repeat match goal with
  | |- context [?a <? ?b] => destruct (Z.ltb_spec a b); try lia
  | |- context [?a <=? ?b] => destruct (Z.leb_spec a b); try lia
  end;
  try reflexivity.

Lemma seq_index_in len n :
  0 <= n < len -> seq_index len n = Some (Z.to_nat n).
Proof. intros Hn. index_cases. Qed.

Lemma seq_index_negative len n :
  - len <= n < 0 -> seq_index len n = seq_index len (n + len).
Proof. intros Hn. index_cases. Qed.

Lemma seq_index_out len n :
  len <= n \/ n < - len -> seq_index len n = None.
Proof. intros Hn. index_cases. Qed.

Lemma getitem_in cases n c :
  0 <= n -> cases !! Z.to_nat n = Some c -> getitem (YSeq cases) n = Ok c.
Proof.
  intros Hn Hc. unfold getitem.
  rewrite seq_index_in by (apply lookup_lt_Some in Hc; lia).
  now rewrite Hc.
Qed.

(** The generator on any list of indices. *)
Lemma yield_cases_spec self indices :
  (yield_cases self indices).1.*1 `prefix_of` indices /\
  (forall i d, (i, d) ∈ (yield_cases self indices).1 -> get_case self i = Ok (i, d)) /\
  ((yield_cases self indices).2 = None -> (yield_cases self indices).1.*1 = indices) /\
  ((forall i, i ∈ indices -> exists d, _get_py_dir self i = Ok d) ->
   (yield_cases self indices).2 = None).
Proof.
  induction indices as [|i rest IH]; cbn [yield_cases].
  - cbn. repeat split; try done. intros i d Hin. now apply elem_of_nil in Hin.
  - destruct IH as (IH1 & IH2 & IH3 & IH4).
    destruct (_get_py_dir self i) as [d|e] eqn:Ed.
    + destruct (yield_cases self rest) as [ys oe]. cbn [fst snd fmap list_fmap] in *.
      split; [now apply prefix_cons|]. split; [|split].
      * intros i' d' Hin. apply elem_of_cons in Hin as [[= -> ->]|Hin]; [|now apply IH2].
        unfold get_case. now rewrite Ed.
      * intros He. now rewrite IH3.
      * intros Hall. apply IH4. intros i' Hi'. apply Hall. now apply list_elem_of_further.
    + cbn. split; [apply prefix_nil|]. split; [|split].
      * intros i' d' Hin. now apply elem_of_nil in Hin.
      * discriminate.
      * intros Hall. destruct (Hall i) as [d Hd]; [apply list_elem_of_here|]. congruence.
Qed.

(** The generator over a stretch of cases that are all mappings. *)
Lemma yield_cases_maps cases len cs :
  forall j m,
    0 <= j ->
    (forall i c, cs !! i = Some c -> cases !! (Z.to_nat j + i)%nat = Some c) ->
    Forall (fun c => is_map c = true) cs ->
    yield_cases (mkYamlLoader (YSeq cases) len) (seqZ j (Z.of_nat (length cs)) ++ m) =
      (numbered j cs ++ (yield_cases (mkYamlLoader (YSeq cases) len) m).1,
       (yield_cases (mkYamlLoader (YSeq cases) len) m).2).
Proof.
  induction cs as [|c cs IH]; intros j m Hj Hat Hmaps.
  - cbn [length numbered]. rewrite seqZ_nil by (cbn; lia). cbn [app].
    now destruct (yield_cases _ m).
  - apply Forall_cons in Hmaps as [Hc Hmaps].
    rewrite seqZ_cons by (cbn [length]; lia).
    replace (Z.pred (Z.of_nat (length (c :: cs)))) with (Z.of_nat (length cs))
      by (cbn [length]; lia).
    cbn [app yield_cases numbered]. unfold _get_py_dir at 1. cbn [yml].
    rewrite (getitem_in cases j c Hj)
      by (rewrite <- (Nat.add_0_r (Z.to_nat j)); now apply Hat).
    destruct c as [| | | | | |items]; try discriminate Hc. cbn [rbind get case_dir].
    rewrite (IH (Z.succ j) m) by
      (try lia; try assumption; intros i c' Hi;
       replace (Z.to_nat (Z.succ j) + i)%nat with (Z.to_nat j + S i)%nat by lia;
       now apply Hat).
    replace (j + 1) with (Z.succ j) by lia. reflexivity.
Qed.

Lemma get_py_dir_no_map cases len k c :
  cases !! k = Some c -> is_map c = false ->
  _get_py_dir (mkYamlLoader (YSeq cases) len) (Z.of_nat k) = Raise (no_get c).
Proof.
  intros Hk Hc. unfold _get_py_dir. cbn [yml].
  rewrite (getitem_in cases (Z.of_nat k) c) by (try lia; now rewrite Nat2Z.id).
  destruct c; try discriminate Hc; reflexivity.
Qed.

(** X17. A loader made from a file that holds a list of cases counts the
    cases of the list; [get_all_case] yields the cases by increasing index
    from 0, each with what [get_case] returns for that index, and it yields
    all of them when every case is a mapping (a case without ["Dir"] gives
    [None]); a case that is no mapping ends the enumeration there: the
    cases before it have been yielded, and the [AttributeError] that
    [get_case] raises on it comes out of the generator. *)
Theorem get_all_case_enumerates cases self :
  init (Ok (YSeq cases)) = ([], Ok self) ->
  case_num self = Z.of_nat (length cases) /\
  (get_all_case self).1.*1 `prefix_of` seqZ 0 (case_num self) /\
  (forall i d, (i, d) ∈ (get_all_case self).1 -> get_case self i = Ok (i, d)) /\
  ((get_all_case self).2 = None ->
   (get_all_case self).1.*1 = seqZ 0 (case_num self)) /\
  (Forall (fun c => exists items, c = YMap items) cases ->
   (get_all_case self).2 = None) /\
  (Forall (fun c => is_map c = true) cases ->
   get_all_case self = (numbered 0 cases, None)) /\
  (forall k c,
     cases !! k = Some c -> is_map c = false ->
     Forall (fun c' => is_map c' = true) (take k cases) ->
     get_case self (Z.of_nat k) = Raise (no_get c) /\
     get_all_case self = (numbered 0 (take k cases), Some (no_get c))).
Proof.
  intros Hinit. apply init_seq in Hinit. subst self. cbn [case_num].
  unfold get_all_case. cbn [case_num].
  destruct (yield_cases_spec (mkYamlLoader (YSeq cases) (Z.of_nat (length cases)))
              (seqZ 0 (Z.of_nat (length cases)))) as (H1 & H2 & H3 & H4).
  split; [reflexivity|]. split; [exact H1|]. split; [exact H2|]. split; [exact H3|].
  split; [|split].
  - intros Hmaps. apply H4. intros i Hi. apply elem_of_seqZ in Hi.
    assert (Hlt : (Z.to_nat i < length cases)%nat) by lia.
    destruct (lookup_lt_is_Some_2 cases (Z.to_nat i) Hlt) as [c Hc].
    rewrite Forall_forall in Hmaps.
    destruct (Hmaps c (list_elem_of_lookup_2 _ _ _ Hc)) as [items ->].
    unfold _get_py_dir. cbn [yml]. rewrite (getitem_in cases i _ (proj1 Hi) Hc). cbn. eauto.
  - intros Hmaps.
    pose proof (yield_cases_maps cases (Z.of_nat (length cases)) cases 0 []
                  ltac:(lia) ltac:(intros i c Hi; exact Hi) Hmaps) as E.
    rewrite !app_nil_r in E. exact E.
  - intros k c Hk Hc Hpre.
    pose proof (get_py_dir_no_map cases (Z.of_nat (length cases)) k c Hk Hc) as Hraise.
    split; [unfold get_case; now rewrite Hraise|].
    pose proof (lookup_lt_Some _ _ _ Hk) as Hlt.
    assert (Hlen : length (take k cases) = k) by (rewrite length_take; lia).
    assert (E : seqZ 0 (Z.of_nat (length cases)) =
                seqZ 0 (Z.of_nat (length (take k cases))) ++
                seqZ (Z.of_nat k) (Z.of_nat (length cases) - Z.of_nat k)).
    { rewrite Hlen. rewrite <- (Z.add_0_l (Z.of_nat k)) at 2.
      rewrite <- seqZ_app by lia. f_equal. lia. }
    rewrite E. clear E.
    rewrite (yield_cases_maps cases (Z.of_nat (length cases)) (take k cases) 0 _
               ltac:(lia)
               ltac:(intros i c' Hi; apply lookup_take_Some in Hi; exact (proj1 Hi))
               Hpre).
    rewrite seqZ_cons by lia. cbn [yield_cases]. rewrite Hraise. cbn [fst snd].
    now rewrite app_nil_r.
Qed.

(** X18. [get_solution_dir(n)] on a list of cases: an index from [-len] to
    [-1] counts from the end and an index outside [-len, len) is an
    [IndexError]; on a case that is a mapping, a missing
    ["Post-processing"] makes the next [get] fail on [None]
    ([AttributeError]), a missing ["solution_filename"] makes the
    concatenation fail ([TypeError]), and otherwise the file name with
    [-t1-p0.npy] appended comes back with the save directory, [None] when
    that is missing. *)
Theorem get_solution_dir_cases cases self n :
  init (Ok (YSeq cases)) = ([], Ok self) ->
  let len := Z.of_nat (length cases) in
  (len <= n \/ n < - len ->
   get_solution_dir self n = Raise (IndexError "list index out of range")) /\
  (- len <= n < 0 -> get_solution_dir self n = get_solution_dir self (n + len)) /\
  (forall items,
     0 <= n -> cases !! Z.to_nat n = Some (YMap items) ->
     match lookup_key "Post-processing" items with
     | None =>
         get_solution_dir self n =
         Raise (AttributeError "'NoneType' object has no attribute 'get'")
     | Some (YMap pp) =>
         match lookup_key "solution_filename" pp with
         | None =>
             get_solution_dir self n =
             Raise (TypeError "unsupported operand type(s) for +: 'NoneType' and 'str'")
         | Some (YStr s) =>
             get_solution_dir self n =
             Ok (YStr (s +:+ "-t1-p0.npy"),
                 default YNone (lookup_key "solution_save_dir" pp))
         | Some _ => exists e, get_solution_dir self n = Raise (TypeError e)
         end
     | Some _ => exists e, get_solution_dir self n = Raise (AttributeError e)
     end).
Proof.
  intros Hinit len. apply init_seq in Hinit. subst self.
  unfold get_solution_dir. cbn [yml]. split; [|split].
  - intros Hn. unfold getitem. now rewrite seq_index_out.
  - intros Hn. unfold getitem. now rewrite seq_index_negative.
  - intros items Hn Hc. rewrite (getitem_in _ _ _ Hn Hc). cbn [rbind get].
    destruct (lookup_key "Post-processing" items) as [pp|]; [|reflexivity].
    destruct pp as [| | | | | |pp]; cbn; eauto.
    destruct (lookup_key "solution_filename" pp) as [f|]; [|reflexivity].
    destruct f; cbn; eauto.
Qed.

Variable N : NumPy.

Lemma compare_list items expect delta rtol mode :
  compare N (PList items) expect delta rtol mode
  = compare_from N items expect 0 delta rtol mode.
Proof.
  cbn [compare]. generalize 0%nat.
  induction items as [|j rest IH]; intros i; cbn [compare_from]; [reflexivity|].
  destruct (item expect i) as [ei|e]; [|reflexivity].
  destruct (compare N j ei delta rtol mode); try reflexivity. apply IH.
Qed.

Lemma compare_tuple items expect delta rtol mode :
  compare N (PTuple items) expect delta rtol mode
  = compare_from N items expect 0 delta rtol mode.
Proof.
  cbn [compare]. generalize 0%nat.
  induction items as [|j rest IH]; intros i; cbn [compare_from]; [reflexivity|].
  destruct (item expect i) as [ei|e]; [|reflexivity].
  destruct (compare N j ei delta rtol mode); try reflexivity. apply IH.
Qed.

Lemma compare_scalar res expect delta rtol mode :
  is_scalar res = true ->
  compare N res expect delta rtol mode = check_values N res expect delta rtol mode.
Proof. destruct res; cbn; done. Qed.

Lemma check_values_other_mode res expect delta rtol mode :
  mode <> "close" -> mode <> "equal" ->
  check_values N res expect delta rtol mode = Pass.
Proof.
  intros H1 H2. unfold check_values.
  destruct (String.eqb mode "close") eqn:E1; [now apply String.eqb_eq in E1|].
  destruct (String.eqb mode "equal") eqn:E2; [now apply String.eqb_eq in E2|].
  reflexivity.
Qed.

Lemma compare_from_extra items exp extra i delta rtol mode :
  (i + length items <= length exp)%nat ->
  compare_from N items (PList (exp ++ extra)) i delta rtol mode
  = compare_from N items (PList exp) i delta rtol mode.
Proof.
  revert i. induction items as [|j rest IH]; intros i Hlen; cbn [compare_from length] in *;
    [reflexivity|].
  cbn [item]. rewrite lookup_app_l by lia.
  destruct (exp !! i) as [ei|]; [|reflexivity].
  destruct (compare N j ei delta rtol mode); try reflexivity. apply IH. lia.
Qed.

(** X19. What [compare] lets through: a result that is [None] or a string
    passes against anything (the last branch asserts the class
    [TypeError], which is never false); an empty list or tuple passes
    against anything; with a mode other than ["close"] and ["equal"] no
    value is looked at, so every scalar passes and two arrays pass as soon
    as their shapes agree; and the entries of the expected list beyond the
    length of the result are never looked at. *)
Theorem compare_blind_spots expect delta rtol mode :
  compare N PNone expect delta rtol mode = Pass /\
  (forall s, compare N (PStr s) expect delta rtol mode = Pass) /\
  compare N (PList []) expect delta rtol mode = Pass /\
  compare N (PTuple []) expect delta rtol mode = Pass /\
  (mode <> "close" -> mode <> "equal" ->
   (forall res, is_scalar res = true -> compare N res expect delta rtol mode = Pass) /\
   (forall shape data data',
      compare N (PArr shape data) (PArr shape data') delta rtol mode = Pass)) /\
  (forall items exp extra,
     (length items <= length exp)%nat ->
     compare N (PList items) (PList (exp ++ extra)) delta rtol mode =
     compare N (PList items) (PList exp) delta rtol mode).
Proof.
  split; [reflexivity|]. split; [reflexivity|]. split; [reflexivity|].
  split; [reflexivity|]. split.
  - intros H1 H2. split.
    + intros res Hs. rewrite compare_scalar by done. now apply check_values_other_mode.
    + intros shape data data'. cbn [compare shape_of].
      rewrite bool_decide_eq_true_2 by done. now apply check_values_other_mode.
  - intros items exp extra Hlen. rewrite !compare_list.
    apply compare_from_extra. lia.
Qed.

Lemma compare_from_scalars items expect i delta rtol :
  Forall (fun v => is_scalar v = true) items ->
  compare_from N items expect i delta rtol "close" = Pass <->
  forall k x, items !! k = Some x ->
    exists y, item expect (i + k) = Ok y /\ np_allclose N x y delta rtol = Ok true.
Proof.
  intros Hs. revert i. induction Hs as [|j rest Hj Hrest IH]; intros i; cbn [compare_from].
  - split; [intros _ k x Hk; now rewrite lookup_nil in Hk|done].
  - split.
    + destruct (item expect i) as [ei|e] eqn:Ei; [|discriminate].
      rewrite compare_scalar by done. unfold check_values. cbn [String.eqb Ascii.eqb Bool.eqb].
      destruct (np_allclose N j ei delta rtol) as [[|]|e] eqn:Ec; cbn [py_assert]; try discriminate.
      intros Hrest' k x Hk. destruct k as [|k]; cbn in Hk.
      * injection Hk as <-. rewrite Nat.add_0_r. eauto.
      * replace (i + S k)%nat with (S i + k)%nat by lia.
        exact (proj1 (IH (S i)) Hrest' k x Hk).
    + intros Hall. destruct (Hall 0%nat j eq_refl) as (y & Hy & Hc).
      rewrite Nat.add_0_r in Hy. rewrite Hy.
      rewrite compare_scalar by done. unfold check_values. cbn [String.eqb Ascii.eqb Bool.eqb].
      rewrite Hc. cbn [py_assert]. apply IH. intros k x Hk.
      replace (S i + k)%nat with (i + S k)%nat by lia. now apply (Hall (S k)).
Qed.

(** X20. What passing means in the mode ["close"] for a list of scalars:
    [compare] returns exactly when every entry of the result has an entry
    at the same position of what is expected and [np.allclose] holds of
    the two. *)
Theorem compare_pass_scalars items expect delta rtol :
  Forall (fun v => is_scalar v = true) items ->
  compare N (PList items) expect delta rtol "close" = Pass <->
  forall k x, items !! k = Some x ->
    exists y, item expect k = Ok y /\ np_allclose N x y delta rtol = Ok true.
Proof.
  intros Hs. rewrite compare_list. exact (compare_from_scalars items expect 0 delta rtol Hs).
Qed.

End ConfigTransFacts.

(** ** The test harness on a concrete case file *)
Section ConfigTransExamples.
Import ConfigTrans.

Lemma get_all_case_enumerates_witness :
  let self := mkYamlLoader demo_cases 2 in
  let broken := mkYamlLoader (YSeq broken_cases) 3 in
  init (Ok demo_cases) = ([], Ok self) /\
  get_all_case self = ([(0, YStr "examples/a.py"); (1, YNone)], None) /\
  get_case self 1 = Ok (1, YNone) /\
  init (Ok (YSeq broken_cases)) = ([], Ok broken) /\
  get_all_case broken
    = ([(0, YStr "a")], Some (AttributeError "'int' object has no attribute 'get'")).
Proof.
  cbv zeta. split; [reflexivity|]. split; [vm_compute; reflexivity|].
  destruct (get_all_case_enumerates _ (mkYamlLoader demo_cases 2) eq_refl)
    as (_ & _ & Hget & _).
  split; [apply Hget; vm_compute; apply list_elem_of_further, list_elem_of_here|].
  split; [reflexivity|].
  destruct (get_all_case_enumerates _ (mkYamlLoader (YSeq broken_cases) 3) eq_refl)
    as (_ & _ & _ & _ & _ & _ & Hstop).
  destruct (Hstop 1%nat (YInt 5) eq_refl eq_refl ltac:(repeat constructor)) as [_ E].
  exact E.
Defined.

Lemma get_solution_dir_cases_witness :
  let self := mkYamlLoader demo_cases 2 in
  init (Ok demo_cases) = ([], Ok self) /\
  get_solution_dir self 0 = Ok (YStr "out-t1-p0.npy", YStr "res") /\
  get_solution_dir self 1
    = Raise (AttributeError "'NoneType' object has no attribute 'get'") /\
  get_solution_dir self (-2) = get_solution_dir self 0 /\
  get_solution_dir self 2 = Raise (IndexError "list index out of range").
Proof.
  cbv zeta. split; [reflexivity|].
  destruct (get_solution_dir_cases _ (mkYamlLoader demo_cases 2) 0 eq_refl)
    as (_ & _ & H0).
  destruct (get_solution_dir_cases _ (mkYamlLoader demo_cases 2) 1 eq_refl)
    as (_ & _ & H1).
  destruct (get_solution_dir_cases _ (mkYamlLoader demo_cases 2) (-2) eq_refl)
    as (_ & Hneg & _).
  destruct (get_solution_dir_cases _ (mkYamlLoader demo_cases 2) 2 eq_refl)
    as (Hout & _ & _).
  split; [exact (H0 _ ltac:(lia) eq_refl)|].
  split; [exact (H1 _ ltac:(lia) eq_refl)|].
  split; [exact (Hneg ltac:(cbn; lia))|].
  exact (Hout ltac:(cbn; lia)).
Defined.

(** One result against two expected values, and a mode that is not one. *)
Lemma compare_blind_spots_witness :
  (length [PNum (NumFloat fone)] <= length [PNum (NumFloat fone)])%nat /\
  compare exact_numpy (PList [PNum (NumFloat fone)])
    (PList [PNum (NumFloat fone); PNum (NumFloat ftwo)]) fzero fzero "close" = Pass /\
  "exact" <> "close" /\ "exact" <> "equal" /\
  compare exact_numpy (PNum (NumFloat fone)) (PNum (NumFloat ftwo)) fzero fzero "exact" = Pass.
Proof.
  destruct (compare_blind_spots exact_numpy (PNum (NumFloat ftwo)) fzero fzero "exact")
    as (_ & _ & _ & _ & Hmode & _).
  destruct (compare_blind_spots exact_numpy (PNum (NumFloat ftwo)) fzero fzero "close")
    as (_ & _ & _ & _ & _ & Hextra).
  split; [cbn; lia|]. split.
  - change [PNum (NumFloat fone); PNum (NumFloat ftwo)]
      with ([PNum (NumFloat fone)] ++ [PNum (NumFloat ftwo)]).
    rewrite (Hextra [PNum (NumFloat fone)] [PNum (NumFloat fone)] [PNum (NumFloat ftwo)])
      by (cbn; lia).
    vm_compute. reflexivity.
  - split; [discriminate|]. split; [discriminate|].
    destruct (Hmode ltac:(discriminate) ltac:(discriminate)) as [Hs _].
    now apply Hs.
Defined.

Lemma compare_pass_scalars_witness :
  Forall (fun v => is_scalar v = true) [PNum (NumFloat fone); PNum (NumFloat ftwo)] /\
  compare exact_numpy (PList [PNum (NumFloat fone); PNum (NumFloat ftwo)])
    (PTuple [PNum (NumFloat fone); PNum (NumFloat ftwo)]) fzero fzero "close" = Pass /\
  exists y, item (PTuple [PNum (NumFloat fone); PNum (NumFloat ftwo)]) 1 = Ok y /\
            np_allclose exact_numpy (PNum (NumFloat ftwo)) y fzero fzero = Ok true.
Proof.
  assert (Hs : Forall (fun v => is_scalar v = true)
                 [PNum (NumFloat fone); PNum (NumFloat ftwo)])
    by (repeat constructor).
  assert (Hp : compare exact_numpy (PList [PNum (NumFloat fone); PNum (NumFloat ftwo)])
                 (PTuple [PNum (NumFloat fone); PNum (NumFloat ftwo)]) fzero fzero "close"
               = Pass) by (vm_compute; reflexivity).
  split; [exact Hs|]. split; [exact Hp|].
  exact (proj1 (compare_pass_scalars exact_numpy _ _ fzero fzero Hs) Hp 1%nat _ eq_refl).
Defined.

End ConfigTransExamples.
